(** * LuminaLib: playback controller, capture controller and local persistence

    A shallow embedding of the stateful logic of [src/App.tsx] (the full
    application), of its reduced variant [src/unnamed/part_001] (the
    "LuminaScout" build of the same component) and of the Content Service
    client [src/unnamed/part_000] (two revisions of [geminiService.ts] in one
    file), with the properties of the specification stated over it.

    React state ([useState]) and refs ([useRef]) become fields of explicit
    state records; event handlers become functions on those records;
    [async] functions are split at their [await]s into a synchronous prefix
    and one continuation per suspension point, the outcome of the awaited
    promise being an argument supplied by the environment. *)

From Stdlib Require Import String Ascii ZArith List Lia Bool DecimalString.
From stdpp Require Import base option list gmap strings.

Local Open Scope string_scope.
Set Warnings "-register-all".

(** ** JSON values and [JSON.parse] *)

Module JSON.

(** A JavaScript value as far as this program sees one: the results of
    [JSON.parse], plus [undefined] for absent properties. Numbers keep
    their lexeme. *)
Inductive value : Type :=
  | Undefined
  | Null
  | Bool (b : bool)
  | Num (lexeme : string)
  | Str (s : string)
  | Arr (items : list value)
  | Obj (members : list (string * value)).

Inductive outcome (A : Type) : Type :=
  | Parsed (a : A) (rest : string)
  | SyntaxError
  | OutOfFuel.
Arguments Parsed {A} a rest.
Arguments SyntaxError {A}.
Arguments OutOfFuel {A}.

Definition is_ws (c : ascii) : bool :=
  let n := nat_of_ascii c in
  (n =? 32)%nat || (n =? 9)%nat || (n =? 10)%nat || (n =? 13)%nat.

Fixpoint skip_ws (s : string) : string :=
  match s with
  | String c r => if is_ws c then skip_ws r else s
  | EmptyString => s
  end.

Definition is_digit (c : ascii) : bool :=
  let n := nat_of_ascii c in (48 <=? n)%nat && (n <=? 57)%nat.

(** longest prefix of decimal digits, and what follows it *)
Fixpoint span_digits (s : string) : string * string :=
  match s with
  | String c r =>
      if is_digit c then let '(d, r') := span_digits r in (String c d, r')
      else (EmptyString, s)
  | EmptyString => (EmptyString, EmptyString)
  end.

(** one given character *)
Definition eat (c : ascii) (s : string) : option string :=
  match s with
  | String c' r => if Ascii.eqb c' c then Some r else None
  | EmptyString => None
  end.

(** a literal prefix *)
Fixpoint expect (lit s : string) : option string :=
  match lit with
  | EmptyString => Some s
  | String a lit' => s' ← eat a s; expect lit' s'
  end.

Definition lex_int (s : string) : option (string * string) :=
  match s with
  | String c r =>
      if Ascii.eqb c "0" then Some ("0", r)
      else if is_digit c then let '(d, r') := span_digits r in Some (String c d, r')
      else None
  | EmptyString => None
  end.

(** at least one digit *)
Definition lex_digits (s : string) : option (string * string) :=
  match span_digits s with
  | (EmptyString, _) => None
  | (d, r) => Some (d, r)
  end.

Definition lex_frac (s : string) : option (string * string) :=
  match eat "." s with
  | Some r => '(d, r') ← lex_digits r; Some (String "." d, r')
  | None => Some (EmptyString, s)
  end.

Definition lex_sign (s : string) : string * string :=
  match eat "+" s with
  | Some r => ("+", r)
  | None =>
      match eat "-" s with
      | Some r => ("-", r)
      | None => (EmptyString, s)
      end
  end.

Definition lex_exp (s : string) : option (string * string) :=
  match s with
  | String c r =>
      if Ascii.eqb c "e" || Ascii.eqb c "E" then
        let '(sign, r1) := lex_sign r in
        '(d, r') ← lex_digits r1;
        Some (String c (sign ++ d), r')
      else Some (EmptyString, s)
  | EmptyString => Some (EmptyString, s)
  end.

(** number := -? int frac? exp? *)
Definition lex_number (s : string) : option (string * string) :=
  let '(sign, s0) :=
    match eat "-" s with
    | Some r => ("-", r)
    | None => (EmptyString, s)
    end in
  '(i, s1) ← lex_int s0;
  '(f, s2) ← lex_frac s1;
  '(e, s3) ← lex_exp s2;
  Some (sign ++ i ++ f ++ e, s3).

Definition hex_digit (c : ascii) : option N :=
  let n := N_of_ascii c in
  if (48 <=? n)%N && (n <=? 57)%N then Some (n - 48)%N
  else if (65 <=? n)%N && (n <=? 70)%N then Some (n - 55)%N
  else if (97 <=? n)%N && (n <=? 102)%N then Some (n - 87)%N
  else None.

(** A code unit written as a backslash-u escape, as bytes of the string
    (UTF-8 of the code unit). *)
Definition bytes_of_code_unit (n : N) : string :=
  if (n <? 128)%N then String (ascii_of_N n) EmptyString
  else if (n <? 2048)%N then
    String (ascii_of_N (192 + n / 64)) (String (ascii_of_N (128 + n mod 64)) EmptyString)
  else
    String (ascii_of_N (224 + n / 4096))
      (String (ascii_of_N (128 + (n / 64) mod 64))
         (String (ascii_of_N (128 + n mod 64)) EmptyString)).

Definition escape (c : ascii) : option ascii :=
  let n := nat_of_ascii c in
  if (n =? 34)%nat then Some c            (* quote *)
  else if (n =? 92)%nat then Some c       (* backslash *)
  else if (n =? 47)%nat then Some c       (* solidus *)
  else if (n =? 98)%nat then Some (ascii_of_nat 8)    (* b: backspace *)
  else if (n =? 102)%nat then Some (ascii_of_nat 12)  (* f: form feed *)
  else if (n =? 110)%nat then Some (ascii_of_nat 10)  (* n: line feed *)
  else if (n =? 114)%nat then Some (ascii_of_nat 13)  (* r: carriage return *)
  else if (n =? 116)%nat then Some (ascii_of_nat 9)   (* t: tab *)
  else None.

(** four hexadecimal digits *)
Definition lex_hex4 (s : string) : option (N * string) :=
  match s with
  | String h1 (String h2 (String h3 (String h4 r))) =>
      a ← hex_digit h1; b ← hex_digit h2; c ← hex_digit h3; d ← hex_digit h4;
      Some ((((a * 16 + b) * 16 + c) * 16 + d)%N, r)
  | _ => None
  end.

(** The characters of a string literal after its opening quote. The fuel
    bounds the number of characters read. *)
Fixpoint lex_chars (fuel : nat) (s : string) : option (string * string) :=
  match fuel with
  | O => None
  | S fuel =>
      match s with
      | EmptyString => None
      | String c r =>
          let n := nat_of_ascii c in
          if (n =? 34)%nat then Some (EmptyString, r)
          else if (n =? 92)%nat then
            match r with
            | String e r1 =>
                if Ascii.eqb e "u" then
                  '(u, r2) ← lex_hex4 r1;
                  '(t, r3) ← lex_chars fuel r2;
                  Some (bytes_of_code_unit u ++ t, r3)
                else
                  e' ← escape e;
                  '(t, r2) ← lex_chars fuel r1;
                  Some (String e' t, r2)
            | EmptyString => None
            end
          else if (n <? 32)%nat then None
          else '(t, r1) ← lex_chars fuel r; Some (String c t, r1)
      end
  end.

Definition lex_string (s : string) : option (string * string) :=
  match s with
  | String c r =>
      if (nat_of_ascii c =? 34)%nat then lex_chars (String.length r) r else None
  | EmptyString => None
  end.

Definition of_option {A} (o : option (A * string)) : outcome A :=
  match o with
  | Some (a, r) => Parsed a r
  | None => SyntaxError
  end.

Fixpoint parse_value (fuel : nat) (s : string) {struct fuel} : outcome value :=
  match fuel with
  | O => OutOfFuel
  | S fuel =>
      match skip_ws s with
      | EmptyString => SyntaxError
      | String c r as s' =>
          if Ascii.eqb c "[" then
            match eat "]" (skip_ws r) with
            | Some r' => Parsed (Arr []) r'
            | None =>
                match parse_elements fuel (skip_ws r) with
                | Parsed vs r' => Parsed (Arr vs) r'
                | SyntaxError => SyntaxError
                | OutOfFuel => OutOfFuel
                end
            end
          else if Ascii.eqb c "{" then
            match eat "}" (skip_ws r) with
            | Some r' => Parsed (Obj []) r'
            | None =>
                match parse_members fuel (skip_ws r) with
                | Parsed ms r' => Parsed (Obj ms) r'
                | SyntaxError => SyntaxError
                | OutOfFuel => OutOfFuel
                end
            end
          else if (nat_of_ascii c =? 34)%nat then
            of_option (prod_map Str id <$> lex_string s')
          else if Ascii.eqb c "t" then
            of_option (pair (Bool true) <$> expect "true" s')
          else if Ascii.eqb c "f" then
            of_option (pair (Bool false) <$> expect "false" s')
          else if Ascii.eqb c "n" then
            of_option (pair Null <$> expect "null" s')
          else of_option (prod_map Num id <$> lex_number s')
      end
  end
with parse_elements (fuel : nat) (s : string) {struct fuel} : outcome (list value) :=
  match fuel with
  | O => OutOfFuel
  | S fuel =>
      match parse_value fuel s with
      | Parsed v r =>
          match eat "]" (skip_ws r) with
          | Some r' => Parsed [v] r'
          | None =>
              match eat "," (skip_ws r) with
              | Some r' =>
                  match parse_elements fuel r' with
                  | Parsed vs r2 => Parsed (v :: vs) r2
                  | SyntaxError => SyntaxError
                  | OutOfFuel => OutOfFuel
                  end
              | None => SyntaxError
              end
          end
      | SyntaxError => SyntaxError
      | OutOfFuel => OutOfFuel
      end
  end
with parse_members (fuel : nat) (s : string) {struct fuel}
    : outcome (list (string * value)) :=
  match fuel with
  | O => OutOfFuel
  | S fuel =>
      match lex_string (skip_ws s) with
      | Some (k, r) =>
          match eat ":" (skip_ws r) with
          | Some r0 =>
              match parse_value fuel r0 with
              | Parsed v r1 =>
                  match eat "}" (skip_ws r1) with
                  | Some r' => Parsed [(k, v)] r'
                  | None =>
                      match eat "," (skip_ws r1) with
                      | Some r' =>
                          match parse_members fuel r' with
                          | Parsed ms r2 => Parsed ((k, v) :: ms) r2
                          | SyntaxError => SyntaxError
                          | OutOfFuel => OutOfFuel
                          end
                      | None => SyntaxError
                      end
                  end
              | SyntaxError => SyntaxError
              | OutOfFuel => OutOfFuel
              end
          | None => SyntaxError
          end
      | None => SyntaxError
      end
  end.

(** [JSON.parse(text)]: one value surrounded by white space. [SyntaxError]
    is the exception of the same name; the fuel, twice the length of the
    text, is never used up (lemma [parse_has_fuel]). *)
Definition parse (text : string) : outcome value :=
  match parse_value (2 * String.length text + 2) text with
  | Parsed v r =>
      match skip_ws r with
      | EmptyString => Parsed v EmptyString
      | _ => SyntaxError
      end
  | SyntaxError => SyntaxError
  | OutOfFuel => OutOfFuel
  end.

(** Property read [v.name] on a parsed value; of an object with a repeated
    key [JSON.parse] keeps the last member. *)
Fixpoint lookup_member (name : string) (ms : list (string * value)) : value :=
  match ms with
  | [] => Undefined
  | (k, v) :: ms' =>
      match lookup_member name ms' with
      | Undefined => if String.eqb k name then v else Undefined
      | later => later
      end
  end.

Definition get (name : string) (v : value) : value :=
  match v with
  | Obj ms => lookup_member name ms
  | _ => Undefined
  end.

End JSON.

Local Open Scope list_scope.

(** ** Platform functions

    Functions of the JavaScript runtime whose exact behaviour depends on
    Unicode tables, on floating point arithmetic or on the browser engine are
    left abstract: every theorem below holds for any implementation of them. *)

Class Platform := {
  (** [String.prototype.toLowerCase] *)
  toLowerCase : string → string;
  (** [String.prototype.trim] *)
  trim : string → string;
  (** [encodeURIComponent]; [None] is its [URIError] *)
  encodeURIComponent : string → option string;
  (** truthiness of the number denoted by a JSON number lexeme
      (false exactly when the double it rounds to is zero) *)
  numberTruthy : string → bool;
  (** [String(v)] for a value that is not a string, as a template literal
      computes it *)
  stringOfValue : JSON.value → string;
  (** whether [FileReader.readAsDataURL] renders a blob of size zero as the
      bare scheme [data:], with no media type and no comma *)
  bareEmptyDataURL : bool;
}.


(** ** Data model ([src/types.ts]) *)

Inductive AppMode : Type :=
  | HOME | SEARCH | LIBRARIAN | SCANNER | VOICE | SETTINGS | FAVORITES | HISTORY.

Module BookLocation.
Inductive kind : Type := library | bookstore.
Record t : Type := mk {
  name : string;
  address : option string;
  uri : string;
  type : kind;
}.
End BookLocation.

Module SoftcopyLink.
Record t : Type := mk {
  title : string;
  uri : option string;   (* the first revision of the service copies it unchecked *)
}.
End SoftcopyLink.

(** The fields that [searchBookDetails] copies out of the model's JSON answer
    are whatever that answer holds, so they are JavaScript values here; the
    TypeScript interface declares them as strings without checking. *)
Module BookResult.
Record t : Type := mk {
  title : string;
  author : JSON.value;
  summary : JSON.value;
  authorBio : JSON.value;
  awards : JSON.value;
  locations : list BookLocation.t;
  softcopies : list SoftcopyLink.t;
  coverImageUrl : string;
}.
End BookResult.

Module HistoryEntry.
Record t : Type := mk {
  id : string;
  query : string;
  timestamp : N;
  result : BookResult.t;
}.
End HistoryEntry.

Module Journal.
Record t : Type := mk {
  id : string;
  name : string;
  bookTitles : list string;
  createdAt : N;
}.
End Journal.

(** [Date.now().toString()]: the decimal numeral of a millisecond count. *)
Definition Date_toString (now : N) : string :=
  DecimalString.NilZero.string_of_uint (N.to_uint now).

(** ** The persisted collections ([favorites], [journals], [history]) *)

Record Library : Type := mkLibrary {
  favorites : list BookResult.t;
  journals : list Journal.t;
  history : list HistoryEntry.t;
}.

Definition setFavorites (f : list BookResult.t → list BookResult.t) (l : Library) : Library :=
  {| favorites := f (favorites l); journals := journals l; history := history l |}.

Definition setJournals (f : list Journal.t → list Journal.t) (l : Library) : Library :=
  {| favorites := favorites l; journals := f (journals l); history := history l |}.

Definition setHistory (f : list HistoryEntry.t → list HistoryEntry.t) (l : Library) : Library :=
  {| favorites := favorites l; journals := journals l; history := f (history l) |}.

(** [arr.slice(0, n)] *)
Definition slice0 {A} (n : nat) (arr : list A) : list A := take n arr.

(** The updater of [handleSearch], App.tsx line 288 (part_001 lines 193-198):
    [prev => [entry, ...prev].slice(0, 50)]. *)
Definition pushHistory (entry : HistoryEntry.t) (prev : list HistoryEntry.t)
    : list HistoryEntry.t :=
  slice0 50 (entry :: prev).

(** The entry built by [handleSearch]; [Date.now()] is read twice. *)
Definition historyEntry (now_id now_ts : N) (queryToUse : string) (result : BookResult.t)
    : HistoryEntry.t :=
  {| HistoryEntry.id := Date_toString now_id;
     HistoryEntry.query := queryToUse;
     HistoryEntry.timestamp := now_ts;
     HistoryEntry.result := result |}.

(** [deleteHistoryEntry] and [clearHistory] (after its [confirm]). *)
Definition deleteHistoryEntry (id : string) (l : Library) : Library :=
  setHistory (filter (λ h, HistoryEntry.id h ≠ id)) l.

Definition clearHistory (confirmed : bool) (l : Library) : Library :=
  if confirmed then setHistory (λ _, []) l else l.

Section Collections.
Context `{Platform}.

(** [isFavorited], App.tsx lines 184-186 *)
Definition isFavorited (l : Library) (title : string) : bool :=
  bool_decide (Exists (λ f, toLowerCase (BookResult.title f) = toLowerCase title)
                 (favorites l)).

(** [toggleFavorite], App.tsx lines 297-309. The journals are updated from
    inside the favorites updater. *)
Definition toggleFavorite (book : BookResult.t) (l : Library) : Library :=
  let same f := toLowerCase (BookResult.title f) = toLowerCase (BookResult.title book) in
  match list_find same (favorites l) with
  | Some _exists =>
      let l' :=
        setJournals (fmap (λ j,
          {| Journal.id := Journal.id j;
             Journal.name := Journal.name j;
             Journal.bookTitles :=
               filter (λ t, toLowerCase t ≠ toLowerCase (BookResult.title book))
                      (Journal.bookTitles j);
             Journal.createdAt := Journal.createdAt j |})) l in
      setFavorites (filter (λ f, toLowerCase (BookResult.title f)
                                   ≠ toLowerCase (BookResult.title book))) l'
  | None => setFavorites (λ prev, book :: prev) l
  end.

End Collections.

(** [createJournal], App.tsx lines 311-322, on the collections: the new folder
    is appended with an empty [bookTitles]. [Date.now()] is read twice. *)
Definition appendJournal (now_id now_created : N) (newJournalName : string) (l : Library)
    : Library :=
  setJournals (λ prev, prev ++ [ {| Journal.id := Date_toString now_id;
                                    Journal.name := newJournalName;
                                    Journal.bookTitles := [];
                                    Journal.createdAt := now_created |} ]) l.

(** The updater of [deleteJournal], App.tsx line 326. *)
Definition removeJournal (id : string) (l : Library) : Library :=
  setJournals (filter (λ j, Journal.id j ≠ id)) l.

(** [assignBookToJournal], App.tsx lines 331-336, on the collections;
    [journalId] is [string | null]. *)
Definition assignBook (bookTitle : string) (journalId : option string) (j : Journal.t)
    : Journal.t :=
  let cleanBooks := filter (λ t, t ≠ bookTitle) (Journal.bookTitles j) in
  if decide (Some (Journal.id j) = journalId) then
    {| Journal.id := Journal.id j; Journal.name := Journal.name j;
       Journal.bookTitles := cleanBooks ++ [bookTitle];
       Journal.createdAt := Journal.createdAt j |}
  else
    {| Journal.id := Journal.id j; Journal.name := Journal.name j;
       Journal.bookTitles := cleanBooks;
       Journal.createdAt := Journal.createdAt j |}.

Definition assignBookToJournal_journals (bookTitle : string) (journalId : option string)
    (l : Library) : Library :=
  setJournals (fmap (assignBook bookTitle journalId)) l.

(** ** The audio platform

    An [AudioContext] is [running] or [suspended] ([close] is never called);
    a new context is running; [suspend] and [resume] take effect when called,
    their promises settle later. Every [AudioBufferSourceNode] the program
    creates is recorded, in creation order, with its life cycle. *)

Inductive ContextState : Type := running | suspended.

Inductive SourceState : Type :=
  | created   (* createBufferSource(), start() not yet called *)
  | playing   (* start() called: the node renders its buffer *)
  | stopped   (* stop() called, the ended event not yet dispatched *)
  | ended.    (* the ended event was dispatched *)

Global Instance ContextState_eq_dec : EqDecision ContextState.
Proof. solve_decision. Defined.
Global Instance SourceState_eq_dec : EqDecision SourceState.
Proof. solve_decision. Defined.

(** [source.stop()]: raises [InvalidStateError] ([None]) on a node that was
    never started, halts a playing node, and does nothing otherwise. *)
Definition source_stop (i : nat) (srcs : list SourceState) : option (list SourceState) :=
  match srcs !! i with
  | Some created => None
  | Some playing => Some (<[i := stopped]> srcs)
  | _ => Some srcs
  end.

(** What the program tells the outside: diagnostics and user-facing alerts. *)
Inductive Effect : Type :=
  | ConsoleError (what : string)
  | ConsoleWarn (what : string)
  | Alert (message : string).

Definition is_alert (e : Effect) : bool :=
  match e with Alert _ => true | _ => false end.

(** A suspended [async] call of the playback controller, named by the
    [await] it is parked at. *)
Inductive Task : Type :=
  | AwaitSpeak (text : string)          (* await speakText(text) *)
  | AwaitCtxResume (base64Audio : string) (* await ctx.resume() in startAudioPlayback *)
  | AwaitDecode (base64Audio : string)  (* await decodeAudioData(decode(base64Audio), ...) *)
  | AwaitSuspend                        (* await audioContextRef.current.suspend() *)
  | AwaitResume                         (* await audioContextRef.current.resume() *)
  | Done.

(** How the environment settles an awaited promise. [speakText] fulfils with
    [string | undefined]; the other promises carry nothing the program reads. *)
Inductive Settlement : Type :=
  | Fulfilled (v : option string)
  | Rejected (reason : string).

(** ** Playback controller state (App.tsx lines 117-120 and 149-154) *)

Record Playback : Type := mkPlayback {
  audioContextRef : option ContextState;
  activeAudioSourceRef : option nat;
  isAudioLockedRef : bool;
  isPlayingAudio : bool;
  isAudioPaused : bool;
  isAudioLoading : bool;
  sources : list SourceState;
  tasks : list Task;
  log : list Effect;
}.

Definition with_ctx (c : option ContextState) (p : Playback) : Playback :=
  mkPlayback c (activeAudioSourceRef p) (isAudioLockedRef p) (isPlayingAudio p)
    (isAudioPaused p) (isAudioLoading p) (sources p) (tasks p) (log p).
Definition with_source (a : option nat) (p : Playback) : Playback :=
  mkPlayback (audioContextRef p) a (isAudioLockedRef p) (isPlayingAudio p)
    (isAudioPaused p) (isAudioLoading p) (sources p) (tasks p) (log p).
Definition with_lock (b : bool) (p : Playback) : Playback :=
  mkPlayback (audioContextRef p) (activeAudioSourceRef p) b (isPlayingAudio p)
    (isAudioPaused p) (isAudioLoading p) (sources p) (tasks p) (log p).
Definition setIsPlayingAudio (b : bool) (p : Playback) : Playback :=
  mkPlayback (audioContextRef p) (activeAudioSourceRef p) (isAudioLockedRef p) b
    (isAudioPaused p) (isAudioLoading p) (sources p) (tasks p) (log p).
Definition setIsAudioPaused (b : bool) (p : Playback) : Playback :=
  mkPlayback (audioContextRef p) (activeAudioSourceRef p) (isAudioLockedRef p)
    (isPlayingAudio p) b (isAudioLoading p) (sources p) (tasks p) (log p).
Definition setIsAudioLoading (b : bool) (p : Playback) : Playback :=
  mkPlayback (audioContextRef p) (activeAudioSourceRef p) (isAudioLockedRef p)
    (isPlayingAudio p) (isAudioPaused p) b (sources p) (tasks p) (log p).
Definition with_sources (l : list SourceState) (p : Playback) : Playback :=
  mkPlayback (audioContextRef p) (activeAudioSourceRef p) (isAudioLockedRef p)
    (isPlayingAudio p) (isAudioPaused p) (isAudioLoading p) l (tasks p) (log p).
Definition with_tasks (l : list Task) (p : Playback) : Playback :=
  mkPlayback (audioContextRef p) (activeAudioSourceRef p) (isAudioLockedRef p)
    (isPlayingAudio p) (isAudioPaused p) (isAudioLoading p) (sources p) l (log p).
Definition console_error (what : string) (p : Playback) : Playback :=
  mkPlayback (audioContextRef p) (activeAudioSourceRef p) (isAudioLockedRef p)
    (isPlayingAudio p) (isAudioPaused p) (isAudioLoading p) (sources p) (tasks p)
    (log p ++ [ConsoleError what]).

(** park a new suspended call; its number is its position *)
Definition spawn (t : Task) (p : Playback) : Playback := with_tasks (tasks p ++ [t]) p.
(** replace a suspended call by its next suspension, or by [Done] *)
Definition park (i : nat) (t : Task) (p : Playback) : Playback :=
  with_tasks (<[i := t]> (tasks p)) p.

Definition initialPlayback : Playback :=
  mkPlayback None None false false false false [] [] [].

(** [Idle] of the state machine: nothing loading, playing or paused, no
    active source, lock free. *)
Definition is_idle (p : Playback) : bool :=
  bool_decide (activeAudioSourceRef p = None)
  && negb (isAudioLockedRef p) && negb (isPlayingAudio p)
  && negb (isAudioPaused p) && negb (isAudioLoading p).

(** how many elements of a list pass a test *)
Fixpoint count {A} (f : A → bool) (l : list A) : nat :=
  match l with
  | [] => 0
  | x :: l => (if f x then 1 else 0) + count f l
  end.

Definition is_playing (st : SourceState) : bool :=
  match st with playing => true | _ => false end.

(** a node whose ended event is still to come *)
Definition is_live (st : SourceState) : bool :=
  match st with playing | stopped => true | _ => false end.

(** number of source nodes that are rendering audio *)
Definition active_sources (p : Playback) : nat := count is_playing (sources p).

(** JavaScript truthiness of [string | undefined] *)
Definition truthy_string (o : option string) : option string :=
  match o with
  | Some s => if decide (s = "") then None else Some s
  | None => None
  end.

Inductive Event : Type :=
  | Toggle (text : option string)   (* handleAudioToggle(text?) *)
  | Stop                            (* stopAudio() *)
  | Settle (task : nat) (o : Settlement)
  | Ended (source : nat).           (* the ended event of a source node *)

(** ** The playback controller of App.tsx *)

Module App.

(** lines 188-202 *)
Definition stopAudio (p : Playback) : Playback :=
  let p :=
    match activeAudioSourceRef p with
    | Some src =>
        let p :=
          match source_stop src (sources p) with
          | Some srcs => with_sources srcs p
          | None => p                       (* catch (e) { } *)
          end in
        with_source None p
    | None => p
    end in
  let p :=
    match audioContextRef p with
    | Some suspended => with_ctx (Some running) p
    | _ => p
    end in
  with_lock false (setIsAudioLoading false (setIsAudioPaused false
    (setIsPlayingAudio false p))).

(** lines 204-209, up to the [await] *)
Definition pauseAudio (p : Playback) : Playback :=
  match audioContextRef p with
  | Some running => spawn AwaitSuspend (with_ctx (Some suspended) p)
  | _ => p
  end.

(** lines 211-216, up to the [await] *)
Definition resumeAudio (p : Playback) : Playback :=
  match audioContextRef p with
  | Some suspended => spawn AwaitResume (with_ctx (Some running) p)
  | _ => p
  end.

(** lines 228-232: the lock is taken and the request sent *)
Definition startAudioPlayback (text : string) (p : Playback) : Playback :=
  spawn (AwaitSpeak text) (setIsAudioLoading true (with_lock true p)).

(** lines 218-226 *)
Definition handleAudioToggle (text : option string) (p : Playback) : Playback :=
  if isAudioLockedRef p then p
  else if isPlayingAudio p then
    if isAudioPaused p then resumeAudio p else pauseAudio p
  else
    match truthy_string text with
    | Some text => startAudioPlayback text p
    | None => p
    end.

(** lines 259-263: the [catch] of [startAudioPlayback] *)
Definition startAudioPlayback_catch (error : string) (p : Playback) : Playback :=
  with_lock false (setIsAudioLoading false (console_error error p)).

(** lines 244-249: [source.onended] *)
Definition onended (p : Playback) : Playback :=
  with_lock false (with_source None (setIsAudioPaused false (setIsPlayingAudio false p))).

(** line 239: [decode] and [decodeAudioData] are called; a throw of the
    synchronous [decode] is delivered as the rejection of this [await]. *)
Definition startAudioPlayback_decode (i : nat) (base64Audio : string) (p : Playback)
    : Playback :=
  park i (AwaitDecode base64Audio) p.

(** lines 233-238 and 255-258: [speakText] has fulfilled *)
Definition startAudioPlayback_spoken (i : nat) (base64Audio : option string)
    (p : Playback) : Playback :=
  match truthy_string base64Audio with
  | Some base64Audio =>
      let p :=
        match audioContextRef p with
        | None => with_ctx (Some running) p        (* new AudioContext *)
        | Some _ => p
        end in
      match audioContextRef p with
      | Some suspended => park i (AwaitCtxResume base64Audio) (with_ctx (Some running) p)
      | _ => startAudioPlayback_decode i base64Audio p
      end
  | None => with_lock false (setIsAudioLoading false (park i Done p))
  end.

(** lines 240-254: the buffer is decoded *)
Definition startAudioPlayback_decoded (i : nat) (p : Playback) : Playback :=
  let p := park i Done p in
  if negb (isAudioLockedRef p) then p
  else
    let source := length (sources p) in
    let p := with_sources (sources p ++ [created]) p in   (* createBufferSource *)
    let p := with_source (Some source) p in
    let p := setIsAudioPaused false (setIsPlayingAudio true (setIsAudioLoading false p)) in
    with_sources (<[source := playing]> (sources p)) p.   (* source.start() *)

(** resume a suspended call with the settlement of its promise *)
Definition settle (i : nat) (o : Settlement) (p : Playback) : Playback :=
  match tasks p !! i with
  | Some (AwaitSpeak _) =>
      match o with
      | Fulfilled base64Audio => startAudioPlayback_spoken i base64Audio p
      | Rejected error => startAudioPlayback_catch error (park i Done p)
      end
  | Some (AwaitCtxResume base64Audio) =>
      match o with
      | Fulfilled _ => startAudioPlayback_decode i base64Audio p
      | Rejected error => startAudioPlayback_catch error (park i Done p)
      end
  | Some (AwaitDecode _) =>
      match o with
      | Fulfilled _ => startAudioPlayback_decoded i p
      | Rejected error => startAudioPlayback_catch error (park i Done p)
      end
  | Some AwaitSuspend =>
      match o with
      | Fulfilled _ => setIsAudioPaused true (park i Done p)
      | Rejected _ => park i Done p
      end
  | Some AwaitResume =>
      match o with
      | Fulfilled _ => setIsAudioPaused false (park i Done p)
      | Rejected _ => park i Done p
      end
  | Some Done | None => p
  end.

(** the ended event reaches the handler of a started node once *)
Definition dispatch_ended (src : nat) (p : Playback) : Playback :=
  match sources p !! src with
  | Some playing | Some stopped =>
      onended (with_sources (<[src := ended]> (sources p)) p)
  | _ => p
  end.

Definition step (p : Playback) (e : Event) : Playback :=
  match e with
  | Toggle text => handleAudioToggle text p
  | Stop => stopAudio p
  | Settle i o => settle i o p
  | Ended src => dispatch_ended src p
  end.

Definition run (es : list Event) (p : Playback) : Playback := fold_left step es p.

End App.

(** ** The playback controller of the reduced build (part_001 lines 124-179) *)

Module Scout.

(** lines 124-133 *)
Definition stopAudio (p : Playback) : Playback :=
  let p :=
    match activeAudioSourceRef p with
    | Some src =>
        let p :=
          match source_stop src (sources p) with
          | Some srcs => with_sources srcs p
          | None => p
          end in
        with_source None p
    | None => p
    end in
  with_lock false (setIsAudioLoading false (setIsAudioPaused false
    (setIsPlayingAudio false p))).

(** lines 150-154 *)
Definition startAudioPlayback (text : string) (p : Playback) : Playback :=
  spawn (AwaitSpeak text) (setIsAudioLoading true (with_lock true p)).

(** lines 135-148; [suspend] and [resume] are not awaited *)
Definition handleAudioToggle (text : option string) (p : Playback) : Playback :=
  if isAudioLockedRef p then p
  else if isPlayingAudio p then
    if isAudioPaused p then
      setIsAudioPaused false (with_ctx (const running <$> audioContextRef p) p)
    else
      setIsAudioPaused true (with_ctx (const suspended <$> audioContextRef p) p)
  else
    match truthy_string text with
    | Some text => startAudioPlayback text p
    | None => p
    end.

(** lines 175-178 *)
Definition startAudioPlayback_catch (p : Playback) : Playback :=
  with_lock false (setIsAudioLoading false p).

(** lines 165-169 *)
Definition onended (p : Playback) : Playback :=
  with_lock false (with_source None (setIsPlayingAudio false p)).

(** lines 155-161; there is no branch for an absent payload *)
Definition startAudioPlayback_spoken (i : nat) (base64Audio : option string)
    (p : Playback) : Playback :=
  match truthy_string base64Audio with
  | Some base64Audio =>
      let p :=
        match audioContextRef p with
        | None => with_ctx (Some running) p
        | Some _ => p
        end in
      match audioContextRef p with
      | Some suspended => park i (AwaitCtxResume base64Audio) (with_ctx (Some running) p)
      | _ => park i (AwaitDecode base64Audio) p
      end
  | None => park i Done p
  end.

(** lines 162-173; the lock is not looked at again *)
Definition startAudioPlayback_decoded (i : nat) (p : Playback) : Playback :=
  let p := park i Done p in
  let source := length (sources p) in
  let p := with_sources (sources p ++ [created]) p in
  let p := with_source (Some source) p in
  let p := setIsPlayingAudio true (setIsAudioLoading false p) in
  with_sources (<[source := playing]> (sources p)) p.

Definition settle (i : nat) (o : Settlement) (p : Playback) : Playback :=
  match tasks p !! i with
  | Some (AwaitSpeak _) =>
      match o with
      | Fulfilled base64Audio => startAudioPlayback_spoken i base64Audio p
      | Rejected _ => startAudioPlayback_catch (park i Done p)
      end
  | Some (AwaitCtxResume base64Audio) =>
      match o with
      | Fulfilled _ => park i (AwaitDecode base64Audio) p
      | Rejected _ => startAudioPlayback_catch (park i Done p)
      end
  | Some (AwaitDecode _) =>
      match o with
      | Fulfilled _ => startAudioPlayback_decoded i p
      | Rejected _ => startAudioPlayback_catch (park i Done p)
      end
  | _ => p
  end.

Definition dispatch_ended (src : nat) (p : Playback) : Playback :=
  match sources p !! src with
  | Some playing | Some stopped =>
      onended (with_sources (<[src := ended]> (sources p)) p)
  | _ => p
  end.

Definition step (p : Playback) (e : Event) : Playback :=
  match e with
  | Toggle text => handleAudioToggle text p
  | Stop => stopAudio p
  | Settle i o => settle i o p
  | Ended src => dispatch_ended src p
  end.

Definition run (es : list Event) (p : Playback) : Playback := fold_left step es p.

End Scout.


(** ** Small pieces of the JavaScript library *)

(** [hay.includes(needle)] *)
Definition includes (needle hay : string) : bool :=
  match String.index 0 needle hay with
  | Some _ => true
  | None => false
  end.

(** [s.split(sep)] for a separator of one character *)
Fixpoint String_split (sep : ascii) (s : string) : list string :=
  match s with
  | EmptyString => [EmptyString]
  | String c r =>
      if Ascii.eqb c sep then EmptyString :: String_split sep r
      else match String_split sep r with
           | h :: t => String c h :: t
           | [] => [String c EmptyString]
           end
  end.

Definition base64_digit (n : N) : ascii :=
  if (n <? 26)%N then ascii_of_N (65 + n)
  else if (n <? 52)%N then ascii_of_N (97 + (n - 26))
  else if (n <? 62)%N then ascii_of_N (48 + (n - 52))
  else if (n =? 62)%N then "+"%char else "/"%char.

(** standard base64 with padding, as in a [data:] URL *)
Fixpoint base64 (s : string) : string :=
  match s with
  | EmptyString => EmptyString
  | String a EmptyString =>
      let x := N_of_ascii a in
      String (base64_digit (x / 4))
        (String (base64_digit ((x mod 4) * 16)) "==")
  | String a (String b EmptyString) =>
      let x := N_of_ascii a in
      let y := N_of_ascii b in
      String (base64_digit (x / 4))
        (String (base64_digit ((x mod 4) * 16 + y / 16))
           (String (base64_digit ((y mod 16) * 4)) "="))
  | String a (String b (String c r)) =>
      let x := N_of_ascii a in
      let y := N_of_ascii b in
      let z := N_of_ascii c in
      String (base64_digit (x / 4))
        (String (base64_digit ((x mod 4) * 16 + y / 16))
           (String (base64_digit ((y mod 16) * 4 + z / 64))
              (String (base64_digit (z mod 64)) (base64 r))))
  end.

Section Values.
Context `{Platform}.

(** JavaScript truthiness *)
Definition truthy (v : JSON.value) : bool :=
  match v with
  | JSON.Undefined | JSON.Null => false
  | JSON.Bool b => b
  | JSON.Num lexeme => numberTruthy lexeme
  | JSON.Str s => negb (String.eqb s "")
  | JSON.Arr _ | JSON.Obj _ => true
  end.

(** [v || fallback] with a string fallback *)
Definition or_else (v : JSON.value) (fallback : string) : JSON.value :=
  if truthy v then v else JSON.Str fallback.

(** a value spliced into a template literal *)
Definition template (v : JSON.value) : string :=
  match v with
  | JSON.Str s => s
  | other => stringOfValue other
  end.

End Values.

(** ** Content Service client (part_000)

    Each function awaits [ai.models.generateContent]; what the model answers
    is an argument. [None] as a result is a rejected promise. *)

Record Place : Type := mkPlace {
  place_title : option string;
  place_uri : option string;
}.

Record GroundingChunk : Type := mkChunk {
  maps : option Place;
  web : option Place;
}.

(** What the program reads of a [generateContent] response:
    [candidates?.[0]?.groundingMetadata?.groundingChunks], [text], and
    [candidates?.[0]?.content?.parts?.[0]?.inlineData?.data]. *)
Record Response : Type := mkResponse {
  groundingChunks : option (list GroundingChunk);
  text : option string;
  inlineData : option string;
}.

(** [s || fallback] on [string | undefined] *)
Definition str_or (s : option string) (fallback : string) : string :=
  match truthy_string s with
  | Some s => s
  | None => fallback
  end.

(** [const { author, summary, isbn, authorBio, awards } = bookInfo]:
    a [TypeError] ([None]) when [bookInfo] is [null]. *)
Definition destructure (bookInfo : JSON.value)
    : option (JSON.value * JSON.value * JSON.value * JSON.value * JSON.value) :=
  match bookInfo with
  | JSON.Null | JSON.Undefined => None
  | _ => Some (JSON.get "author" bookInfo, JSON.get "summary" bookInfo,
               JSON.get "isbn" bookInfo, JSON.get "authorBio" bookInfo,
               JSON.get "awards" bookInfo)
  end.

Definition placeholder_prefix : string :=
  "https://images.placeholders.dev/?width=400&height=600&text=".

(** First revision, part_000 lines 1-211. *)
Module GeminiService.
Section WithPlatform.
Context `{Platform}.

(** lines 30-36; [chunk.maps.uri.includes] throws on an absent [uri] *)
Definition location_of (chunk : GroundingChunk) : option (option BookLocation.t) :=
  match maps chunk with
  | None => Some None                       (* filtered out *)
  | Some m =>
      match place_uri m with
      | None => None                        (* TypeError *)
      | Some uri =>
          Some (Some {| BookLocation.name := str_or (place_title m) "Library/Store";
                        BookLocation.address := None;
                        BookLocation.uri := uri;
                        BookLocation.type := if includes "library" uri
                                             then BookLocation.library
                                             else BookLocation.bookstore |})
      end
  end.

Definition locations_of (chunks : list GroundingChunk) : option (list BookLocation.t) :=
  omap id <$> mapM location_of chunks.

(** lines 47-52 *)
Definition softcopies_of (chunks : list GroundingChunk) : list SoftcopyLink.t :=
  omap (λ chunk, (λ w, {| SoftcopyLink.title := str_or (place_title w) "E-Book Source";
                          SoftcopyLink.uri := place_uri w |}) <$> web chunk) chunks.

(** lines 78-89 *)
Definition bookInfo_of (infoResponse : Response) : JSON.value :=
  match JSON.parse (str_or (text infoResponse) "{}") with
  | JSON.Parsed v _ => v
  | _ => JSON.Obj [("author", JSON.Str "Unknown Author");
                   ("summary", JSON.Str "No summary found.");
                   ("isbn", JSON.Str "");
                   ("authorBio", JSON.Str "No biography available.");
                   ("awards", JSON.Arr [])]
  end.

(** lines 6-108; the three responses in the order they are awaited *)
Definition searchBookDetails (query : string)
    (mapsResponse searchResponse infoResponse : option Response) : option BookResult.t :=
  mapsResponse ← mapsResponse;
  locations ← locations_of (default [] (groundingChunks mapsResponse));
  searchResponse ← searchResponse;
  let softcopies := softcopies_of (default [] (groundingChunks searchResponse)) in
  infoResponse ← infoResponse;
  '(author, summary, isbn, authorBio, awards) ← destructure (bookInfo_of infoResponse);
  coverImageUrl ←
    (if truthy isbn
     then Some ("https://covers.openlibrary.org/b/isbn/" ++ template isbn ++ "-L.jpg")%string
     else (λ q, (placeholder_prefix ++ q ++ "&bgColor=%23f3f4f6&textColor=%239ca3af")%string)
            <$> encodeURIComponent query);
  Some {| BookResult.title := query;
          BookResult.author := author;
          BookResult.summary := summary;
          BookResult.authorBio := authorBio;
          BookResult.awards := awards;
          BookResult.locations := locations;
          BookResult.softcopies := softcopies;
          BookResult.coverImageUrl := coverImageUrl |}.

(** lines 168-180: [response.text?.trim() || ""] *)
Definition transcribeAudio (response : option Response) : option string :=
  response ← response;
  Some (default "" (trim <$> text response)).

(** lines 196-211 *)
Definition speakText (response : option Response) : option (option string) :=
  response ← response;
  Some (inlineData response).

End WithPlatform.
End GeminiService.

(** Second revision, part_000 lines 213-423. *)
Module GeminiService2.
Section WithPlatform.
Context `{Platform}.

(** lines 242-248 *)
Definition locations_of (chunks : list GroundingChunk) : list BookLocation.t :=
  omap (λ chunk, (λ m,
    {| BookLocation.name := str_or (place_title m) "Library/Store";
       BookLocation.address := None;
       BookLocation.uri := str_or (place_uri m) "";
       BookLocation.type := if includes "library" (toLowerCase (str_or (place_uri m) ""))
                            then BookLocation.library
                            else BookLocation.bookstore |}) <$> maps chunk) chunks.

(** lines 259-264 *)
Definition softcopies_of (chunks : list GroundingChunk) : list SoftcopyLink.t :=
  omap (λ chunk, (λ w, {| SoftcopyLink.title := str_or (place_title w) "Digital Archive";
                          SoftcopyLink.uri := Some (str_or (place_uri w) "") |}) <$> web chunk)
       chunks.

(** lines 290-302 *)
Definition bookInfo_of (infoResponse : Response) : JSON.value :=
  match JSON.parse (str_or (text infoResponse) "{}") with
  | JSON.Parsed v _ => v
  | _ => JSON.Obj [("author", JSON.Str "Various Contributors");
                   ("summary", JSON.Str "Search details unavailable.");
                   ("isbn", JSON.Str "");
                   ("authorBio", JSON.Str "Information pending.");
                   ("awards", JSON.Arr [])]
  end.

(** line 306: [isbn && !isbn.includes('-')]; [None] is the [TypeError] of a
    truthy value without an [includes] method *)
Definition usable_isbn (isbn : JSON.value) : option bool :=
  if truthy isbn then
    match isbn with
    | JSON.Str s => Some (negb (includes "-" s))
    | JSON.Arr items =>
        Some (negb (existsb (λ v, match v with
                                  | JSON.Str s => String.eqb s "-"
                                  | _ => false
                                  end) items))
    | _ => None
    end
  else Some false.

(** lines 218-320 *)
Definition searchBookDetails (query : string)
    (mapsResponse searchResponse infoResponse : option Response) : option BookResult.t :=
  mapsResponse ← mapsResponse;
  let locations := locations_of (default [] (groundingChunks mapsResponse)) in
  searchResponse ← searchResponse;
  let softcopies := softcopies_of (default [] (groundingChunks searchResponse)) in
  infoResponse ← infoResponse;
  '(author, summary, isbn, authorBio, awards) ← destructure (bookInfo_of infoResponse);
  usable ← usable_isbn isbn;
  coverImageUrl ←
    (if usable : bool
     then Some ("https://covers.openlibrary.org/b/isbn/" ++ template isbn ++ "-L.jpg")%string
     else (λ q, (placeholder_prefix ++ q ++ "&bgColor=%231e293b&textColor=%23fbbf24")%string)
            <$> encodeURIComponent query);
  Some {| BookResult.title := query;
          BookResult.author := or_else author "Unknown";
          BookResult.summary := or_else summary "No summary available.";
          BookResult.authorBio := authorBio;
          BookResult.awards := awards;
          BookResult.locations := locations;
          BookResult.softcopies := softcopies;
          BookResult.coverImageUrl := coverImageUrl |}.

(** lines 380-392 *)
Definition transcribeAudio (response : option Response) : option string :=
  response ← response;
  Some (default "" (trim <$> text response)).

End WithPlatform.
End GeminiService2.


(** ** Local persistence: the [useState] initialisers of App.tsx *)

Module Storage.

(** a value, or the exception that escapes the initialiser *)
Inductive loaded (A : Type) : Type :=
  | Value (a : A)
  | Throws.
Arguments Value {A} a.
Arguments Throws {A}.

(** [localStorage.getItem(key)]; [None] is [null] *)
Definition getItem (key : string) (localStorage : gmap string string) : option string :=
  localStorage !! key.

(** lines 122-135: [saved ? JSON.parse(saved) : []], the same for the three
    collections. The parsed value is used as it is. *)
Definition load_collection (key : string) (localStorage : gmap string string)
    : loaded JSON.value :=
  match truthy_string (getItem key localStorage) with
  | Some saved =>
      match JSON.parse saved with
      | JSON.Parsed v _ => Value v
      | _ => Throws
      end
  | None => Value (JSON.Arr [])
  end.

Definition load_favorites := load_collection "lumina-favorites".
Definition load_journals := load_collection "lumina-journals".
Definition load_history := load_collection "lumina-history".

(** line 142: [localStorage.getItem('lumina-lang') || 'English'] *)
Definition load_language (localStorage : gmap string string) : string :=
  str_or (getItem "lumina-lang" localStorage) "English".

(** lines 143-147; [prefersDark] is
    [window.matchMedia('(prefers-color-scheme: dark)').matches] *)
Definition load_isDarkMode (prefersDark : bool) (localStorage : gmap string string) : bool :=
  match truthy_string (getItem "lumina-theme" localStorage) with
  | Some saved => bool_decide (saved = "dark")
  | None => prefersDark
  end.

End Storage.

(** ** The application state of App.tsx *)

Record Blob : Type := mkBlob {
  blob_data : string;
  blob_type : string;
}.

Definition blob_size (b : Blob) : nat := String.length (blob_data b).

(** [new Blob(parts, { type })] *)
Definition new_Blob (parts : list Blob) (type : string) : Blob :=
  {| blob_data := foldr (λ b acc, (blob_data b ++ acc)%string) EmptyString parts;
     blob_type := type |}.

Record View : Type := mkView {
  mode : AppMode;
  searchQuery : string;
  isSearching : bool;
  searchResult : option BookResult.t;
  detailedSummary : option string;
  isSummaryExpanded : bool;
  isAccessExpanded : bool;
}.

Record Capture : Type := mkCapture {
  isRecording : bool;
  isTranscribing : bool;
  mediaRecorderRef : option bool;   (* a recorder, and whether it is recording *)
  audioChunksRef : list Blob;
}.

(** A suspended call of the application, by what it waits for. *)
Inductive Call : Type :=
  | ReadingBlob (audioBlob : Blob)              (* reader.readAsDataURL(audioBlob) *)
  | AwaitTranscribe (base64 : option string)    (* await transcribeAudio(base64) *)
  | AwaitSearch (queryToUse : string)           (* await searchBookDetails(queryToUse, ..) *)
  | Finished.

Record AppState : Type := mkApp {
  view : View;
  capture : Capture;
  library : Library;
  activeJournalId : string;
  movingBookTitle : option string;
  audio : Playback;
  calls : list Call;
  effects : list Effect;
}.

Definition with_view (v : View) (s : AppState) : AppState :=
  mkApp v (capture s) (library s) (activeJournalId s) (movingBookTitle s) (audio s)
    (calls s) (effects s).
Definition with_capture (c : Capture) (s : AppState) : AppState :=
  mkApp (view s) c (library s) (activeJournalId s) (movingBookTitle s) (audio s)
    (calls s) (effects s).
Definition with_library (l : Library) (s : AppState) : AppState :=
  mkApp (view s) (capture s) l (activeJournalId s) (movingBookTitle s) (audio s)
    (calls s) (effects s).
Definition setActiveJournalId (a : string) (s : AppState) : AppState :=
  mkApp (view s) (capture s) (library s) a (movingBookTitle s) (audio s)
    (calls s) (effects s).
Definition setMovingBookTitle (m : option string) (s : AppState) : AppState :=
  mkApp (view s) (capture s) (library s) (activeJournalId s) m (audio s)
    (calls s) (effects s).
Definition with_audio (p : Playback) (s : AppState) : AppState :=
  mkApp (view s) (capture s) (library s) (activeJournalId s) (movingBookTitle s) p
    (calls s) (effects s).
Definition with_calls (c : list Call) (s : AppState) : AppState :=
  mkApp (view s) (capture s) (library s) (activeJournalId s) (movingBookTitle s) (audio s)
    c (effects s).
Definition emit (e : list Effect) (s : AppState) : AppState :=
  mkApp (view s) (capture s) (library s) (activeJournalId s) (movingBookTitle s) (audio s)
    (calls s) (effects s ++ e).

Definition setSearchQuery (q : string) (s : AppState) : AppState :=
  let v := view s in
  with_view (mkView (mode v) q (isSearching v) (searchResult v) (detailedSummary v)
               (isSummaryExpanded v) (isAccessExpanded v)) s.
Definition setIsSearching (b : bool) (s : AppState) : AppState :=
  let v := view s in
  with_view (mkView (mode v) (searchQuery v) b (searchResult v) (detailedSummary v)
               (isSummaryExpanded v) (isAccessExpanded v)) s.
Definition setSearchResult (r : option BookResult.t) (s : AppState) : AppState :=
  let v := view s in
  with_view (mkView (mode v) (searchQuery v) (isSearching v) r (detailedSummary v)
               (isSummaryExpanded v) (isAccessExpanded v)) s.
Definition setIsTranscribing (b : bool) (s : AppState) : AppState :=
  let c := capture s in
  with_capture (mkCapture (isRecording c) b (mediaRecorderRef c) (audioChunksRef c)) s.

Definition issue (c : Call) (s : AppState) : AppState := with_calls (calls s ++ [c]) s.
Definition finish (i : nat) (s : AppState) : AppState :=
  with_calls (<[i := Finished]> (calls s)) s.

(** the queries for which [searchBookDetails] is still awaited *)
Definition pending_searches (s : AppState) : list string :=
  omap (λ c, match c with AwaitSearch q => Some q | _ => None end) (calls s).

Section Application.
Context `{Platform}.

(** [FileReader.readAsDataURL] *)
Definition readAsDataURL (b : Blob) : string :=
  if bareEmptyDataURL && (blob_size b =? 0)%nat then "data:"
  else ("data:" ++ blob_type b ++ ";base64," ++ base64 (blob_data b))%string.

(** App.tsx lines 266-277: [handleSearch] up to its [await]. *)
Definition handleSearch (overrideQuery : option string) (s : AppState) : AppState :=
  let queryToUse := str_or overrideQuery (searchQuery (view s)) in
  if String.eqb (trim queryToUse) "" then s
  else
    let v := {| mode := SEARCH; searchQuery := searchQuery (view s);
                isSearching := true; searchResult := None; detailedSummary := None;
                isSummaryExpanded := false; isAccessExpanded := false |} in
    issue (AwaitSearch queryToUse)
      (with_view v (with_audio (App.stopAudio (audio s)) s)).

(** lines 279-294: [searchBookDetails] has settled; [finally] clears the
    spinner on both paths. *)
Definition handleSearch_settled (i : nat) (queryToUse : string)
    (result : option BookResult.t) (now_id now_ts : N) (s : AppState) : AppState :=
  let s := finish i s in
  let s :=
    match result with
    | Some result =>
        let entry := historyEntry now_id now_ts queryToUse result in
        with_library (setHistory (pushHistory entry) (library s))
          (setSearchResult (Some result) s)
    | None =>
        emit [ConsoleError "searchBookDetails"; Alert "Failed to find book details."] s
    end in
  setIsSearching false s.

(** lines 324-329; [confirmed] is the answer to the [confirm] dialog *)
Definition deleteJournal (confirmed : bool) (id : string) (s : AppState) : AppState :=
  if confirmed then
    let s := with_library (removeJournal id (library s)) s in
    if String.eqb (activeJournalId s) id then setActiveJournalId "all" s else s
  else s.

(** lines 331-338 *)
Definition assignBookToJournal (bookTitle : string) (journalId : option string)
    (s : AppState) : AppState :=
  setMovingBookTitle None
    (with_library (assignBookToJournal_journals bookTitle journalId (library s)) s).

(** lines 364-369 and 390-392: [startRecording]; [granted] tells whether
    [getUserMedia] resolved. *)
Definition startRecording (granted : bool) (s : AppState) : AppState :=
  if granted then
    with_capture {| isRecording := true;
                    isTranscribing := isTranscribing (capture s);
                    mediaRecorderRef := Some true;
                    audioChunksRef := [] |} s
  else emit [Alert "Mic permission error."] s.

(** lines 370-372: [ondataavailable] *)
Definition ondataavailable (data : Blob) (s : AppState) : AppState :=
  let c := capture s in
  if (0 <? blob_size data)%nat then
    with_capture (mkCapture (isRecording c) (isTranscribing c) (mediaRecorderRef c)
                    (audioChunksRef c ++ [data])) s
  else s.

(** lines 373-375 and 387-388: [onstop] *)
Definition onstop (s : AppState) : AppState :=
  let c := capture s in
  let audioBlob := new_Blob (audioChunksRef c) "audio/webm" in
  issue (ReadingBlob audioBlob)
    (with_capture (mkCapture (isRecording c) (isTranscribing c)
                     (const false <$> mediaRecorderRef c) (audioChunksRef c)) s).

(** lines 376-380: [reader.onloadend] up to its [await] *)
Definition onloadend (i : nat) (s : AppState) : AppState :=
  match calls s !! i with
  | Some (ReadingBlob audioBlob) =>
      let base64 := String_split "," (readAsDataURL audioBlob) !! 1%nat in
      setIsTranscribing true
        (with_calls (<[i := AwaitTranscribe base64]> (calls s)) s)
  | _ => s
  end.

(** lines 380-385: [transcribeAudio] has settled; [response] is what the model
    answered, [None] a failed call *)
Definition transcribed (i : nat) (response : option Response) (s : AppState) : AppState :=
  match calls s !! i with
  | Some (AwaitTranscribe _) =>
      let s := finish i s in
      let s :=
        match GeminiService.transcribeAudio response with
        | Some transcription =>
            if String.eqb transcription "" then s
            else handleSearch (Some transcription) (setSearchQuery transcription s)
        | None => emit [ConsoleError "transcribeAudio"] s
        end in
      setIsTranscribing false s
  | _ => s
  end.

(** the search of call [i] settles with the three answers of the model *)
Definition searched (i : nat) (mapsResponse searchResponse infoResponse : option Response)
    (now_id now_ts : N) (s : AppState) : AppState :=
  match calls s !! i with
  | Some (AwaitSearch queryToUse) =>
      handleSearch_settled i queryToUse
        (GeminiService.searchBookDetails queryToUse mapsResponse searchResponse infoResponse)
        now_id now_ts s
  | _ => s
  end.

End Application.


(** ** An implementation of the platform for ASCII text

    Used to run the model on examples; bytes above 127 pass through
    unchanged (and are percent-encoded byte by byte). *)

Definition ascii_lower (c : ascii) : ascii :=
  let n := N_of_ascii c in
  if (65 <=? n)%N && (n <=? 90)%N then ascii_of_N (n + 32) else c.

Fixpoint map_string (f : ascii → ascii) (s : string) : string :=
  match s with
  | EmptyString => EmptyString
  | String c r => String (f c) (map_string f r)
  end.

Fixpoint rev_string (acc s : string) : string :=
  match s with
  | EmptyString => acc
  | String c r => rev_string (String c acc) r
  end.

Definition ascii_trim (s : string) : string :=
  rev_string EmptyString (JSON.skip_ws (rev_string EmptyString (JSON.skip_ws s))).

Definition hex_upper (n : N) : ascii :=
  if (n <? 10)%N then ascii_of_N (48 + n) else ascii_of_N (55 + n).

Definition uri_unreserved (c : ascii) : bool :=
  let n := N_of_ascii c in
  ((65 <=? n)%N && (n <=? 90)%N) || ((97 <=? n)%N && (n <=? 122)%N)
  || ((48 <=? n)%N && (n <=? 57)%N)
  || existsb (N.eqb n) [45; 95; 46; 33; 126; 42; 39; 40; 41]%N.

Fixpoint percent_encode (s : string) : string :=
  match s with
  | EmptyString => EmptyString
  | String c r =>
      if uri_unreserved c then String c (percent_encode r)
      else
        let n := N_of_ascii c in
        String "%" (String (hex_upper (n / 16)) (String (hex_upper (n mod 16))
          (percent_encode r)))
  end.

Fixpoint mantissa_nonzero (lexeme : string) : bool :=
  match lexeme with
  | EmptyString => false
  | String c r =>
      if Ascii.eqb c "e" || Ascii.eqb c "E" then false
      else if JSON.is_digit c && negb (Ascii.eqb c "0") then true
      else mantissa_nonzero r
  end.

Definition asciiPlatform : Platform :=
  {| toLowerCase := map_string ascii_lower;
     trim := ascii_trim;
     encodeURIComponent := λ s, Some (percent_encode s);
     numberTruthy := mantissa_nonzero;
     stringOfValue := λ v,
       match v with
       | JSON.Undefined => "undefined"
       | JSON.Null => "null"
       | JSON.Bool true => "true"
       | JSON.Bool false => "false"
       | JSON.Num lexeme => lexeme
       | JSON.Str s => s
       | JSON.Arr _ => ""
       | JSON.Obj _ => "[object Object]"
       end;
     bareEmptyDataURL := false |}.

(** ** Runs used in the statements *)

(** the history after a run of successful searches, oldest first *)
Definition insertAll (entries : list HistoryEntry.t) (prev : list HistoryEntry.t)
    : list HistoryEntry.t :=
  foldl (λ h entry, pushHistory entry h) prev entries.

(** [toggle(a)], [stop()], [toggle(b)], then both speech requests are
    answered with audio and both decodes succeed *)
Definition stop_then_toggle : list Event :=
  [ Toggle (Some "a"); Stop; Toggle (Some "b");
    Settle 0 (Fulfilled (Some "UklGRg==")); Settle 0 (Fulfilled None);
    Settle 1 (Fulfilled (Some "UklGRg==")); Settle 1 (Fulfilled None) ].

(** a start task: a suspended [startAudioPlayback] *)
Definition is_start (t : Task) : bool :=
  match t with
  | AwaitSpeak _ | AwaitCtxResume _ | AwaitDecode _ => true
  | _ => false
  end.

(** suspended [startAudioPlayback] calls: requests in flight *)
Definition in_flight (p : Playback) : nat := count is_start (tasks p).

(** source nodes that were started and have not yet reported their end *)
Definition live_sources (p : Playback) : nat := count is_live (sources p).

(** The states the controller of App.tsx reaches from its initial state when
    [stopAudio] is never called. *)
Inductive reached_without_stop : Playback → Prop :=
  | reached_initial : reached_without_stop initialPlayback
  | reached_step p e :
      reached_without_stop p → e ≠ Stop → reached_without_stop (App.step p e).

(** what the lock stands for when [stopAudio] is not used: it is held exactly
    while one request is in flight or one started node has not ended *)
Definition lock_invariant (p : Playback) : Prop :=
  in_flight p + live_sources p = (if isAudioLockedRef p then 1 else 0)%nat.

(** what [stopAudio] does to the registered source nodes, in both builds *)
Definition halt_active (p : Playback) : list SourceState :=
  match activeAudioSourceRef p with
  | Some src => default (sources p) (source_stop src (sources p))
  | None => sources p
  end.

(** the state in which [decodeAudioData] is awaited, after [speakText]
    answered with audio to a request started in [p] *)
Definition awaiting_decode (i : nat) (audio : string) (p p1 : Playback) : Playback :=
  let p2 := App.settle i (Fulfilled (Some audio)) p1 in
  if decide (audioContextRef p = Some suspended)
  then App.settle i (Fulfilled None) p2     (* ctx.resume() has resolved *)
  else p2.

(** the query a suspended call searches for *)
Definition search_of (c : Call) : option string :=
  match c with AwaitSearch q => Some q | _ => None end.

(** the metadata answer used in the examples: a JSON object with a title of
    its own *)
Definition quoted (s : string) : string :=
  (String (ascii_of_nat 34) s ++ String (ascii_of_nat 34) EmptyString)%string.

Definition sampleInfoText : string :=
  ("{ " ++ quoted "title" ++ ": " ++ quoted "Dune Messiah" ++ ", "
        ++ quoted "author" ++ ": " ++ quoted "Frank Herbert" ++ " }")%string.

(** an outcome that is not [OutOfFuel] and, when a value, leaves a shorter
    rest *)
Definition progresses {A} (o : JSON.outcome A) (s : string) : Prop :=
  match o with
  | JSON.Parsed _ r => (String.length r < String.length s)%nat
  | JSON.SyntaxError => True
  | JSON.OutOfFuel => False
  end.

(** ** Sample data *)

Definition sampleBook (title : string) : BookResult.t :=
  {| BookResult.title := title;
     BookResult.author := JSON.Str "Frank Herbert";
     BookResult.summary := JSON.Str "A desert planet.";
     BookResult.authorBio := JSON.Undefined;
     BookResult.awards := JSON.Arr [JSON.Str "Hugo"];
     BookResult.locations := [];
     BookResult.softcopies := [];
     BookResult.coverImageUrl := "https://covers.openlibrary.org/b/isbn/9780441013593-L.jpg" |}.

(** the entry of the [k]-th search of a session *)
Definition sampleEntry (k : nat) : HistoryEntry.t :=
  historyEntry (1700000000000 + N.of_nat k) (1700000000000 + N.of_nat k)
    "Dune" (sampleBook "Dune").

Definition sampleJournals : list Journal.t :=
  [ {| Journal.id := "1700000000001"; Journal.name := "Space";
       Journal.bookTitles := ["Dune"; "Foundation"]; Journal.createdAt := 1700000000001 |};
    {| Journal.id := "1700000000002"; Journal.name := "Classics";
       Journal.bookTitles := ["Moby Dick"]; Journal.createdAt := 1700000000002 |} ].

Definition sampleLibrary : Library :=
  {| favorites := [sampleBook "Dune"; sampleBook "Moby Dick"];
     journals := sampleJournals;
     history := [] |}.

Definition initialApp : AppState :=
  {| view := {| mode := HOME; searchQuery := ""; isSearching := false;
                searchResult := None; detailedSummary := None;
                isSummaryExpanded := false; isAccessExpanded := false |};
     capture := {| isRecording := false; isTranscribing := false;
                   mediaRecorderRef := None; audioChunksRef := [] |};
     library := sampleLibrary;
     activeJournalId := "all";
     movingBookTitle := None;
     audio := initialPlayback;
     calls := [];
     effects := [] |}.

(** ** Further handlers of App.tsx *)

(** What holds of the controller of App.tsx in every state reached without
    [stopAudio]: the lock counts the one request or node it protects, the
    flags tell what is going on, the context is never suspended, and a node
    that plays is the referenced one. *)
Definition is_pause (t : Task) : bool :=
  match t with
  | AwaitSuspend | AwaitResume => true
  | _ => false
  end.

Record stop_free_invariant (p : Playback) : Prop := {
  inv_lock : lock_invariant p;
  inv_loading : isAudioLoading p = true ↔ in_flight p = 1%nat;
  inv_playing : isPlayingAudio p = true ↔ live_sources p = 1%nat;
  inv_paused : isAudioPaused p = false;
  inv_ctx : audioContextRef p ≠ Some suspended;
  inv_tasks : count is_pause (tasks p) = 0%nat;
  inv_sources : ∀ k st, sources p !! k = Some st →
                  st = ended ∨ (st = playing ∧ activeAudioSourceRef p = Some k);
}.

(** The favorites tab, App.tsx lines 340-347: the favorites shown for the
    selected folder; [journal?.bookTitles.includes(..)] is [undefined], hence
    false, when no journal has the selected id. *)
Definition shown_in (activeJournalId : string) (journals : list Journal.t)
    (book : BookResult.t) : bool :=
  if String.eqb activeJournalId "all" then true
  else if String.eqb activeJournalId "uncategorized" then
    negb (bool_decide (Exists (λ j, BookResult.title book ∈ Journal.bookTitles j) journals))
  else
    match list_find (λ j, Journal.id j = activeJournalId) journals with
    | Some (_, journal) => bool_decide (BookResult.title book ∈ Journal.bookTitles journal)
    | None => false
    end.

Definition filteredFavorites (activeJournalId : string) (l : Library) : list BookResult.t :=
  List.filter (shown_in activeJournalId (journals l)) (favorites l).

(** The dialog of [createJournal]: [newJournalName] and [isCreatingJournal]. *)
Record JournalDialog : Type := mkDialog {
  newJournalName : string;
  isCreatingJournal : bool;
}.

Section MoreHandlers.
Context `{Platform}.

(** [createJournal], App.tsx lines 311-322 *)
Definition createJournal (now_id now_created : N) (d : JournalDialog) (l : Library)
    : JournalDialog * Library :=
  if String.eqb (trim (newJournalName d)) "" then (d, l)
  else ({| newJournalName := ""; isCreatingJournal := false |},
        appendJournal now_id now_created (newJournalName d) l).

End MoreHandlers.

(** What can happen to the search history: a successful search, the delete
    button of an entry, the confirmed or declined "clear" button. *)
Inductive HistoryOp : Type :=
  | Push (entry : HistoryEntry.t)
  | Delete (id : string)
  | Clear (confirmed : bool).

Definition applyHistoryOp (l : Library) (op : HistoryOp) : Library :=
  match op with
  | Push entry => setHistory (pushHistory entry) l
  | Delete id => deleteHistoryEntry id l
  | Clear confirmed => clearHistory confirmed l
  end.

Definition pushed (ops : list HistoryOp) : list HistoryEntry.t :=
  omap (λ op, match op with Push e => Some e | _ => None end) ops.

(** ** Further functions of the client

    [getDetailedSummary], [chatWithLibrarian] and [getBookRecommendations]
    (part_000 lines 110-166 and 322-378) differ between the two revisions
    only in the wording of their prompts. *)
Module ContentService.

(** [response.text || "Detailed summary unavailable."] *)
Definition getDetailedSummary (response : option Response) : option string :=
  response ← response;
  Some (str_or (text response) "Detailed summary unavailable.").

(** [response.text], which may be [undefined] *)
Definition chatWithLibrarian (response : option Response) : option (option string) :=
  response ← response;
  Some (text response).

(** [try { return JSON.parse(response.text || "[]") } catch { return [] }] *)
Definition getBookRecommendations (response : option Response) : option JSON.value :=
  response ← response;
  Some (match JSON.parse (str_or (text response) "[]") with
        | JSON.Parsed v _ => v
        | _ => JSON.Arr []
        end).

End ContentService.

(** ** The detail panel and the microphone button of App.tsx

    The state of the application with what the detail panel and the
    microphone button add: [isExpanding], the calls of [getDetailedSummary]
    that are awaited (by the title they were made for, [None] once settled)
    and the number of [getUserMedia] requests not yet answered. *)
Record Session : Type := mkSession {
  app : AppState;
  isExpanding : bool;
  summaryCalls : list (option string);
  micRequests : nat;
}.

Definition with_app (a : AppState) (x : Session) : Session :=
  mkSession a (isExpanding x) (summaryCalls x) (micRequests x).

Definition setMode (m : AppMode) (s : AppState) : AppState :=
  let v := view s in
  with_view (mkView m (searchQuery v) (isSearching v) (searchResult v) (detailedSummary v)
               (isSummaryExpanded v) (isAccessExpanded v)) s.
Definition setDetailedSummary (d : option string) (s : AppState) : AppState :=
  let v := view s in
  with_view (mkView (mode v) (searchQuery v) (isSearching v) (searchResult v) d
               (isSummaryExpanded v) (isAccessExpanded v)) s.
Definition setIsSummaryExpanded (b : bool) (s : AppState) : AppState :=
  let v := view s in
  with_view (mkView (mode v) (searchQuery v) (isSearching v) (searchResult v)
               (detailedSummary v) b (isAccessExpanded v)) s.

(** App.tsx lines 564, 723, 730, 758 and 768: a recent search, a favorite or
    a history entry is opened with [setSearchResult(..); setMode(SEARCH)]. *)
Definition openResult (result : BookResult.t) (s : AppState) : AppState :=
  setMode SEARCH (setSearchResult (Some result) s).

(** [toggleSummaryExpansion], App.tsx lines 349-356, up to its [await] *)
Definition toggleSummaryExpansion (x : Session) : Session :=
  let v := view (app x) in
  if isSummaryExpanded v then with_app (setIsSummaryExpanded false (app x)) x
  else
    match truthy_string (detailedSummary v), searchResult v with
    | None, Some result =>
        {| app := app x;
           isExpanding := true;
           summaryCalls := summaryCalls x ++ [Some (BookResult.title result)];
           micRequests := micRequests x |}
    | _, _ => with_app (setIsSummaryExpanded true (app x)) x
    end.

(** lines 357-361: [getDetailedSummary] has settled; the panel is expanded
    on both paths *)
Definition toggleSummaryExpansion_settled (i : nat) (response : option Response)
    (x : Session) : Session :=
  match summaryCalls x !! i with
  | Some (Some _) =>
      let a :=
        match ContentService.getDetailedSummary response with
        | Some fullSummary => setDetailedSummary (Some fullSummary) (app x)
        | None => emit [ConsoleError "getDetailedSummary"] (app x)
        end in
      {| app := setIsSummaryExpanded true a;
         isExpanding := false;
         summaryCalls := <[i := None]> (summaryCalls x);
         micRequests := micRequests x |}
  | _ => x
  end.

(** The microphone button, App.tsx lines 501 and 876:
    [isRecording ? () => mediaRecorderRef.current?.stop() : startRecording].
    [stop()] makes an active recorder inactive (its [dataavailable] and
    [stop] events follow) and changes nothing of an inactive one;
    [startRecording] first awaits [getUserMedia]. *)
Definition micButton (x : Session) : Session :=
  let c := capture (app x) in
  if isRecording c then
    match mediaRecorderRef c with
    | Some true =>
        with_app (with_capture (mkCapture (isRecording c) (isTranscribing c) (Some false)
                                  (audioChunksRef c)) (app x)) x
    | _ => x
    end
  else mkSession (app x) (isExpanding x) (summaryCalls x) (S (micRequests x)).

(** [getUserMedia] has settled for the oldest waiting [startRecording] *)
Definition getUserMedia_settled (granted : bool) (x : Session) : Session :=
  match micRequests x with
  | O => x
  | S n => mkSession (startRecording granted (app x)) (isExpanding x) (summaryCalls x) n
  end.

Inductive SessionEvent : Type :=
  | MicButton
  | MicSettled (granted : bool)
  | DataAvailable (data : Blob)
  | RecorderStopped
  | LoadEnd (i : nat)
  | Transcribed (i : nat) (response : option Response)
  | TypeQuery (q : string)
  | Search (overrideQuery : option string)
  | Searched (i : nat) (mapsResponse searchResponse infoResponse : option Response)
      (now_id now_ts : N)
  | OpenResult (result : BookResult.t)
  | ToggleSummary
  | SummarySettled (i : nat) (response : option Response)
  | ToggleFavorite (book : BookResult.t)
  | AssignBook (bookTitle : string) (journalId : option string)
  | DeleteJournal (confirmed : bool) (id : string)
  | SelectJournal (id : string).

Section Sessions.
Context `{Platform}.

Definition session_step (x : Session) (e : SessionEvent) : Session :=
  match e with
  | MicButton => micButton x
  | MicSettled granted => getUserMedia_settled granted x
  | DataAvailable data => with_app (ondataavailable data (app x)) x
  | RecorderStopped =>
      match mediaRecorderRef (capture (app x)) with
      | Some _ => with_app (onstop (app x)) x
      | None => x
      end
  | LoadEnd i => with_app (onloadend i (app x)) x
  | Transcribed i response => with_app (transcribed i response (app x)) x
  | TypeQuery q => with_app (setSearchQuery q (app x)) x
  | Search overrideQuery => with_app (handleSearch overrideQuery (app x)) x
  | Searched i mapsResponse searchResponse infoResponse now_id now_ts =>
      with_app (searched i mapsResponse searchResponse infoResponse now_id now_ts (app x)) x
  | OpenResult result => with_app (openResult result (app x)) x
  | ToggleSummary => toggleSummaryExpansion x
  | SummarySettled i response => toggleSummaryExpansion_settled i response x
  | ToggleFavorite book =>
      with_app (with_library (toggleFavorite book (library (app x))) (app x)) x
  | AssignBook bookTitle journalId =>
      with_app (assignBookToJournal bookTitle journalId (app x)) x
  | DeleteJournal confirmed id => with_app (deleteJournal confirmed id (app x)) x
  | SelectJournal id => with_app (setActiveJournalId id (app x)) x
  end.

Definition session_run (es : list SessionEvent) (x : Session) : Session :=
  fold_left session_step es x.

End Sessions.

Definition initialSession : Session :=
  {| app := initialApp; isExpanding := false; summaryCalls := []; micRequests := 0 |}.

(** ** The librarian chat of App.tsx *)

Module ChatMessage.
Inductive role_t : Type := user | model.
Record t : Type := mk {
  role : role_t;
  content : string;
  isThinking : option bool;
}.
End ChatMessage.

(** A suspended call of the chat tab, by what it waits for. *)
Inductive ChatCall : Type :=
  | AwaitChat (message : string) (useThinking : bool)   (* await chatWithLibrarian(..) *)
  | AwaitRecs (context : list string)                   (* await getBookRecommendations(..) *)
  | Settled.

Record Chat : Type := mkChat {
  chatMessages : list ChatMessage.t;
  chatInput : string;
  isThinking : bool;
  useThinkingMode : bool;
  librarianRecs : JSON.value;
  isFetchingRecs : bool;
  chatCalls : list ChatCall;
  chatEffects : list Effect;
}.

Definition initialChat : Chat :=
  {| chatMessages := []; chatInput := ""; isThinking := false; useThinkingMode := false;
     librarianRecs := JSON.Arr []; isFetchingRecs := false; chatCalls := [];
     chatEffects := [] |}.

(** [arr.slice(-n)] *)
Definition slice_last {A} (n : nat) (arr : list A) : list A :=
  drop (length arr - n) arr.

Definition is_user (m : ChatMessage.t) : bool :=
  match ChatMessage.role m with ChatMessage.user => true | ChatMessage.model => false end.

Definition recs_context (c : ChatCall) : option (list string) :=
  match c with AwaitRecs context => Some context | _ => None end.

Inductive ChatEvent : Type :=
  | TypeMessage (text : string)
  | SetThinkingMode (checked : bool)
  | SubmitChat
  | ChatAnswered (i : nat) (response : option Response)
  | FetchRecs
  | RecsAnswered (i : nat) (response : option Response)
  | DismissRecs.

Section Chats.
Context `{Platform}.

(** [handleChat], App.tsx lines 395-402, up to its [await] *)
Definition handleChat (c : Chat) : Chat :=
  if String.eqb (trim (chatInput c)) "" then c
  else
    {| chatMessages := chatMessages c
                       ++ [ChatMessage.mk ChatMessage.user (chatInput c) None];
       chatInput := "";
       isThinking := true;
       useThinkingMode := useThinkingMode c;
       librarianRecs := librarianRecs c;
       isFetchingRecs := isFetchingRecs c;
       chatCalls := chatCalls c ++ [AwaitChat (chatInput c) (useThinkingMode c)];
       chatEffects := chatEffects c |}.

(** lines 403-405: [chatWithLibrarian] has settled; [useThinkingMode] is the
    value the handler was called with *)
Definition handleChat_settled (i : nat) (response : option Response) (c : Chat) : Chat :=
  match chatCalls c !! i with
  | Some (AwaitChat _ useThinking) =>
      let answered := ContentService.chatWithLibrarian response in
      {| chatMessages :=
           match answered with
           | Some response =>
               chatMessages c
               ++ [ChatMessage.mk ChatMessage.model (str_or response "") (Some useThinking)]
           | None => chatMessages c
           end;
         chatInput := chatInput c;
         isThinking := false;
         useThinkingMode := useThinkingMode c;
         librarianRecs := librarianRecs c;
         isFetchingRecs := isFetchingRecs c;
         chatCalls := <[i := Settled]> (chatCalls c);
         chatEffects :=
           match answered with
           | Some _ => chatEffects c
           | None => chatEffects c ++ [ConsoleError "chatWithLibrarian"]
           end |}
  | _ => c
  end.

(** [fetchLibrarianRecs], lines 408-418, up to its [await] *)
Definition fetchLibrarianRecs (c : Chat) : Chat :=
  if (length (chatMessages c) =? 0)%nat then
    mkChat (chatMessages c) (chatInput c) (isThinking c) (useThinkingMode c)
      (librarianRecs c) (isFetchingRecs c) (chatCalls c)
      (chatEffects c ++ [Alert "Chat with me first so I can understand your taste!"])
  else
    let context :=
      slice_last 5 (ChatMessage.content <$> List.filter is_user (chatMessages c)) in
    mkChat (chatMessages c) (chatInput c) (isThinking c) (useThinkingMode c)
      (librarianRecs c) true (chatCalls c ++ [AwaitRecs context]) (chatEffects c).

(** lines 419-421: [getBookRecommendations] has settled *)
Definition fetchLibrarianRecs_settled (i : nat) (response : option Response) (c : Chat)
    : Chat :=
  match chatCalls c !! i with
  | Some (AwaitRecs _) =>
      let answered := ContentService.getBookRecommendations response in
      mkChat (chatMessages c) (chatInput c) (isThinking c) (useThinkingMode c)
        (default (librarianRecs c) answered) false (<[i := Settled]> (chatCalls c))
        (match answered with
         | Some _ => chatEffects c
         | None => chatEffects c ++ [ConsoleError "getBookRecommendations"]
         end)
  | _ => c
  end.

Definition chat_step (c : Chat) (e : ChatEvent) : Chat :=
  match e with
  | TypeMessage text =>
      mkChat (chatMessages c) text (isThinking c) (useThinkingMode c) (librarianRecs c)
        (isFetchingRecs c) (chatCalls c) (chatEffects c)
  | SetThinkingMode checked =>
      mkChat (chatMessages c) (chatInput c) (isThinking c) checked (librarianRecs c)
        (isFetchingRecs c) (chatCalls c) (chatEffects c)
  | SubmitChat => handleChat c
  | ChatAnswered i response => handleChat_settled i response c
  | FetchRecs => fetchLibrarianRecs c
  | RecsAnswered i response => fetchLibrarianRecs_settled i response c
  | DismissRecs =>
      mkChat (chatMessages c) (chatInput c) (isThinking c) (useThinkingMode c) (JSON.Arr [])
        (isFetchingRecs c) (chatCalls c) (chatEffects c)
  end.

Definition chat_run (es : list ChatEvent) (c : Chat) : Chat := fold_left chat_step es c.

(** what the chat keeps true: it starts with a message of the user, no
    message of the user is blank, a question is awaited only once it is in
    the chat, and every request for recommendations was made with a context
    of one to five messages of the user *)
Definition chat_invariant (c : Chat) : Prop :=
  (∀ m, head (chatMessages c) = Some m → is_user m = true)
  ∧ (∀ m, m ∈ chatMessages c → is_user m = true → trim (ChatMessage.content m) ≠ "")
  ∧ (∀ message useThinking,
       AwaitChat message useThinking ∈ chatCalls c → chatMessages c ≠ [])
  ∧ (∀ context, AwaitRecs context ∈ chatCalls c →
       context ≠ [] ∧ (length context ≤ 5)%nat ∧ Forall (λ t, trim t ≠ "") context).

End Chats.

(** ** Saving the settings: the effects of App.tsx lines 165-175 *)

Definition save_theme (isDarkMode : bool) (localStorage : gmap string string)
    : gmap string string :=
  <["lumina-theme" := if isDarkMode then "dark" else "light"]> localStorage.

Definition save_language (language : string) (localStorage : gmap string string)
    : gmap string string :=
  <["lumina-lang" := language]> localStorage.

(** the bytes of a clip: the data of its chunks, in the order of arrival *)
Definition clip_data (chunks : list Blob) : string := blob_data (new_Blob chunks "audio/webm").

(** the recorder delivers [chunks] to the application in state [s] *)
Definition deliver (chunks : list Blob) (s : AppState) : AppState :=
  fold_left (λ s data, ondataavailable data s) chunks s.

(** no character of [s] is [c] *)
Fixpoint free_of (c : ascii) (s : string) : bool :=
  match s with
  | EmptyString => true
  | String a r => negb (Ascii.eqb a c) && free_of c r
  end.

(** * Properties *)

(** ** [JSON.parse] never runs out of fuel *)

Lemma skip_ws_le s : (String.length (JSON.skip_ws s) ≤ String.length s)%nat.
Proof.
  induction s as [|c s IH]; simpl; [lia|].
  destruct (JSON.is_ws c); simpl; lia.
Qed.

Lemma eat_length c s r : JSON.eat c s = Some r → String.length s = S (String.length r).
Proof.
  destruct s as [|c' s]; simpl; [discriminate|].
  destruct (Ascii.eqb c' c); [|discriminate]. intros [= ->]. reflexivity.
Qed.

Lemma expect_le lit s r :
  JSON.expect lit s = Some r → (String.length r + String.length lit = String.length s)%nat.
Proof.
  revert s. induction lit as [|a lit IH]; intros s; simpl.
  - intros [= ->]. lia.
  - destruct (JSON.eat a s) as [s'|] eqn:He; simpl; [|discriminate].
    intros Hr. apply IH in Hr. apply eat_length in He. lia.
Qed.

Lemma span_digits_le s d r :
  JSON.span_digits s = (d, r) → (String.length r ≤ String.length s)%nat.
Proof.
  revert d r. induction s as [|c s IH]; intros d r; simpl.
  - intros [= <- <-]. simpl. lia.
  - destruct (JSON.is_digit c).
    + destruct (JSON.span_digits s) as [d' r'] eqn:Hs. intros [= <- <-].
      specialize (IH d' r' eq_refl). lia.
    + intros [= <- <-]. simpl. lia.
Qed.

Lemma lex_digits_le s d r :
  JSON.lex_digits s = Some (d, r) → (String.length r ≤ String.length s)%nat.
Proof.
  unfold JSON.lex_digits.
  destruct (JSON.span_digits s) as [d' r'] eqn:Hs.
  destruct d'; [discriminate|]. intros [= <- <-].
  eapply span_digits_le. exact Hs.
Qed.

Lemma lex_int_lt s i r :
  JSON.lex_int s = Some (i, r) → (String.length r < String.length s)%nat.
Proof.
  destruct s as [|c s]; simpl; [discriminate|].
  destruct (Ascii.eqb c "0").
  - intros [= <- <-]. lia.
  - destruct (JSON.is_digit c); [|discriminate].
    destruct (JSON.span_digits s) as [d' r'] eqn:Hs. intros [= <- <-].
    apply span_digits_le in Hs. lia.
Qed.

Lemma lex_frac_le s f r :
  JSON.lex_frac s = Some (f, r) → (String.length r ≤ String.length s)%nat.
Proof.
  unfold JSON.lex_frac.
  destruct (JSON.eat "." s) as [s'|] eqn:He.
  - destruct (JSON.lex_digits s') as [[d r']|] eqn:Hd; simpl; [|discriminate].
    intros [= <- <-]. apply lex_digits_le in Hd. apply eat_length in He. lia.
  - intros [= <- <-]. lia.
Qed.

Lemma lex_sign_le s sign r :
  JSON.lex_sign s = (sign, r) → (String.length r ≤ String.length s)%nat.
Proof.
  unfold JSON.lex_sign.
  destruct (JSON.eat "+" s) as [s'|] eqn:He.
  - intros [= <- <-]. apply eat_length in He. lia.
  - destruct (JSON.eat "-" s) as [s'|] eqn:He'.
    + intros [= <- <-]. apply eat_length in He'. lia.
    + intros [= <- <-]. lia.
Qed.

Lemma lex_exp_le s e r :
  JSON.lex_exp s = Some (e, r) → (String.length r ≤ String.length s)%nat.
Proof.
  destruct s as [|c s]; simpl.
  - intros [= <- <-]. simpl. lia.
  - destruct (Ascii.eqb c "e" || Ascii.eqb c "E").
    + destruct (JSON.lex_sign s) as [sign r1] eqn:Hsign.
      destruct (JSON.lex_digits r1) as [[d r']|] eqn:Hd; simpl; [|discriminate].
      intros [= <- <-]. apply lex_sign_le in Hsign. apply lex_digits_le in Hd. lia.
    + intros [= <- <-]. simpl. lia.
Qed.

Lemma lex_number_lt s n r :
  JSON.lex_number s = Some (n, r) → (String.length r < String.length s)%nat.
Proof.
  unfold JSON.lex_number.
  assert (Hsign : ∃ sign s0,
    match JSON.eat "-" s with Some r => ("-", r) | None => (EmptyString, s) end
    = (sign, s0) ∧ (String.length s0 ≤ String.length s)%nat).
  { destruct (JSON.eat "-" s) as [s'|] eqn:He.
    - eexists _, _. split; [reflexivity|]. apply eat_length in He. lia.
    - eexists _, _. split; [reflexivity|]. lia. }
  destruct Hsign as (sign & s0 & -> & Hs0).
  destruct (JSON.lex_int s0) as [[i s1]|] eqn:Hi; simpl; [|discriminate].
  destruct (JSON.lex_frac s1) as [[f s2]|] eqn:Hf; simpl; [|discriminate].
  destruct (JSON.lex_exp s2) as [[e s3]|] eqn:He; simpl; [|discriminate].
  intros [= <- <-].
  apply lex_int_lt in Hi. apply lex_frac_le in Hf. apply lex_exp_le in He. lia.
Qed.

Lemma lex_hex4_lt s u r :
  JSON.lex_hex4 s = Some (u, r) → (String.length r < String.length s)%nat.
Proof.
  destruct s as [|h1 [|h2 [|h3 [|h4 s]]]]; simpl; try discriminate.
  destruct (JSON.hex_digit h1); simpl; [|discriminate].
  destruct (JSON.hex_digit h2); simpl; [|discriminate].
  destruct (JSON.hex_digit h3); simpl; [|discriminate].
  destruct (JSON.hex_digit h4); simpl; [|discriminate].
  intros [= <- <-]. lia.
Qed.

Lemma lex_chars_lt fuel s t r :
  JSON.lex_chars fuel s = Some (t, r) → (String.length r < String.length s)%nat.
Proof.
  revert s t r. induction fuel as [|fuel IH]; intros s t r; simpl; [discriminate|].
  destruct s as [|c s]; [discriminate|].
  destruct (nat_of_ascii c =? 34)%nat.
  { intros [= <- <-]. simpl. lia. }
  destruct (nat_of_ascii c =? 92)%nat.
  { destruct s as [|e s]; [discriminate|].
    destruct (Ascii.eqb e "u").
    - destruct (JSON.lex_hex4 s) as [[u r2]|] eqn:Hu; simpl; [|discriminate].
      destruct (JSON.lex_chars fuel r2) as [[t' r3]|] eqn:Hc; simpl; [|discriminate].
      intros [= <- <-]. apply lex_hex4_lt in Hu. apply IH in Hc. simpl. lia.
    - destruct (JSON.escape e); simpl; [|discriminate].
      destruct (JSON.lex_chars fuel s) as [[t' r2]|] eqn:Hc; simpl; [|discriminate].
      intros [= <- <-]. apply IH in Hc. simpl. lia. }
  destruct (nat_of_ascii c <? 32)%nat; [discriminate|].
  destruct (JSON.lex_chars fuel s) as [[t' r1]|] eqn:Hc; simpl; [|discriminate].
  intros [= <- <-]. apply IH in Hc. simpl. lia.
Qed.

(** the fuel of [lex_chars] is enough once it reaches the length of the
    text: more fuel reads the same literal *)
Lemma lex_chars_fuel fuel fuel' s :
  (String.length s ≤ fuel)%nat → (String.length s ≤ fuel')%nat →
  JSON.lex_chars fuel s = JSON.lex_chars fuel' s.
Proof.
  revert fuel' s. induction fuel as [|fuel IH]; intros fuel' s Hf Hf'.
  - destruct s; [|simpl in Hf; lia]. destruct fuel'; reflexivity.
  - destruct fuel' as [|fuel'].
    + destruct s; [reflexivity | simpl in Hf'; lia].
    + simpl. destruct s as [|c s]; [reflexivity|]. simpl in Hf, Hf'.
      destruct (nat_of_ascii c =? 34)%nat; [reflexivity|].
      destruct (nat_of_ascii c =? 92)%nat.
      { destruct s as [|e s]; [reflexivity|]. simpl in Hf, Hf'.
        destruct (Ascii.eqb e "u").
        - destruct (JSON.lex_hex4 s) as [[u r2]|] eqn:Hu; simpl; [|reflexivity].
          apply lex_hex4_lt in Hu.
          rewrite (IH fuel' r2) by lia. reflexivity.
        - destruct (JSON.escape e); simpl; [|reflexivity].
          rewrite (IH fuel' s) by lia. reflexivity. }
      destruct (nat_of_ascii c <? 32)%nat; [reflexivity|].
      rewrite (IH fuel' s) by lia. reflexivity.
Qed.

Lemma lex_string_lt s k r :
  JSON.lex_string s = Some (k, r) → (String.length r < String.length s)%nat.
Proof.
  destruct s as [|c s]; simpl; [discriminate|].
  destruct (nat_of_ascii c =? 34)%nat; [|discriminate].
  intros Hc. apply lex_chars_lt in Hc. lia.
Qed.

Lemma progresses_of_option {A B} (f : A → B) (o : option (A * string)) s :
  (∀ a r, o = Some (a, r) → (String.length r < String.length s)%nat) →
  progresses (JSON.of_option (prod_map f id <$> o)) s.
Proof.
  intros Ho. destruct o as [[a r]|]; simpl; [|exact I]. eapply Ho. reflexivity.
Qed.

Lemma progresses_expect {B} (b : B) a lit s' s :
  (String.length s' ≤ String.length s)%nat →
  progresses (JSON.of_option (pair b <$> JSON.expect (String a lit) s')) s.
Proof.
  intros Hs'. destruct (JSON.expect (String a lit) s') as [r|] eqn:He; simpl; [|exact I].
  apply expect_le in He. simpl in He. lia.
Qed.

Local Arguments JSON.expect : simpl never.
Local Arguments JSON.lex_string : simpl never.
Local Arguments JSON.lex_number : simpl never.
Local Arguments JSON.eat : simpl never.
Local Arguments JSON.skip_ws : simpl never.

Lemma parse_fuel_enough fuel :
  (∀ s, (2 * String.length s + 1 ≤ fuel)%nat → progresses (JSON.parse_value fuel s) s)
  ∧ (∀ s, (2 * String.length s + 2 ≤ fuel)%nat →
          progresses (JSON.parse_elements fuel s) s)
  ∧ (∀ s, (2 * String.length s + 2 ≤ fuel)%nat →
          progresses (JSON.parse_members fuel s) s).
Proof.
  induction fuel as [|fuel (IHv & IHe & IHm)].
  { split_and!; intros s Hs; lia. }
  split_and!.
  - intros s Hs. simpl.
    pose proof (skip_ws_le s) as Hws.
    destruct (JSON.skip_ws s) as [|c r] eqn:Hskip; [exact I|]. simpl in Hws.
    pose proof (skip_ws_le r) as Hwr.
    destruct (Ascii.eqb c "[").
    { destruct (JSON.eat "]" (JSON.skip_ws r)) as [r'|] eqn:He.
      - apply eat_length in He. simpl. lia.
      - specialize (IHe (JSON.skip_ws r)).
        destruct (JSON.parse_elements fuel (JSON.skip_ws r)); simpl in *;
          [specialize (IHe ltac:(lia)); lia | exact I | apply IHe; lia]. }
    destruct (Ascii.eqb c "{").
    { destruct (JSON.eat "}" (JSON.skip_ws r)) as [r'|] eqn:He.
      - apply eat_length in He. simpl. lia.
      - specialize (IHm (JSON.skip_ws r)).
        destruct (JSON.parse_members fuel (JSON.skip_ws r)); simpl in *;
          [specialize (IHm ltac:(lia)); lia | exact I | apply IHm; lia]. }
    destruct (nat_of_ascii c =? 34)%nat.
    { apply progresses_of_option. intros a r' Hl. apply lex_string_lt in Hl.
      simpl in Hl. lia. }
    destruct (Ascii.eqb c "t"); [apply progresses_expect; simpl; lia|].
    destruct (Ascii.eqb c "f"); [apply progresses_expect; simpl; lia|].
    destruct (Ascii.eqb c "n"); [apply progresses_expect; simpl; lia|].
    apply progresses_of_option. intros a r' Hl. apply lex_number_lt in Hl.
    simpl in Hl. lia.
  - intros s Hs. simpl.
    specialize (IHv s ltac:(lia)).
    destruct (JSON.parse_value fuel s) as [v r| |]; simpl in *; [|exact I|exact IHv].
    pose proof (skip_ws_le r) as Hwr.
    destruct (JSON.eat "]" (JSON.skip_ws r)) as [r'|] eqn:He.
    { apply eat_length in He. simpl. lia. }
    destruct (JSON.eat "," (JSON.skip_ws r)) as [r'|] eqn:Hc; [|exact I].
    apply eat_length in Hc.
    specialize (IHe r' ltac:(lia)).
    destruct (JSON.parse_elements fuel r'); simpl in *; [lia | exact I | exact IHe].
  - intros s Hs. simpl.
    pose proof (skip_ws_le s) as Hws.
    destruct (JSON.lex_string (JSON.skip_ws s)) as [[k r]|] eqn:Hk; [|exact I].
    apply lex_string_lt in Hk.
    pose proof (skip_ws_le r) as Hwr.
    destruct (JSON.eat ":" (JSON.skip_ws r)) as [r0|] eqn:Hcolon; [|exact I].
    apply eat_length in Hcolon.
    specialize (IHv r0 ltac:(lia)).
    destruct (JSON.parse_value fuel r0) as [v r1| |]; simpl in *; [|exact I|exact IHv].
    pose proof (skip_ws_le r1) as Hwr1.
    destruct (JSON.eat "}" (JSON.skip_ws r1)) as [r'|] eqn:He.
    { apply eat_length in He. simpl. lia. }
    destruct (JSON.eat "," (JSON.skip_ws r1)) as [r'|] eqn:Hc; [|exact I].
    apply eat_length in Hc.
    specialize (IHm r' ltac:(lia)).
    destruct (JSON.parse_members fuel r'); simpl in *; [lia | exact I | exact IHm].
Qed.

(** [JSON.parse] is total: every text is a value or a [SyntaxError]. *)
Lemma parse_has_fuel text : JSON.parse text ≠ JSON.OutOfFuel.
Proof.
  unfold JSON.parse.
  pose proof (proj1 (parse_fuel_enough (2 * String.length text + 2)) text ltac:(lia))
    as Hp.
  destruct (JSON.parse_value _ text) as [v r| |]; simpl in Hp.
  - destruct (JSON.skip_ws r); discriminate.
  - discriminate.
  - contradiction.
Qed.

(** ** Search history *)

Lemma take_app_take {A} (n : nat) (l m : list A) :
  take n (l ++ take n m) = take n (l ++ m).
Proof.
  rewrite !take_app, take_take.
  do 2 f_equal. lia.
Qed.

Lemma pushHistory_cons entry prev : pushHistory entry prev = entry :: take 49 prev.
Proof. reflexivity. Qed.

Lemma pushHistory_length entry prev : (length (pushHistory entry prev) ≤ 50)%nat.
Proof. unfold pushHistory, slice0. rewrite length_take. lia. Qed.

Lemma insertAll_cons entry entries prev :
  insertAll (entry :: entries) prev = take 50 (reverse (entry :: entries) ++ prev).
Proof.
  revert entry prev.
  induction entries as [|e' es IH]; intros entry prev.
  - reflexivity.
  - change (insertAll (entry :: e' :: es) prev)
      with (insertAll (e' :: es) (pushHistory entry prev)).
    rewrite IH. unfold pushHistory, slice0.
    rewrite take_app_take.
    rewrite (reverse_cons (e' :: es) entry), <- app_assoc.
    reflexivity.
Qed.

Lemma history_after_search i q result n1 n2 s :
  history (library (handleSearch_settled i q (Some result) n1 n2 s))
  = pushHistory (historyEntry n1 n2 q result) (history (library s)).
Proof. reflexivity. Qed.

Lemma history_after_failed_search i q n1 n2 s :
  history (library (handleSearch_settled i q None n1 n2 s)) = history (library s).
Proof. reflexivity. Qed.

(** C2. Every insert prepends the new entry and keeps the first 50 entries,
    so the history never holds more than 50; a successful search performs
    exactly this insert and a failed one none. After 51 inserts the history
    is the 50 most recent entries, newest first, whatever it held before, and
    the oldest of the 51 is gone (unless the same entry was inserted again). *)
Theorem C2_history_capped_at_50 :
  (∀ entry prev,
      (length (pushHistory entry prev) ≤ 50)%nat
      ∧ pushHistory entry prev = entry :: take 49 prev)
  ∧ (∀ i q result n1 n2 s,
      history (library (handleSearch_settled i q (Some result) n1 n2 s))
      = pushHistory (historyEntry n1 n2 q result) (history (library s)))
  ∧ (∀ oldest recent prev,
      length recent = 50 →
      insertAll (oldest :: recent) prev = reverse recent
      ∧ (oldest ∉ recent → oldest ∉ insertAll (oldest :: recent) prev)).
Proof.
  split; [|split].
  - intros entry prev. split; [apply pushHistory_length | apply pushHistory_cons].
  - intros. apply history_after_search.
  - intros oldest recent prev Hlen.
    assert (Heq : insertAll (oldest :: recent) prev = reverse recent).
    { rewrite insertAll_cons, reverse_cons, <- app_assoc.
      rewrite take_app_le by (rewrite length_reverse; lia).
      apply take_ge. rewrite length_reverse. lia. }
    split; [exact Heq|].
    intros Hnot. rewrite Heq. rewrite elem_of_reverse. exact Hnot.
Qed.

Lemma C2_history_capped_at_50_witness :
  length (sampleEntry <$> seq 1 50) = 50
  ∧ insertAll (sampleEntry 0 :: (sampleEntry <$> seq 1 50)) [sampleEntry 99]
    = reverse (sampleEntry <$> seq 1 50).
Proof.
  split; [reflexivity|].
  refine (proj1 (proj2 (proj2 C2_history_capped_at_50) (sampleEntry 0)
                   (sampleEntry <$> seq 1 50) [sampleEntry 99] _)).
  reflexivity.
Defined.

(** ** Journals *)

Lemma assignBook_id t target j : Journal.id (assignBook t target j) = Journal.id j.
Proof. unfold assignBook. case_decide; reflexivity. Qed.

Lemma assignBook_elsewhere t target j :
  Some (Journal.id j) ≠ target →
  Journal.bookTitles (assignBook t target j) = filter (λ x, x ≠ t) (Journal.bookTitles j).
Proof. intros Hne. unfold assignBook. case_decide; [contradiction | reflexivity]. Qed.

Lemma assignBook_target t target j :
  Some (Journal.id j) = target →
  Journal.bookTitles (assignBook t target j)
  = filter (λ x, x ≠ t) (Journal.bookTitles j) ++ [t].
Proof. intros He. unfold assignBook. case_decide; [reflexivity | contradiction]. Qed.

Lemma cleanBooks_without (t : string) (l : list string) : t ∉ filter (λ x, x ≠ t) l.
Proof. rewrite list_elem_of_filter. intros [Hne _]. apply Hne. reflexivity. Qed.

Lemma assignBook_holds_iff_target t target j :
  t ∈ Journal.bookTitles (assignBook t target j) ↔ Some (Journal.id j) = target.
Proof.
  destruct (decide (Some (Journal.id j) = target)) as [He|Hne].
  - rewrite (assignBook_target _ _ _ He). split; [auto|].
    intros _. apply elem_of_app. right. apply list_elem_of_singleton. reflexivity.
  - rewrite (assignBook_elsewhere _ _ _ Hne). split; [|contradiction].
    intros Hin. exfalso. exact (cleanBooks_without _ _ Hin).
Qed.

Lemma assignBook_keeps_others t target j t' :
  t' ≠ t →
  t' ∈ Journal.bookTitles (assignBook t target j) ↔ t' ∈ Journal.bookTitles j.
Proof.
  intros Hne. unfold assignBook. case_decide; simpl.
  - rewrite elem_of_app, list_elem_of_filter, list_elem_of_singleton. tauto.
  - rewrite list_elem_of_filter. tauto.
Qed.

Lemma assign_ids t target l :
  Journal.id <$> journals (assignBookToJournal_journals t target l)
  = Journal.id <$> journals l.
Proof.
  unfold assignBookToJournal_journals. simpl.
  rewrite <- list_fmap_compose. apply list_fmap_ext.
  intros i j _. apply assignBook_id.
Qed.

(** C3. After [assignBookToJournal(bookTitle, target)] the folders are the
    same folders in the same order; every folder whose id is not [target] is
    without the title; the folder with id [target] holds it exactly once, at
    the end; so all folders that hold the title have one id, and where ids
    are pairwise distinct that is one folder. Titles other than the assigned
    one stay where they were, and the favorites are untouched. *)
Theorem C3_title_in_one_journal :
  ∀ (bookTitle target : string) (l : Library),
    let l' := assignBookToJournal_journals bookTitle (Some target) l in
    favorites l' = favorites l
    ∧ Journal.id <$> journals l' = Journal.id <$> journals l
    ∧ (∀ j, j ∈ journals l' → Journal.id j ≠ target →
            bookTitle ∉ Journal.bookTitles j)
    ∧ (∀ j, j ∈ journals l' → Journal.id j = target →
            ∃ others, Journal.bookTitles j = others ++ [bookTitle]
                      ∧ bookTitle ∉ others)
    ∧ (∀ j k, j ∈ journals l' → k ∈ journals l' →
              bookTitle ∈ Journal.bookTitles j → bookTitle ∈ Journal.bookTitles k →
              Journal.id j = target ∧ Journal.id k = target)
    ∧ (NoDup (Journal.id <$> journals l) →
       ∀ i k ji jk, journals l' !! i = Some ji → journals l' !! k = Some jk →
                    bookTitle ∈ Journal.bookTitles ji →
                    bookTitle ∈ Journal.bookTitles jk → i = k)
    ∧ (∀ i j, journals l !! i = Some j →
              ∃ j', journals l' !! i = Some j'
                    ∧ Journal.id j' = Journal.id j
                    ∧ Journal.name j' = Journal.name j
                    ∧ ∀ t, t ≠ bookTitle →
                           (t ∈ Journal.bookTitles j' ↔ t ∈ Journal.bookTitles j)).
Proof.
  intros bookTitle target l l'.
  assert (Hin : ∀ j', j' ∈ journals l' →
            ∃ j, j' = assignBook bookTitle (Some target) j ∧ j ∈ journals l).
  { intros j' Hj'. apply list_elem_of_fmap in Hj'. exact Hj'. }
  assert (Hholds : ∀ j', j' ∈ journals l' → bookTitle ∈ Journal.bookTitles j' →
            Journal.id j' = target).
  { intros j' Hj' Ht. destruct (Hin j' Hj') as (j & -> & _).
    apply assignBook_holds_iff_target in Ht. rewrite assignBook_id. congruence. }
  split; [reflexivity|].
  split; [apply assign_ids|].
  split.
  { intros j' Hj' Hne Ht. apply Hne. apply Hholds; assumption. }
  split.
  { intros j' Hj' He. destruct (Hin j' Hj') as (j & -> & _).
    rewrite assignBook_id in He.
    exists (filter (λ x, x ≠ bookTitle) (Journal.bookTitles j)). split.
    - apply assignBook_target. congruence.
    - apply cleanBooks_without. }
  split.
  { intros j k Hj Hk Htj Htk. split; apply Hholds; assumption. }
  split.
  { intros Hnd i k ji jk Hi Hk Hti Htk.
    assert (Hidi : (Journal.id <$> journals l) !! i = Some target).
    { rewrite <- (assign_ids bookTitle (Some target) l).
      rewrite list_lookup_fmap. fold l'. rewrite Hi. simpl. f_equal.
      apply Hholds; [|assumption]. eapply list_elem_of_lookup_2; eassumption. }
    assert (Hidk : (Journal.id <$> journals l) !! k = Some target).
    { rewrite <- (assign_ids bookTitle (Some target) l).
      rewrite list_lookup_fmap. fold l'. rewrite Hk. simpl. f_equal.
      apply Hholds; [|assumption]. eapply list_elem_of_lookup_2; eassumption. }
    eapply NoDup_lookup; eassumption. }
  intros i j Hj.
  exists (assignBook bookTitle (Some target) j).
  split.
  { subst l'. unfold assignBookToJournal_journals. simpl.
    rewrite list_lookup_fmap, Hj. reflexivity. }
  split; [apply assignBook_id|].
  split; [unfold assignBook; case_decide; reflexivity|].
  intros t Hne. apply assignBook_keeps_others. exact Hne.
Qed.

Lemma C3_title_in_one_journal_witness :
  NoDup (Journal.id <$> journals sampleLibrary)
  ∧ ∀ i k ji jk,
      journals (assignBookToJournal_journals "Dune" (Some "1700000000002") sampleLibrary)
        !! i = Some ji →
      journals (assignBookToJournal_journals "Dune" (Some "1700000000002") sampleLibrary)
        !! k = Some jk →
      "Dune" ∈ Journal.bookTitles ji → "Dune" ∈ Journal.bookTitles jk → i = k.
Proof.
  assert (Hnd : NoDup (Journal.id <$> journals sampleLibrary)).
  { apply (bool_decide_unpack _). vm_compute. exact I. }
  split; [exact Hnd|].
  exact (proj1 (proj2 (proj2 (proj2 (proj2 (proj2
           (C3_title_in_one_journal "Dune" "1700000000002" sampleLibrary)))))) Hnd).
Defined.

(** the handler of the application changes the journals this way, and closes
    the dialog *)
Lemma assignBookToJournal_library bookTitle journalId s :
  library (assignBookToJournal bookTitle journalId s)
  = assignBookToJournal_journals bookTitle journalId (library s)
  ∧ movingBookTitle (assignBookToJournal bookTitle journalId s) = None.
Proof. split; reflexivity. Qed.

(** Journal ids stay pairwise distinct under every operation on the
    collections, provided the clock has moved on when a journal is created. *)
Lemma journal_ids_stay_distinct `{Platform} (l : Library) :
  NoDup (Journal.id <$> journals l) →
  (∀ t target, NoDup (Journal.id <$> journals (assignBookToJournal_journals t target l)))
  ∧ (∀ id, NoDup (Journal.id <$> journals (removeJournal id l)))
  ∧ (∀ book, NoDup (Journal.id <$> journals (toggleFavorite book l)))
  ∧ (∀ now_id now_created name,
       Date_toString now_id ∉ Journal.id <$> journals l →
       NoDup (Journal.id <$> journals (appendJournal now_id now_created name l))).
Proof.
  intros Hnd. split_and!.
  - intros t target. rewrite assign_ids. exact Hnd.
  - intros id. simpl. eapply sublist_NoDup; [exact Hnd|].
    apply fmap_sublist. apply sublist_filter.
  - intros book. unfold toggleFavorite.
    destruct (list_find _ _); simpl; [|exact Hnd].
    rewrite <- list_fmap_compose. exact Hnd.
  - intros now_id now_created name Hfresh. simpl.
    rewrite fmap_app. apply NoDup_app. split_and!.
    + exact Hnd.
    + intros x Hx Hin. simpl in Hin. apply list_elem_of_singleton in Hin.
      subst x. contradiction.
    + apply NoDup_singleton.
Qed.

(** moving a title from one folder to another, on the sample folders *)
Example assign_moves_Dune :
  Journal.bookTitles <$>
    journals (assignBookToJournal_journals "Dune" (Some "1700000000002") sampleLibrary)
  = [["Foundation"]; ["Moby Dick"; "Dune"]].
Proof. vm_compute. reflexivity. Qed.

(** filing under "Uncategorized" ([journalId = null]) takes the title out of
    every folder *)
Lemma assign_null_removes bookTitle l :
  ∀ j, j ∈ journals (assignBookToJournal_journals bookTitle None l) →
       bookTitle ∉ Journal.bookTitles j.
Proof.
  intros j' Hj'. apply list_elem_of_fmap in Hj'. destruct Hj' as (j & -> & _).
  rewrite assignBook_holds_iff_target. discriminate.
Qed.

(** with a repeated id every folder of that id receives the title *)
Example assign_repeated_id :
  Journal.bookTitles <$>
    journals (assignBookToJournal_journals "Dune" (Some "7")
      {| favorites := [];
         journals := [ Journal.mk "7" "A" [] 1; Journal.mk "7" "B" [] 2 ];
         history := [] |})
  = [["Dune"]; ["Dune"]].
Proof. vm_compute. reflexivity. Qed.

(** C3, counterexample. Two folders created at the same reading of the clock
    share their id, [Date.now().toString()]. A title assigned to that id is
    then filed in both folders, at two positions of the list: "at most one
    journal" does not hold for this journal state. *)
Lemma C3_repeated_id_two_journals :
  Journal.id <$> journals (appendJournal 7 7 "B" (appendJournal 7 7 "A"
                             {| favorites := [sampleBook "Dune"]; journals := [];
                                history := [] |}))
  = ["7"; "7"]
  ∧ Journal.bookTitles <$>
      journals (assignBookToJournal_journals "Dune" (Some "7")
                  (appendJournal 7 7 "B" (appendJournal 7 7 "A"
                     {| favorites := [sampleBook "Dune"]; journals := [];
                        history := [] |})))
    = [["Dune"]; ["Dune"]]
  ∧ ¬ (∀ i k ji jk,
         journals (assignBookToJournal_journals "Dune" (Some "7")
                     (appendJournal 7 7 "B" (appendJournal 7 7 "A"
                        {| favorites := [sampleBook "Dune"]; journals := [];
                           history := [] |}))) !! i = Some ji →
         journals (assignBookToJournal_journals "Dune" (Some "7")
                     (appendJournal 7 7 "B" (appendJournal 7 7 "A"
                        {| favorites := [sampleBook "Dune"]; journals := [];
                           history := [] |}))) !! k = Some jk →
         "Dune" ∈ Journal.bookTitles ji → "Dune" ∈ Journal.bookTitles jk → i = k).
Proof.
  split; [vm_compute; reflexivity|].
  split; [vm_compute; reflexivity|].
  intros Hone.
  assert (Hsame : 0%nat = 1%nat).
  { apply (Hone 0%nat 1%nat (Journal.mk "7" "A" ["Dune"] 7) (Journal.mk "7" "B" ["Dune"] 7)).
    - vm_compute. reflexivity.
    - vm_compute. reflexivity.
    - left.
    - left. }
  discriminate.
Qed.

Lemma removeJournal_journals id l :
  journals (removeJournal id l) = filter (λ j, Journal.id j ≠ id) (journals l).
Proof. reflexivity. Qed.

Lemma deleteJournal_library confirmed id s :
  library (deleteJournal confirmed id s)
  = if confirmed then removeJournal id (library s) else library s.
Proof.
  unfold deleteJournal. destruct confirmed; [|reflexivity].
  simpl. destruct (String.eqb _ _); reflexivity.
Qed.



(** ** Favorites *)

Section Favorites.
Context `{Platform}.

Lemma isFavorited_find l title :
  isFavorited l title = true →
  is_Some (list_find (λ f, toLowerCase (BookResult.title f) = toLowerCase title)
             (favorites l)).
Proof.
  unfold isFavorited. intros Hfav. apply bool_decide_eq_true in Hfav.
  apply Exists_exists in Hfav. destruct Hfav as (f & Hf & Hsame).
  destruct (list_find _ _) as [p|] eqn:Hfind; [eauto|].
  exfalso. apply list_find_None in Hfind.
  rewrite Forall_forall in Hfind. exact (Hfind f Hf Hsame).
Qed.

Lemma toggleFavorite_present book l :
  isFavorited l (BookResult.title book) = true →
  toggleFavorite book l
  = {| favorites := filter (λ f, toLowerCase (BookResult.title f)
                                   ≠ toLowerCase (BookResult.title book)) (favorites l);
       journals := (λ j, {| Journal.id := Journal.id j;
                            Journal.name := Journal.name j;
                            Journal.bookTitles :=
                              filter (λ t, toLowerCase t
                                             ≠ toLowerCase (BookResult.title book))
                                     (Journal.bookTitles j);
                            Journal.createdAt := Journal.createdAt j |})
                   <$> journals l;
       history := history l |}.
Proof.
  intros Hfav. apply isFavorited_find in Hfav. destruct Hfav as [p Hp].
  unfold toggleFavorite. rewrite Hp. reflexivity.
Qed.

Lemma toggleFavorite_absent book l :
  isFavorited l (BookResult.title book) = false →
  toggleFavorite book l = setFavorites (λ prev, book :: prev) l.
Proof.
  unfold isFavorited. intros Hfav. apply bool_decide_eq_false in Hfav.
  unfold toggleFavorite.
  destruct (list_find _ _) as [[i f]|] eqn:Hfind; [|reflexivity].
  exfalso. apply Hfav. apply list_find_Some in Hfind.
  destruct Hfind as (Hi & Hsame & _).
  apply Exists_exists. exists f. split; [|exact Hsame].
  eapply list_elem_of_lookup_2. exact Hi.
Qed.

(** C4. [toggleFavorite] on a book that is among the favorites (titles
    compared in lower case) takes the book out of the favorites and, in the
    same update, takes its title, in any capitalisation, out of the
    [bookTitles] of every journal; the journals keep their id, name, date and
    their other titles. The cascade has one direction: taking a title out of
    the folders, or deleting a folder, leaves the favorites as they are. *)
Theorem C4_unfavorite_cascades :
  ∀ (book : BookResult.t) (l : Library),
    isFavorited l (BookResult.title book) = true →
    let l' := toggleFavorite book l in
    (∀ j, j ∈ journals l' → BookResult.title book ∉ Journal.bookTitles j)
    ∧ (∀ j t, j ∈ journals l' → t ∈ Journal.bookTitles j →
              toLowerCase t ≠ toLowerCase (BookResult.title book))
    ∧ isFavorited l' (BookResult.title book) = false
    ∧ (∀ i j, journals l !! i = Some j →
              ∃ j', journals l' !! i = Some j'
                    ∧ Journal.id j' = Journal.id j
                    ∧ Journal.name j' = Journal.name j
                    ∧ Journal.createdAt j' = Journal.createdAt j
                    ∧ ∀ t, toLowerCase t ≠ toLowerCase (BookResult.title book) →
                           (t ∈ Journal.bookTitles j' ↔ t ∈ Journal.bookTitles j))
    ∧ length (journals l') = length (journals l)
    ∧ (∀ f, f ∈ favorites l' ↔
            f ∈ favorites l
            ∧ toLowerCase (BookResult.title f) ≠ toLowerCase (BookResult.title book))
    ∧ history l' = history l
    ∧ (∀ t id, favorites (assignBookToJournal_journals t id l) = favorites l)
    ∧ (∀ id, favorites (removeJournal id l) = favorites l).
Proof.
  intros book l Hfav l'. subst l'.
  rewrite (toggleFavorite_present _ _ Hfav). simpl.
  assert (Hlow : ∀ j t,
    j ∈ ((λ j, {| Journal.id := Journal.id j; Journal.name := Journal.name j;
                  Journal.bookTitles :=
                    filter (λ t, toLowerCase t ≠ toLowerCase (BookResult.title book))
                           (Journal.bookTitles j);
                  Journal.createdAt := Journal.createdAt j |}) <$> journals l) →
    t ∈ Journal.bookTitles j →
    toLowerCase t ≠ toLowerCase (BookResult.title book)).
  { intros j' t Hj' Ht. apply list_elem_of_fmap in Hj'. destruct Hj' as (j & -> & _).
    simpl in Ht. apply list_elem_of_filter in Ht. tauto. }
  split.
  { intros j Hj Ht. exact (Hlow j _ Hj Ht eq_refl). }
  split; [exact Hlow|].
  split.
  { unfold isFavorited. simpl. apply bool_decide_eq_false.
    intros Hex. apply Exists_exists in Hex.
    destruct Hex as (f & Hf & Hsame).
    apply list_elem_of_filter in Hf. tauto. }
  split.
  { intros i j Hj. eexists. split.
    - rewrite list_lookup_fmap, Hj. reflexivity.
    - simpl. repeat split; try reflexivity.
      + intros Ht. apply list_elem_of_filter in Ht. tauto.
      + intros Ht. apply list_elem_of_filter. tauto. }
  split; [apply length_fmap|].
  split.
  { intros f. rewrite list_elem_of_filter. tauto. }
  repeat split.
Qed.

End Favorites.

Lemma C4_unfavorite_cascades_witness :
  @isFavorited asciiPlatform sampleLibrary "DUNE" = true
  ∧ Journal.bookTitles <$> journals (@toggleFavorite asciiPlatform (sampleBook "DUNE")
                                       sampleLibrary)
    = [["Foundation"]; ["Moby Dick"]]
  ∧ ∀ j, j ∈ journals (@toggleFavorite asciiPlatform (sampleBook "DUNE") sampleLibrary) →
         "DUNE" ∉ Journal.bookTitles j.
Proof.
  assert (Hfav : @isFavorited asciiPlatform sampleLibrary
                   (BookResult.title (sampleBook "DUNE")) = true).
  { vm_compute. reflexivity. }
  split; [exact Hfav|].
  split; [vm_compute; reflexivity|].
  exact (proj1 (@C4_unfavorite_cascades asciiPlatform (sampleBook "DUNE")
                  sampleLibrary Hfav)).
Defined.

(** ** Playback controller: [stopAudio] *)

Lemma source_stop_spec i srcs :
  match source_stop i srcs with
  | Some srcs' =>
      srcs' !! i ≠ Some playing
      ∧ length srcs' = length srcs
      ∧ ∀ k, k ≠ i → srcs' !! k = srcs !! k
  | None => srcs !! i = Some created
  end.
Proof.
  unfold source_stop.
  destruct (srcs !! i) as [[]|] eqn:Hi; try (split; [congruence | split; auto]).
  - reflexivity.
  - split; [|split].
    + rewrite list_lookup_insert_eq; [discriminate|].
      eapply lookup_lt_Some; eassumption.
    + apply length_insert.
    + intros k Hk. apply list_lookup_insert_ne. auto.
Qed.

Lemma App_stopAudio_eq p :
  App.stopAudio p
  = mkPlayback (match audioContextRef p with
                | Some suspended => Some running
                | c => c
                end)
      None false false false false (halt_active p) (tasks p) (log p).
Proof.
  unfold App.stopAudio, halt_active.
  destruct p as [ctx [src|] lock pl pa lo srcs ts lg]; simpl.
  - destruct (source_stop src srcs); simpl; destruct ctx as [[]|]; reflexivity.
  - destruct ctx as [[]|]; reflexivity.
Qed.

Lemma Scout_stopAudio_eq p :
  Scout.stopAudio p
  = mkPlayback (audioContextRef p) None false false false false
      (halt_active p) (tasks p) (log p).
Proof.
  unfold Scout.stopAudio, halt_active.
  destruct p as [ctx [src|] lock pl pa lo srcs ts lg]; simpl.
  - destruct (source_stop src srcs); reflexivity.
  - reflexivity.
Qed.

Lemma halt_active_spec p :
  length (halt_active p) = length (sources p)
  ∧ (∀ src, activeAudioSourceRef p = Some src → halt_active p !! src ≠ Some playing)
  ∧ (∀ k, activeAudioSourceRef p ≠ Some k → halt_active p !! k = sources p !! k).
Proof.
  unfold halt_active. destruct (activeAudioSourceRef p) as [src|].
  - pose proof (source_stop_spec src (sources p)) as Hs.
    destruct (source_stop src (sources p)) as [srcs'|]; simpl.
    + destruct Hs as (Hnp & Hlen & Hothers). split; [exact Hlen|]. split.
      * intros ? [= <-]. exact Hnp.
      * intros k Hk. apply Hothers. congruence.
    + split; [reflexivity|]. split; [|reflexivity].
      intros ? [= <-]. rewrite Hs. discriminate.
  - split; [reflexivity|]. split; [discriminate | reflexivity].
Qed.

(** C5. [stopAudio], in App.tsx and in part_001, is a total function of the
    controller state: whatever the state, and also when [source.stop()]
    throws, it leaves no active source reference, the three flags false and
    the lock free, and the node that was referenced is no longer playing;
    suspended calls and the log are not touched. Calling it twice gives the
    state that calling it once gives, and on an idle controller it changes
    nothing (App.tsx also resumes a suspended context). *)
Theorem C5_stopAudio_idempotent :
  ∀ p : Playback,
    App.stopAudio (App.stopAudio p) = App.stopAudio p
    ∧ Scout.stopAudio (Scout.stopAudio p) = Scout.stopAudio p
    ∧ (∀ p', p' = App.stopAudio p ∨ p' = Scout.stopAudio p →
         isPlayingAudio p' = false ∧ isAudioPaused p' = false
         ∧ isAudioLoading p' = false ∧ isAudioLockedRef p' = false
         ∧ activeAudioSourceRef p' = None
         ∧ is_idle p' = true
         ∧ (∀ src, activeAudioSourceRef p = Some src →
                   sources p' !! src ≠ Some playing)
         ∧ length (sources p') = length (sources p)
         ∧ tasks p' = tasks p ∧ log p' = log p)
    ∧ (is_idle p = true →
         Scout.stopAudio p = p
         ∧ (audioContextRef p ≠ Some suspended → App.stopAudio p = p)).
Proof.
  intros p.
  pose proof (halt_active_spec p) as (Hlen & Hnp & _).
  split_and!.
  - rewrite !App_stopAudio_eq. simpl. unfold halt_active at 1. simpl.
    destruct (audioContextRef p) as [[]|]; reflexivity.
  - rewrite !Scout_stopAudio_eq. simpl. unfold halt_active at 1. simpl.
    reflexivity.
  - intros p' [-> | ->]; [rewrite App_stopAudio_eq | rewrite Scout_stopAudio_eq];
      simpl; split_and!; auto.
  - intros Hidle. unfold is_idle in Hidle.
    destruct p as [ctx src lock pl pa lo srcs ts lg]; simpl in *.
    repeat (apply andb_prop in Hidle; destruct Hidle as [Hidle ?]).
    apply bool_decide_eq_true in Hidle. subst src.
    destruct lock, pl, pa, lo; try discriminate.
    split; [reflexivity|].
    intros Hctx. rewrite App_stopAudio_eq. simpl. unfold halt_active. simpl.
    destruct ctx as [[]|]; try reflexivity. contradiction.
Qed.

Lemma C5_stopAudio_idempotent_witness :
  is_idle initialPlayback = true
  ∧ Scout.stopAudio initialPlayback = initialPlayback
  ∧ App.stopAudio initialPlayback = initialPlayback.
Proof.
  split; [reflexivity|].
  destruct (proj2 (proj2 (proj2 (C5_stopAudio_idempotent initialPlayback))) eq_refl)
    as [Hscout Happ].
  split; [exact Hscout|].
  apply Happ. discriminate.
Defined.

(** [stopAudio] on a controller that plays: the node is halted *)
Example stop_while_playing :
  App.run [Toggle (Some "a"); Settle 0 (Fulfilled (Some "UklGRg=="));
           Settle 0 (Fulfilled None); Stop] initialPlayback
  = mkPlayback (Some running) None false false false false [stopped] [Done] [].
Proof. reflexivity. Qed.

(** ** Playback controller: failed starts *)

Lemma spawn_lookup t p : tasks (spawn t p) !! length (tasks p) = Some t.
Proof. unfold spawn. simpl. apply list_lookup_middle. reflexivity. Qed.

Lemma App_start_lookup text p :
  tasks (App.startAudioPlayback text p) !! length (tasks p) = Some (AwaitSpeak text).
Proof.
  unfold App.startAudioPlayback, spawn. simpl. apply list_lookup_middle. reflexivity.
Qed.

Lemma park_lookup i t p :
  (i < length (tasks p))%nat → tasks (park i t p) !! i = Some t.
Proof. intros Hi. unfold park. simpl. apply list_lookup_insert_eq. exact Hi. Qed.

Lemma is_idle_inv p :
  is_idle p = true →
  activeAudioSourceRef p = None ∧ isAudioLockedRef p = false
  ∧ isPlayingAudio p = false ∧ isAudioPaused p = false ∧ isAudioLoading p = false.
Proof.
  unfold is_idle. intros Hidle.
  repeat (apply andb_prop in Hidle; destruct Hidle as [Hidle ?]).
  apply bool_decide_eq_true in Hidle.
  repeat match goal with H : negb _ = true |- _ => apply negb_true_iff in H end.
  auto.
Qed.

(** A rejected promise of a suspended [startAudioPlayback], at any of its
    three [await]s and in any state, runs the [catch]: loading cleared, lock
    released, one console entry, nothing else changed. *)
Lemma App_start_rejected p i t error :
  tasks p !! i = Some t → is_start t = true →
  let p' := App.settle i (Rejected error) p in
  isAudioLoading p' = false ∧ isAudioLockedRef p' = false
  ∧ isPlayingAudio p' = isPlayingAudio p ∧ isAudioPaused p' = isAudioPaused p
  ∧ activeAudioSourceRef p' = activeAudioSourceRef p
  ∧ sources p' = sources p
  ∧ log p' = log p ++ [ConsoleError error]
  ∧ tasks p' !! i = Some Done.
Proof.
  intros Hi Hstart. unfold App.settle. rewrite Hi.
  assert (Hlt : (i < length (tasks p))%nat) by (eapply lookup_lt_Some; eassumption).
  destruct t; try discriminate; simpl;
    (split_and!; try reflexivity; apply list_lookup_insert_eq; exact Hlt).
Qed.

(** An answer without audio ([undefined] or the empty string) to a suspended
    [speakText], in any state: loading cleared, lock released, no log. *)
Lemma App_no_audio p i text v :
  tasks p !! i = Some (AwaitSpeak text) → truthy_string v = None →
  let p' := App.settle i (Fulfilled v) p in
  isAudioLoading p' = false ∧ isAudioLockedRef p' = false
  ∧ isPlayingAudio p' = isPlayingAudio p ∧ isAudioPaused p' = isAudioPaused p
  ∧ activeAudioSourceRef p' = activeAudioSourceRef p
  ∧ sources p' = sources p
  ∧ log p' = log p
  ∧ tasks p' !! i = Some Done.
Proof.
  intros Hi Hv. unfold App.settle. rewrite Hi.
  unfold App.startAudioPlayback_spoken. rewrite Hv. simpl.
  split_and!; try reflexivity.
  apply list_lookup_insert_eq. eapply lookup_lt_Some; eassumption.
Qed.

Lemma awaiting_decode_spec p text audio :
  audio ≠ "" →
  let i := length (tasks p) in
  let pd := awaiting_decode i audio p (App.startAudioPlayback text p) in
  tasks pd !! i = Some (AwaitDecode audio)
  ∧ isPlayingAudio pd = isPlayingAudio p ∧ isAudioPaused pd = isAudioPaused p
  ∧ activeAudioSourceRef pd = activeAudioSourceRef p
  ∧ sources pd = sources p ∧ log pd = log p
  ∧ isAudioLockedRef pd = true ∧ isAudioLoading pd = true.
Proof.
  intros Haudio i pd. subst i pd.
  destruct p as [ctx src lock pl pa lo srcs ts lg].
  assert (Hmid : ∀ t t', <[length ts := t']> (ts ++ [t]) = ts ++ [t']).
  { intros t t'. rewrite insert_app_r_alt by lia.
    rewrite Nat.sub_diag. reflexivity. }
  assert (Hlook : ∀ t, (ts ++ [t]) !! length ts = Some t).
  { intros t. apply list_lookup_middle. reflexivity. }
  unfold awaiting_decode, App.settle, App.startAudioPlayback, spawn. simpl.
  rewrite Hlook.
  unfold App.startAudioPlayback_spoken, truthy_string.
  destruct (decide (audio = "")) as [|_]; [contradiction|].
  destruct ctx as [[]|]; simpl;
    rewrite ?Hmid, ?Hlook; simpl; unfold App.startAudioPlayback_decode, park; simpl;
    rewrite ?Hmid; (split_and!; try reflexivity; apply Hlook).
Qed.

Lemma is_idle_intro p :
  activeAudioSourceRef p = None → isAudioLockedRef p = false →
  isPlayingAudio p = false → isAudioPaused p = false → isAudioLoading p = false →
  is_idle p = true.
Proof.
  intros Hs Hl Hp Ha Hlo. unfold is_idle. rewrite Hs, Hl, Hp, Ha, Hlo. reflexivity.
Qed.

(** C7. A [startAudioPlayback(text)] issued on an idle controller holds the
    lock and shows loading while [speakText] is awaited. If the answer has no
    audio, if the request fails, or if audio arrives and decoding fails, the
    controller is idle again: no active source, flags false, lock free, no
    source node created. Nothing is raised (the functions are total) and no
    alert is shown; a failure adds one [console.error] entry, an answer
    without audio adds nothing. *)
Theorem C7_failed_start_returns_to_idle :
  ∀ (p : Playback) (text : string),
    is_idle p = true →
    let i := length (tasks p) in
    let p1 := App.startAudioPlayback text p in
    (isAudioLockedRef p1 = true ∧ isAudioLoading p1 = true
     ∧ tasks p1 !! i = Some (AwaitSpeak text))
    ∧ (∀ v, truthy_string v = None →
         let p' := App.settle i (Fulfilled v) p1 in
         is_idle p' = true ∧ sources p' = sources p ∧ log p' = log p)
    ∧ (∀ error,
         let p' := App.settle i (Rejected error) p1 in
         is_idle p' = true ∧ sources p' = sources p
         ∧ log p' = log p ++ [ConsoleError error])
    ∧ (∀ audio error, audio ≠ "" →
         let pd := awaiting_decode i audio p p1 in
         let p' := App.settle i (Rejected error) pd in
         tasks pd !! i = Some (AwaitDecode audio)
         ∧ is_idle p' = true ∧ sources p' = sources p
         ∧ log p' = log p ++ [ConsoleError error]
         ∧ filter is_alert (log p') = filter is_alert (log p)).
Proof.
  intros p text Hidle i p1.
  destruct (is_idle_inv p Hidle) as (Hsrc & Hlock & Hpl & Hpa & Hlo).
  assert (Hi : tasks p1 !! i = Some (AwaitSpeak text)) by apply App_start_lookup.
  split_and!.
  - reflexivity.
  - reflexivity.
  - exact Hi.
  - intros v Hv p'.
    destruct (App_no_audio p1 i text v Hi Hv)
      as (H1 & H2 & H3 & H4 & H5 & H6 & H7 & _).
    fold p' in H1, H2, H3, H4, H5, H6, H7.
    split_and!.
    + apply is_idle_intro; [rewrite H5 | | rewrite H3 | rewrite H4 |]; assumption.
    + rewrite H6. reflexivity.
    + rewrite H7. reflexivity.
  - intros error p'.
    destruct (App_start_rejected p1 i _ error Hi eq_refl)
      as (H1 & H2 & H3 & H4 & H5 & H6 & H7 & _).
    fold p' in H1, H2, H3, H4, H5, H6, H7.
    split_and!.
    + apply is_idle_intro; [rewrite H5 | | rewrite H3 | rewrite H4 |]; assumption.
    + rewrite H6. reflexivity.
    + rewrite H7. reflexivity.
  - intros audio error Haudio pd p'.
    destruct (awaiting_decode_spec p text audio Haudio)
      as (Hd & D3 & D4 & D5 & D6 & D7 & _).
    fold i in Hd, D3, D4, D5, D6, D7. fold p1 in Hd, D3, D4, D5, D6, D7.
    fold pd in Hd, D3, D4, D5, D6, D7.
    destruct (App_start_rejected pd i _ error Hd eq_refl)
      as (H1 & H2 & H3 & H4 & H5 & H6 & H7 & _).
    fold p' in H1, H2, H3, H4, H5, H6, H7.
    assert (Hlog : log p' = log p ++ [ConsoleError error]) by (rewrite H7, D7; reflexivity).
    split_and!.
    + exact Hd.
    + apply is_idle_intro; [rewrite H5, D5 | | rewrite H3, D3 | rewrite H4, D4 |];
        assumption.
    + rewrite H6, D6. reflexivity.
    + exact Hlog.
    + rewrite Hlog, filter_app. simpl. apply app_nil_r.
Qed.

Lemma C7_failed_start_returns_to_idle_witness :
  is_idle initialPlayback = true
  ∧ is_idle (App.run [Toggle (Some "Dune by Frank Herbert.");
                      Settle 0 (Fulfilled None)] initialPlayback) = true
  ∧ is_idle (App.settle 0 (Rejected "EncodingError")
               (awaiting_decode 0 "UklGRg==" initialPlayback
                  (App.startAudioPlayback "Dune by Frank Herbert." initialPlayback)))
    = true.
Proof.
  pose proof (C7_failed_start_returns_to_idle initialPlayback
                "Dune by Frank Herbert." eq_refl) as (_ & Hnone & _ & Hdecode).
  split; [reflexivity|].
  split.
  - exact (proj1 (Hnone None eq_refl)).
  - refine (proj1 (proj2 (Hdecode "UklGRg==" "EncodingError" _))). discriminate.
Defined.

(** the reduced build has no branch for an answer without audio: the lock
    stays taken and the spinner stays on *)
Example Scout_no_audio_stays_locked :
  Scout.run [Toggle (Some "Nature"); Settle 0 (Fulfilled None)] initialPlayback
  = mkPlayback None None true false false true [] [Done] [].
Proof. reflexivity. Qed.

(** ** Playback controller: the lock *)

(** A toggle while the lock is held does nothing. *)
Lemma toggle_while_locked p text :
  isAudioLockedRef p = true → App.handleAudioToggle text p = p.
Proof. intros Hlock. unfold App.handleAudioToggle. rewrite Hlock. reflexivity. Qed.

(** Two toggles in a row on a controller that is not playing: the first takes
    the lock and sends one request, the second changes nothing. *)
Lemma second_toggle_is_noop p text1 text2 :
  isAudioLockedRef p = false → isPlayingAudio p = false → text1 ≠ "" →
  App.run [Toggle (Some text1); Toggle text2] p = App.run [Toggle (Some text1)] p
  ∧ tasks (App.run [Toggle (Some text1); Toggle text2] p) = tasks p ++ [AwaitSpeak text1].
Proof.
  intros Hlock Hplay Htext. unfold App.run. simpl.
  assert (Hfirst : App.handleAudioToggle (Some text1) p = App.startAudioPlayback text1 p).
  { unfold App.handleAudioToggle. rewrite Hlock, Hplay. simpl.
    rewrite decide_False by exact Htext. reflexivity. }
  rewrite Hfirst. split.
  - apply toggle_while_locked. reflexivity.
  - rewrite toggle_while_locked by reflexivity. reflexivity.
Qed.

(** the scenario of the specification: two toggles before the first
    [speakText] resolves, then the audio arrives *)
Example rapid_toggles_start_one_playback :
  App.run [Toggle (Some "a"); Toggle (Some "b");
           Settle 0 (Fulfilled (Some "UklGRg==")); Settle 0 (Fulfilled None)]
          initialPlayback
  = mkPlayback (Some running) (Some 0%nat) true true false false [playing] [Done] [].
Proof. reflexivity. Qed.

(** C1. The specification wants at most one audio source active after every
    sequence of toggle and stop calls. The code does not keep this on
    [toggle(a)], [stop()], [toggle(b)] with the first [speakText] still
    awaited: [stop] frees the lock, the second toggle takes it again, so two
    requests are in flight; when the first answer is decoded the lock is held
    (by the second request) and the check of line 240 lets it start a source;
    the second answer starts another one. Two source nodes render audio at
    once, and the first is no longer referenced, so [stopAudio] cannot halt
    it. *)
Theorem C1_stop_then_toggle_two_sources :
  let trace := stop_then_toggle in
  tasks (App.run (take 3 trace) initialPlayback) = [AwaitSpeak "a"; AwaitSpeak "b"]
  ∧ active_sources (App.run (take 5 trace) initialPlayback) = 1%nat
  ∧ active_sources (App.run trace initialPlayback) = 2%nat
  ∧ sources (App.run trace initialPlayback) = [playing; playing]
  ∧ activeAudioSourceRef (App.run trace initialPlayback) = Some 1%nat
  ∧ sources (App.stopAudio (App.run trace initialPlayback)) = [playing; stopped].
Proof. vm_compute. repeat split. Qed.

(** ** Local persistence: loading *)

(** the test [saved ? .. : ..] fails for [null] and for the empty string *)
Lemma truthy_string_None o : truthy_string o = None ↔ o = None ∨ o = Some "".
Proof.
  unfold truthy_string. destruct o as [s|]; [|tauto].
  destruct (decide (s = "")) as [->|Hne].
  - tauto.
  - split; [discriminate|]. intros [|[= ?]]; [discriminate | contradiction].
Qed.

Lemma truthy_string_Some o s : truthy_string o = Some s ↔ o = Some s ∧ s ≠ "".
Proof.
  unfold truthy_string. destruct o as [s'|]; [|split; [discriminate | intros [? _]; discriminate]].
  destruct (decide (s' = "")) as [->|Hne].
  - split; [discriminate|]. intros [[= <-] Hne]. contradiction.
  - split; [intros [= <-]; auto | intros [[= <-] _]; reflexivity].
Qed.

(** the initialiser of a collection throws exactly on a stored, non-empty
    text that [JSON.parse] rejects *)
Lemma load_collection_throws_iff key (localStorage : gmap string string) :
  Storage.load_collection key localStorage = Storage.Throws ↔
  ∃ saved, Storage.getItem key localStorage = Some saved ∧ saved ≠ ""
           ∧ JSON.parse saved = JSON.SyntaxError.
Proof.
  unfold Storage.load_collection.
  destruct (truthy_string (Storage.getItem key localStorage)) as [saved|] eqn:Ht.
  - apply truthy_string_Some in Ht. destruct Ht as [Hs Hne].
    pose proof (parse_has_fuel saved) as Hfuel.
    destruct (JSON.parse saved) as [v r| |] eqn:Hp.
    + split; [discriminate|]. intros (saved' & Hs' & _ & Hp').
      rewrite Hs in Hs'. injection Hs' as <-. rewrite Hp in Hp'. discriminate.
    + split; [|reflexivity]. intros _. exists saved. auto.
    + contradiction.
  - apply truthy_string_None in Ht. split; [discriminate|].
    intros (saved & Hs & Hne & _). destruct Ht as [Ht|Ht]; rewrite Hs in Ht.
    + discriminate.
    + injection Ht as ->. contradiction.
Qed.

(** a stored text that is not JSON: the initialiser of [favorites] throws *)
Lemma C6_corrupt_favorites_throws :
  JSON.parse "{" = JSON.SyntaxError
  ∧ Storage.load_favorites ({[ "lumina-favorites" := "{" ]} : gmap string string)
    = Storage.Throws
  ∧ Storage.load_favorites ({[ "lumina-favorites" := "{" ]} : gmap string string)
    ≠ Storage.Value (JSON.Arr []).
Proof.
  assert (Hload : Storage.load_favorites
                    ({[ "lumina-favorites" := "{" ]} : gmap string string)
                  = Storage.Throws).
  { unfold Storage.load_favorites, Storage.load_collection, Storage.getItem.
    rewrite lookup_singleton_eq. reflexivity. }
  split; [reflexivity|]. split; [exact Hload|].
  rewrite Hload. discriminate.
Qed.

(** C6 (amended). A key that is missing, or holds the empty string, loads as
    its default and nothing is raised: the empty array for [favorites],
    [journals] and [history], ['English'] for the language, the system colour
    scheme for the theme. The language and the theme are total: a stored
    language is returned as it is, the theme is dark exactly when the stored
    text is ['dark']. A stored collection that is valid JSON loads as the
    value [JSON.parse] gives. *)
Theorem C6_missing_key_loads_default :
  ∀ (localStorage : gmap string string) (prefersDark : bool),
    (∀ key, Storage.getItem key localStorage = None
            ∨ Storage.getItem key localStorage = Some "" →
            Storage.load_collection key localStorage = Storage.Value (JSON.Arr []))
    ∧ (Storage.getItem "lumina-favorites" localStorage = None →
       Storage.load_favorites localStorage = Storage.Value (JSON.Arr []))
    ∧ (Storage.getItem "lumina-journals" localStorage = None →
       Storage.load_journals localStorage = Storage.Value (JSON.Arr []))
    ∧ (Storage.getItem "lumina-history" localStorage = None →
       Storage.load_history localStorage = Storage.Value (JSON.Arr []))
    ∧ (Storage.getItem "lumina-lang" localStorage = None
       ∨ Storage.getItem "lumina-lang" localStorage = Some "" →
       Storage.load_language localStorage = "English")
    ∧ (Storage.getItem "lumina-theme" localStorage = None
       ∨ Storage.getItem "lumina-theme" localStorage = Some "" →
       Storage.load_isDarkMode prefersDark localStorage = prefersDark)
    ∧ (∀ saved, Storage.getItem "lumina-lang" localStorage = Some saved → saved ≠ "" →
                Storage.load_language localStorage = saved)
    ∧ (∀ saved, Storage.getItem "lumina-theme" localStorage = Some saved → saved ≠ "" →
                Storage.load_isDarkMode prefersDark localStorage
                = bool_decide (saved = "dark"))
    ∧ (∀ key saved v, Storage.getItem key localStorage = Some saved → saved ≠ "" →
                      JSON.parse saved = JSON.Parsed v "" →
                      Storage.load_collection key localStorage = Storage.Value v)
    ∧ (∀ key, Storage.load_collection key localStorage = Storage.Throws ↔
              ∃ saved, Storage.getItem key localStorage = Some saved ∧ saved ≠ ""
                       ∧ JSON.parse saved = JSON.SyntaxError).
Proof.
  intros localStorage prefersDark.
  assert (Hcoll : ∀ key, Storage.getItem key localStorage = None
            ∨ Storage.getItem key localStorage = Some "" →
            Storage.load_collection key localStorage = Storage.Value (JSON.Arr [])).
  { intros key Hmiss. apply truthy_string_None in Hmiss.
    unfold Storage.load_collection. rewrite Hmiss. reflexivity. }
  split_and!.
  - exact Hcoll.
  - intros Hm. apply Hcoll. auto.
  - intros Hm. apply Hcoll. auto.
  - intros Hm. apply Hcoll. auto.
  - intros Hmiss. apply truthy_string_None in Hmiss.
    unfold Storage.load_language, str_or. rewrite Hmiss. reflexivity.
  - intros Hmiss. apply truthy_string_None in Hmiss.
    unfold Storage.load_isDarkMode. rewrite Hmiss. reflexivity.
  - intros saved Hs Hne.
    unfold Storage.load_language, str_or.
    rewrite (proj2 (truthy_string_Some _ saved) (conj Hs Hne)). reflexivity.
  - intros saved Hs Hne.
    unfold Storage.load_isDarkMode.
    rewrite (proj2 (truthy_string_Some _ saved) (conj Hs Hne)). reflexivity.
  - intros key saved v Hs Hne Hparse.
    unfold Storage.load_collection.
    rewrite (proj2 (truthy_string_Some _ saved) (conj Hs Hne)), Hparse. reflexivity.
  - intros key. apply load_collection_throws_iff.
Qed.

Lemma C6_missing_key_loads_default_witness :
  Storage.getItem "lumina-favorites" (∅ : gmap string string) = None
  ∧ Storage.load_favorites (∅ : gmap string string) = Storage.Value (JSON.Arr [])
  ∧ Storage.load_language (∅ : gmap string string) = "English"
  ∧ Storage.load_isDarkMode true (∅ : gmap string string) = true.
Proof.
  pose proof (C6_missing_key_loads_default ∅ true)
    as (_ & Hfav & _ & _ & Hlang & Htheme & _).
  split; [reflexivity|].
  split; [apply Hfav; reflexivity|].
  split; [apply Hlang; left; reflexivity|].
  apply Htheme. left. reflexivity.
Defined.

(** stored values that are no language and no theme are taken as they are *)
Example unknown_language_is_kept :
  Storage.load_language ({[ "lumina-lang" := "Klingon" ]} : gmap string string) = "Klingon"
  ∧ Storage.load_isDarkMode true ({[ "lumina-theme" := "blue" ]} : gmap string string)
    = false.
Proof.
  unfold Storage.load_language, Storage.load_isDarkMode, Storage.getItem.
  rewrite !lookup_singleton_eq. split; reflexivity.
Qed.

(** ** Capture controller and transcription *)

Lemma pending_searches_insert (l : list Call) i c c' :
  l !! i = Some c → search_of c = None → search_of c' = None →
  omap search_of (<[i := c']> l) = omap search_of l.
Proof.
  intros Hi Hc Hc'.
  rewrite insert_take_drop by (eapply lookup_lt_Some; eassumption).
  rewrite <- (take_drop_middle l i c Hi) at 3.
  rewrite !omap_app. simpl. rewrite Hc, Hc'. reflexivity.
Qed.

Lemma pending_searches_issue c s :
  search_of c = None → pending_searches (issue c s) = pending_searches s.
Proof.
  intros Hc. unfold pending_searches, issue. simpl.
  fold search_of. rewrite omap_app. simpl. rewrite Hc. apply app_nil_r.
Qed.

Section Capture.
Context `{Platform}.

(** what [transcribeAudio] returns: the trimmed text, or the empty string
    when the answer has no text *)
Lemma transcribeAudio_empty_iff response :
  GeminiService.transcribeAudio response = Some ""
  ↔ ∃ r, response = Some r
         ∧ (text r = None ∨ ∃ t, text r = Some t ∧ trim t = "").
Proof.
  unfold GeminiService.transcribeAudio. destruct response as [r|]; simpl.
  - destruct (text r) as [t|] eqn:Htext; simpl.
    + split.
      * intros [= Ht]. exists r. split; [reflexivity|]. right.
        exists t. split; [exact Htext | exact Ht].
      * intros (r' & [= <-] & [Hnone | (t' & Hsome & Ht)]).
        -- rewrite Htext in Hnone. discriminate.
        -- rewrite Htext in Hsome. injection Hsome as <-. rewrite Ht. reflexivity.
    + split; [|reflexivity]. intros _. exists r. auto.
  - split; [discriminate|]. intros (r & ? & _). discriminate.
Qed.

(** a clip without chunks is read as an empty payload: the empty string, or
    [undefined] where the engine renders the empty blob as a bare [data:] *)
Lemma empty_clip_payload :
  blob_size (new_Blob [] "audio/webm") = 0%nat
  ∧ str_or (String_split "," (readAsDataURL (new_Blob [] "audio/webm")) !! 1%nat) "" = "".
Proof.
  split; [reflexivity|].
  unfold readAsDataURL. simpl. destruct bareEmptyDataURL; reflexivity.
Qed.

(** a transcription that is empty, or a failed call, starts no search and
    leaves view, collections and playback alone *)
Lemma transcribed_without_text i payload response s :
  calls s !! i = Some (AwaitTranscribe payload) →
  GeminiService.transcribeAudio response = Some ""
  ∨ GeminiService.transcribeAudio response = None →
  let s' := transcribed i response s in
  pending_searches s' = pending_searches s
  ∧ view s' = view s ∧ library s' = library s ∧ audio s' = audio s
  ∧ isTranscribing (capture s') = false
  ∧ filter is_alert (effects s') = filter is_alert (effects s).
Proof.
  intros Hi Hresp. unfold transcribed. rewrite Hi.
  assert (Hp : pending_searches (finish i s) = pending_searches s).
  { unfold pending_searches, finish. simpl. fold search_of.
    eapply pending_searches_insert; [exact Hi | reflexivity | reflexivity]. }
  destruct Hresp as [-> | ->]; simpl.
  - split_and!; try reflexivity. exact Hp.
  - split_and!; try reflexivity.
    + exact Hp.
    + rewrite filter_app. simpl. apply app_nil_r.
Qed.

(** a search started by the recorder is a search for a non-empty
    transcription *)
Lemma transcribed_search_has_text i response s :
  pending_searches (transcribed i response s) ≠ pending_searches s →
  ∃ t, GeminiService.transcribeAudio response = Some t ∧ t ≠ "".
Proof.
  intros Hchanged.
  destruct (calls s !! i) as [c|] eqn:Hi.
  2:{ exfalso. apply Hchanged. unfold transcribed. rewrite Hi. reflexivity. }
  destruct c as [b|payload|q|];
    try (exfalso; apply Hchanged; unfold transcribed; rewrite Hi; reflexivity).
  destruct (GeminiService.transcribeAudio response) as [t|] eqn:Ht.
  - destruct (decide (t = "")) as [->|Hne].
    + exfalso. apply Hchanged.
      apply (transcribed_without_text i payload response s Hi). auto.
    + eauto.
  - exfalso. apply Hchanged.
    apply (transcribed_without_text i payload response s Hi). auto.
Qed.

(** C9. A recording stopped with no captured chunk: [onstop] builds a blob of
    size zero, the reader hands [transcribeAudio] an empty payload, and when
    [transcribeAudio] returns the empty string (the answer has no text, or
    only white space) no search is started: no call to [searchBookDetails] is
    issued, the view, the collections and the playback are untouched, and the
    transcribing indicator is off again. In general a search started from a
    transcription is a search for a non-empty text. *)
Theorem C9_empty_transcription_starts_no_search :
  ∀ (s : AppState) (response : option Response),
    GeminiService.transcribeAudio response = Some "" →
    (audioChunksRef (capture s) = [] →
       let i := length (calls s) in
       let s1 := onstop s in
       let s2 := onloadend i s1 in
       let s3 := transcribed i response s2 in
       ∃ audioBlob payload,
         calls s1 !! i = Some (ReadingBlob audioBlob)
         ∧ blob_size audioBlob = 0%nat
         ∧ calls s2 !! i = Some (AwaitTranscribe payload)
         ∧ str_or payload "" = ""
         ∧ isTranscribing (capture s2) = true
         ∧ pending_searches s3 = pending_searches s
         ∧ view s3 = view s ∧ library s3 = library s ∧ audio s3 = audio s
         ∧ isTranscribing (capture s3) = false)
    ∧ (∀ i payload, calls s !! i = Some (AwaitTranscribe payload) →
         let s' := transcribed i response s in
         pending_searches s' = pending_searches s
         ∧ view s' = view s ∧ library s' = library s ∧ audio s' = audio s)
    ∧ (∀ i response' s0,
         pending_searches (transcribed i response' s0) ≠ pending_searches s0 →
         ∃ t, GeminiService.transcribeAudio response' = Some t ∧ t ≠ "").
Proof.
  intros s response Hempty. split_and!.
  - intros Hchunks i s1 s2 s3.
    assert (H1 : calls s1 !! i = Some (ReadingBlob (new_Blob [] "audio/webm"))).
    { subst s1 i. unfold onstop, issue. simpl. rewrite Hchunks.
      apply list_lookup_middle. reflexivity. }
    assert (H2 : calls s2 !! i
                 = Some (AwaitTranscribe
                           (String_split "," (readAsDataURL (new_Blob [] "audio/webm"))
                              !! 1%nat))).
    { subst s2. unfold onloadend. rewrite H1. unfold setIsTranscribing. simpl.
      apply list_lookup_insert_eq. eapply lookup_lt_Some. exact H1. }
    destruct (transcribed_without_text i _ response s2 H2 (or_introl Hempty))
      as (T1 & T2 & T3 & T4 & T5 & _).
    fold s3 in T1, T2, T3, T4, T5.
    assert (P2 : pending_searches s2 = pending_searches s).
    { subst s2. unfold onloadend. rewrite H1.
      unfold pending_searches, setIsTranscribing. simpl. fold search_of.
      erewrite pending_searches_insert; [|exact H1|reflexivity|reflexivity].
      subst s1. apply (pending_searches_issue (ReadingBlob _)). reflexivity. }
    assert (V2 : view s2 = view s ∧ library s2 = library s ∧ audio s2 = audio s
                 ∧ isTranscribing (capture s2) = true).
    { subst s2. unfold onloadend. rewrite H1. subst s1. split_and!; reflexivity. }
    destruct V2 as (V & L & A & Tr).
    exists (new_Blob [] "audio/webm"),
      (String_split "," (readAsDataURL (new_Blob [] "audio/webm")) !! 1%nat).
    split_and!; try assumption.
    + apply empty_clip_payload.
    + apply empty_clip_payload.
    + congruence.
    + congruence.
    + congruence.
    + congruence.
  - intros i payload Hi s'.
    destruct (transcribed_without_text i payload response s Hi (or_introl Hempty))
      as (T1 & T2 & T3 & T4 & _).
    auto.
  - intros i response' s0. apply transcribed_search_has_text.
Qed.

End Capture.

Lemma C9_empty_transcription_starts_no_search_witness :
  @GeminiService.transcribeAudio asciiPlatform (Some (mkResponse None (Some "  ") None))
  = Some ""
  ∧ audioChunksRef (capture (startRecording true initialApp)) = []
  ∧ pending_searches
      (@transcribed asciiPlatform 0 (Some (mkResponse None (Some "  ") None))
         (@onloadend asciiPlatform 0 (onstop (startRecording true initialApp))))
    = pending_searches (startRecording true initialApp).
Proof.
  assert (Hempty : @GeminiService.transcribeAudio asciiPlatform
                     (Some (mkResponse None (Some "  ") None)) = Some "").
  { vm_compute. reflexivity. }
  split; [exact Hempty|]. split; [reflexivity|].
  destruct (proj1 (@C9_empty_transcription_starts_no_search asciiPlatform
                     (startRecording true initialApp) _ Hempty) eq_refl)
    as (audioBlob & payload & _ & _ & _ & _ & _ & Hp & _).
  exact Hp.
Defined.

(** a transcription with text starts the search for it *)
Example transcription_starts_search :
  pending_searches
    (@transcribed asciiPlatform 0 (Some (mkResponse None (Some " Dune ") None))
       (@onloadend asciiPlatform 0 (onstop (startRecording true initialApp))))
  = ["Dune"].
Proof. vm_compute. reflexivity. Qed.

(** ** Content Service client: the title of a search result *)

Section Search.
Context `{Platform}.

Lemma searchBookDetails_title query mapsResponse searchResponse infoResponse r :
  GeminiService.searchBookDetails query mapsResponse searchResponse infoResponse = Some r →
  BookResult.title r = query.
Proof.
  unfold GeminiService.searchBookDetails. intros Hr.
  destruct mapsResponse as [m|]; simpl in Hr; [|discriminate].
  destruct (GeminiService.locations_of _) as [locs|]; simpl in Hr; [|discriminate].
  destruct searchResponse as [sr|]; simpl in Hr; [|discriminate].
  destruct infoResponse as [ir|]; simpl in Hr; [|discriminate].
  destruct (destructure _) as [[[[[author summary] isbn] authorBio] awards]|];
    simpl in Hr; [|discriminate].
  destruct (truthy isbn); simpl in Hr.
  - injection Hr as <-. reflexivity.
  - destruct (encodeURIComponent query); simpl in Hr; [|discriminate].
    injection Hr as <-. reflexivity.
Qed.

Lemma searchBookDetails2_title query mapsResponse searchResponse infoResponse r :
  GeminiService2.searchBookDetails query mapsResponse searchResponse infoResponse = Some r →
  BookResult.title r = query.
Proof.
  unfold GeminiService2.searchBookDetails. intros Hr.
  destruct mapsResponse as [m|]; simpl in Hr; [|discriminate].
  destruct searchResponse as [sr|]; simpl in Hr; [|discriminate].
  destruct infoResponse as [ir|]; simpl in Hr; [|discriminate].
  destruct (destructure _) as [[[[[author summary] isbn] authorBio] awards]|];
    simpl in Hr; [|discriminate].
  destruct (GeminiService2.usable_isbn isbn) as [[]|]; simpl in Hr; [| |discriminate].
  - injection Hr as <-. reflexivity.
  - destruct (encodeURIComponent query); simpl in Hr; [|discriminate].
    injection Hr as <-. reflexivity.
Qed.

(** When the three calls are answered and the metadata is not JSON, the
    second revision does return a result, built from the placeholder. *)
Lemma searchBookDetails2_returns_placeholder query m sr ir q :
  JSON.parse (str_or (text ir) "{}") = JSON.SyntaxError →
  encodeURIComponent query = Some q →
  ∃ r, GeminiService2.searchBookDetails query (Some m) (Some sr) (Some ir) = Some r
       ∧ BookResult.title r = query
       ∧ BookResult.author r = JSON.Str "Various Contributors"
       ∧ BookResult.summary r = JSON.Str "Search details unavailable.".
Proof.
  intros Hparse Hq. unfold GeminiService2.searchBookDetails. simpl.
  unfold GeminiService2.bookInfo_of. rewrite Hparse. simpl.
  rewrite Hq. simpl. eexists. split_and!; reflexivity.
Qed.

(** C10. Whatever the three answers of the model are, a result returned by
    [searchBookDetails], in either revision of the client, has the query as
    its title: a ["title"] member of the model's JSON is never read. The same
    holds for the history entry the application records. *)
Theorem C10_result_title_is_query :
  ∀ (query : string) (mapsResponse searchResponse infoResponse : option Response)
    (r : BookResult.t),
    GeminiService.searchBookDetails query mapsResponse searchResponse infoResponse = Some r
    ∨ GeminiService2.searchBookDetails query mapsResponse searchResponse infoResponse
      = Some r →
    BookResult.title r = query
    ∧ ∀ i now_id now_ts s,
        HistoryEntry.query <$> head (history (library
          (handleSearch_settled i query (Some r) now_id now_ts s))) = Some query
        ∧ (BookResult.title ∘ HistoryEntry.result) <$> head (history (library
            (handleSearch_settled i query (Some r) now_id now_ts s))) = Some query.
Proof.
  intros query mapsResponse searchResponse infoResponse r Hr.
  assert (Ht : BookResult.title r = query).
  { destruct Hr as [Hr|Hr];
      [eapply searchBookDetails_title | eapply searchBookDetails2_title]; exact Hr. }
  split; [exact Ht|].
  intros i now_id now_ts s. simpl. rewrite Ht. split; reflexivity.
Qed.

End Search.

Lemma C10_result_title_is_query_witness :
  ∃ r, @GeminiService.searchBookDetails asciiPlatform "Dune"
         (Some (mkResponse None None None))
         (Some (mkResponse None None None))
         (Some (mkResponse None (Some sampleInfoText) None))
       = Some r
       ∧ BookResult.title r = "Dune"
       ∧ BookResult.author r = JSON.Str "Frank Herbert".
Proof.
  eexists. split; [vm_compute; reflexivity|].
  split; [|reflexivity].
  refine (proj1 (@C10_result_title_is_query asciiPlatform "Dune"
                   (Some (mkResponse None None None))
                   (Some (mkResponse None None None))
                   (Some (mkResponse None (Some sampleInfoText) None)) _ _)).
  left. vm_compute. reflexivity.
Defined.

(** ** Playback controller: what the lock guarantees without [stopAudio] *)

Lemma count_app {A} (f : A → bool) l1 l2 : count f (l1 ++ l2) = (count f l1 + count f l2)%nat.
Proof. induction l1 as [|x l1 IH]; simpl; [reflexivity|]. rewrite IH. lia. Qed.

Lemma count_insert {A} (f : A → bool) (l : list A) i x y :
  l !! i = Some x →
  (count f (<[i := y]> l) + (if f x then 1 else 0)
   = count f l + (if f y then 1 else 0))%nat.
Proof.
  intros Hi.
  rewrite insert_take_drop by (eapply lookup_lt_Some; eassumption).
  rewrite <- (take_drop_middle l i x Hi) at 3.
  rewrite !count_app. simpl. lia.
Qed.

Lemma count_le {A} (f g : A → bool) (l : list A) :
  (∀ x, f x = true → g x = true) → (count f l ≤ count g l)%nat.
Proof.
  intros Hfg. induction l as [|x l IH]; simpl; [lia|].
  destruct (f x) eqn:Hf; [rewrite (Hfg x Hf)|]; destruct (g x); lia.
Qed.

Lemma active_le_live p : (active_sources p ≤ live_sources p)%nat.
Proof. apply count_le. intros []; simpl; congruence. Qed.

Lemma lock_invariant_step p e :
  e ≠ Stop → lock_invariant p → lock_invariant (App.step p e).
Proof.
  unfold lock_invariant, in_flight, live_sources.
  intros Hns Hinv.
  destruct p as [ctx src lock pl pa lo srcs ts lg]. simpl in Hinv.
  destruct e as [text| |i o|k]; [| contradiction | |]; simpl.
  - (* Toggle *)
    unfold App.handleAudioToggle. simpl.
    destruct lock; [exact Hinv|].
    destruct pl.
    + destruct pa; [unfold App.resumeAudio | unfold App.pauseAudio]; simpl;
        destruct ctx as [[]|]; simpl; rewrite ?count_app; simpl; lia.
    + destruct (truthy_string text); simpl; [|exact Hinv].
      rewrite count_app. simpl. lia.
  - (* Settle *)
    unfold App.settle. simpl.
    destruct (ts !! i) as [t|] eqn:Hi; [|exact Hinv].
    assert (Hdone := count_insert is_start ts i t Done Hi).
    destruct t as [text|audio|audio| | |]; simpl in Hdone.
    + destruct o as [v|error].
      * unfold App.startAudioPlayback_spoken.
        destruct (truthy_string v) as [audio|]; simpl.
        -- pose proof (count_insert is_start ts i _ (AwaitDecode audio) Hi) as Hd.
           pose proof (count_insert is_start ts i _ (AwaitCtxResume audio) Hi) as Hr.
           simpl in Hd, Hr.
           destruct ctx as [[]|]; simpl; lia.
        -- destruct lock; lia.
      * unfold App.startAudioPlayback_catch. simpl. destruct lock; lia.
    + destruct o as [v|error].
      * pose proof (count_insert is_start ts i _ (AwaitDecode audio) Hi) as Hd.
        simpl in Hd. unfold App.startAudioPlayback_decode. simpl. lia.
      * unfold App.startAudioPlayback_catch. simpl. destruct lock; lia.
    + destruct o as [v|error].
      * unfold App.startAudioPlayback_decoded. simpl.
        destruct lock; simpl; [|lia].
        rewrite insert_app_r_alt by lia. rewrite Nat.sub_diag. simpl.
        rewrite count_app. simpl. lia.
      * unfold App.startAudioPlayback_catch. simpl. destruct lock; lia.
    + destruct o; simpl; lia.
    + destruct o; simpl; lia.
    + exact Hinv.
  - (* Ended *)
    unfold App.dispatch_ended. simpl.
    destruct (srcs !! k) as [st|] eqn:Hk; [|exact Hinv].
    pose proof (count_insert is_live srcs k st ended Hk) as He. simpl in He.
    destruct st; simpl in *; try exact Hinv; destruct lock; lia.
Qed.

Lemma lock_invariant_reached p : reached_without_stop p → lock_invariant p.
Proof.
  induction 1 as [|p e _ IH Hns]; [reflexivity|].
  apply lock_invariant_step; assumption.
Qed.

(** Without a call of [stopAudio], whatever the toggles, the answers of the
    service and the ended events: never more than one request in flight, never
    more than one source playing, and none of either while the lock is free. *)
Lemma at_most_one_source_without_stop p :
  reached_without_stop p →
  (active_sources p ≤ 1)%nat ∧ (in_flight p ≤ 1)%nat
  ∧ (isAudioLockedRef p = false → active_sources p = 0%nat ∧ in_flight p = 0%nat).
Proof.
  intros Hr. apply lock_invariant_reached in Hr. unfold lock_invariant in Hr.
  pose proof (active_le_live p).
  destruct (isAudioLockedRef p); split_and!; try lia; intros; try discriminate; lia.
Qed.

(** ** Playback controller: what holds while [stopAudio] is not called *)

Lemma count_lookup_pos {A} (f : A → bool) (l : list A) k x :
  l !! k = Some x → f x = true → (1 ≤ count f l)%nat.
Proof.
  intros Hk Hf. rewrite <- (take_drop_middle l k x Hk), count_app. simpl.
  rewrite Hf. lia.
Qed.

Lemma count_zero_false {A} (f : A → bool) (l : list A) k x :
  count f l = 0%nat → l !! k = Some x → f x = false.
Proof.
  intros Hz Hk. destruct (f x) eqn:Hf; [|reflexivity].
  pose proof (count_lookup_pos f l k x Hk Hf). lia.
Qed.

Lemma stop_free_invariant_initial : stop_free_invariant initialPlayback.
Proof.
  constructor; simpl; try reflexivity; try discriminate;
    try (split; discriminate).
Qed.

Ltac invariant_fields :=
  constructor; unfold lock_invariant, in_flight, live_sources; simpl;
  rewrite ?count_app; simpl; auto; try lia; try discriminate;
  try solve [split; intros; first [lia | discriminate | reflexivity]];
  try solve [intuition lia].

Lemma stop_free_invariant_step p e :
  e ≠ Stop → stop_free_invariant p → stop_free_invariant (App.step p e).
Proof.
  intros Hns [Hlock Hload Hplay Hpaused Hctx Htasks Hsrc].
  destruct p as [ctx src lock pl pa lo srcs ts lg].
  unfold lock_invariant, in_flight, live_sources in *. simpl in *. subst pa.
  destruct e as [text| |i o|k]; [| contradiction | |]; simpl.
  - (* Toggle *)
    unfold App.handleAudioToggle. simpl.
    destruct lock; [invariant_fields|].
    assert (pl = false) as ->.
    { destruct pl; [|reflexivity]. pose proof (proj1 Hplay eq_refl). lia. }
    destruct (truthy_string text) as [t|]; invariant_fields.
  - (* Settle *)
    unfold App.settle. simpl.
    destruct (ts !! i) as [t|] eqn:Hi; [|invariant_fields].
    pose proof (count_insert is_start ts i t Done Hi) as Hs_done.
    pose proof (count_insert is_pause ts i t Done Hi) as Hp_done.
    assert (Hnot_pause : is_pause t = false).
    { eapply count_zero_false; eassumption. }
    assert (Hstart_locked : is_start t = true →
              lock = true ∧ count is_start ts = 1%nat ∧ count is_live srcs = 0%nat
              ∧ pl = false).
    { intros Hst. pose proof (count_lookup_pos is_start ts i t Hi Hst).
      destruct lock; [|lia]. split_and!; try lia; try reflexivity.
      destruct pl; [|reflexivity]. pose proof (proj1 Hplay eq_refl). lia. }
    assert (Hfail : ∀ lg', is_start t = true →
              stop_free_invariant
                (mkPlayback ctx src false pl false false srcs (<[i := Done]> ts) lg')).
    { intros lg' Hst. destruct (Hstart_locked Hst) as (-> & Hone & Hzero & ->).
      rewrite Hst in Hs_done. rewrite Hnot_pause in Hp_done. simpl in *.
      invariant_fields. }
    destruct t as [text|audio|audio| | |]; simpl in Hnot_pause; try discriminate.
    + (* AwaitSpeak *)
      destruct o as [v|error]; [|apply Hfail; reflexivity].
      unfold App.startAudioPlayback_spoken.
      destruct (truthy_string v) as [audio|]; [|apply Hfail; reflexivity].
      destruct (Hstart_locked eq_refl) as (-> & Hone & Hzero & ->).
      pose proof (count_insert is_start ts i _ (AwaitDecode audio) Hi) as Hd.
      pose proof (count_insert is_pause ts i _ (AwaitDecode audio) Hi) as Hpd.
      simpl in Hd, Hpd.
      destruct ctx as [[]|]; [| contradiction |]; simpl; invariant_fields.
    + (* AwaitCtxResume *)
      destruct o as [v|error]; [|apply Hfail; reflexivity].
      destruct (Hstart_locked eq_refl) as (-> & Hone & Hzero & ->).
      pose proof (count_insert is_start ts i _ (AwaitDecode audio) Hi) as Hd.
      pose proof (count_insert is_pause ts i _ (AwaitDecode audio) Hi) as Hpd.
      simpl in Hd, Hpd. unfold App.startAudioPlayback_decode. simpl.
      invariant_fields.
    + (* AwaitDecode *)
      destruct o as [v|error]; [|apply Hfail; reflexivity].
      destruct (Hstart_locked eq_refl) as (-> & Hone & Hzero & ->).
      unfold App.startAudioPlayback_decoded. simpl.
      rewrite insert_app_r_alt by lia. rewrite Nat.sub_diag. simpl.
      simpl in Hs_done, Hp_done.
      invariant_fields.
      intros k st Hk.
      destruct (decide (k < length srcs)%nat) as [Hlt|Hge].
      * rewrite lookup_app_l in Hk by exact Hlt.
        pose proof (count_zero_false is_live srcs k st Hzero Hk) as Hnl.
        destruct (Hsrc k st Hk) as [-> | [-> _]]; [left; reflexivity|discriminate].
      * rewrite lookup_app_r in Hk by lia.
        destruct (k - length srcs)%nat as [|n] eqn:Hd; simpl in Hk; [|discriminate].
        injection Hk as <-. right. split; [reflexivity|]. f_equal. lia.
    + (* Done *)
      invariant_fields.
  - (* Ended *)
    unfold App.dispatch_ended. simpl.
    destruct (srcs !! k) as [st|] eqn:Hk; [|invariant_fields].
    destruct (Hsrc k st Hk) as [-> | [-> Href]]; [invariant_fields|].
    simpl in Href. subst src.
    pose proof (count_insert is_live srcs k playing ended Hk) as He. simpl in He.
    pose proof (count_lookup_pos is_live srcs k playing Hk eq_refl) as Hpos.
    destruct lock; [|lia].
    unfold App.onended. simpl.
    invariant_fields.
    intros k' st' Hk'.
    destruct (decide (k' = k)) as [->|Hne].
    + rewrite list_lookup_insert_eq in Hk' by (eapply lookup_lt_Some; eassumption).
      injection Hk' as <-. left. reflexivity.
    + rewrite list_lookup_insert_ne in Hk' by auto.
      destruct (Hsrc k' st' Hk') as [-> | [-> Href']]; [left; reflexivity|].
      simpl in Href'. congruence.
Qed.

Lemma stop_free_invariant_reached p : reached_without_stop p → stop_free_invariant p.
Proof.
  induction 1 as [|p e _ IH Hns]; [apply stop_free_invariant_initial|].
  apply stop_free_invariant_step; assumption.
Qed.

Lemma reached_run es p :
  reached_without_stop p → Forall (λ e, e ≠ Stop) es →
  reached_without_stop (App.run es p).
Proof.
  revert p. induction es as [|e es IH]; intros p Hp Hes; [exact Hp|].
  inversion Hes as [|? ? He Hes']; subst.
  apply (IH (App.step p e)); [|exact Hes'].
  apply reached_step; assumption.
Qed.

Lemma count_none {A} (f : A → bool) (l : list A) :
  (∀ k x, l !! k = Some x → f x = false) → count f l = 0%nat.
Proof.
  induction l as [|x l IH]; intros Hall; simpl; [reflexivity|].
  rewrite (Hall 0%nat x eq_refl). rewrite IH; [reflexivity|].
  intros k y Hk. exact (Hall (S k) y Hk).
Qed.

Lemma count_agree {A} (f g : A → bool) (l : list A) :
  (∀ k x, l !! k = Some x → f x = g x) → count f l = count g l.
Proof.
  induction l as [|x l IH]; intros Hall; simpl; [reflexivity|].
  rewrite (Hall 0%nat x eq_refl). rewrite IH; [reflexivity|].
  intros k y Hk. exact (Hall (S k) y Hk).
Qed.

Lemma stop_free_active_is_live p :
  stop_free_invariant p → active_sources p = live_sources p.
Proof.
  intros Hinv. apply count_agree. intros k st Hk.
  destruct (inv_sources p Hinv k st Hk) as [-> | [-> _]]; reflexivity.
Qed.

Lemma stop_free_busy_is_locked p :
  stop_free_invariant p →
  isAudioLoading p = true ∨ isPlayingAudio p = true → isAudioLockedRef p = true.
Proof.
  intros Hinv Hbusy. pose proof (inv_lock p Hinv) as Hlock.
  unfold lock_invariant in Hlock.
  destruct (isAudioLockedRef p); [reflexivity|].
  destruct Hbusy as [Hl|Hp].
  - apply (inv_loading p Hinv) in Hl. lia.
  - apply (inv_playing p Hinv) in Hp. lia.
Qed.

(** X1. While [stopAudio] is not called the flags of the controller tell the
    truth: the loading flag is set exactly while one request is in flight,
    the playing flag exactly while one source plays, a source that plays
    is the one [activeAudioSourceRef] points to, and the requests in flight
    and the sources that play are never more than one together. *)
Theorem flags_are_truthful_without_stop :
  ∀ p, reached_without_stop p →
    (isAudioLoading p = true ↔ in_flight p = 1%nat)
    ∧ (isPlayingAudio p = true ↔ active_sources p = 1%nat)
    ∧ (∀ k, sources p !! k = Some playing → activeAudioSourceRef p = Some k)
    ∧ (isAudioLoading p = true → isPlayingAudio p = false)
    ∧ (in_flight p + active_sources p ≤ 1)%nat.
Proof.
  intros p Hr. apply stop_free_invariant_reached in Hr.
  pose proof (inv_lock p Hr) as Hlock. unfold lock_invariant in Hlock.
  rewrite !(stop_free_active_is_live p Hr).
  split_and!.
  - apply (inv_loading p Hr).
  - apply (inv_playing p Hr).
  - intros k Hk. destruct (inv_sources p Hr k playing Hk) as [|[_ Href]];
      [discriminate | exact Href].
  - intros Hl. apply (inv_loading p Hr) in Hl.
    destruct (isPlayingAudio p) eqn:Hp; [|reflexivity].
    apply (inv_playing p Hr) in Hp. destruct (isAudioLockedRef p); lia.
  - destruct (isAudioLockedRef p); lia.
Qed.

(** X2. While [stopAudio] is not called the pause and resume branch of
    [handleAudioToggle] is never taken: whenever the controller is loading
    or playing the lock is held and a toggle changes nothing, so the paused
    flag stays false, the context is never suspended and no [suspend] or
    [resume] is ever awaited. *)
Theorem pause_is_unreachable_without_stop :
  ∀ p, reached_without_stop p →
    isAudioPaused p = false
    ∧ audioContextRef p ≠ Some suspended
    ∧ (∀ i, tasks p !! i ≠ Some AwaitSuspend ∧ tasks p !! i ≠ Some AwaitResume)
    ∧ (isAudioLoading p = true ∨ isPlayingAudio p = true →
       ∀ text, App.handleAudioToggle text p = p).
Proof.
  intros p Hr. apply stop_free_invariant_reached in Hr.
  split_and!.
  - apply (inv_paused p Hr).
  - apply (inv_ctx p Hr).
  - intros i. split; intros Hi;
      pose proof (count_zero_false is_pause (tasks p) i _ (inv_tasks p Hr) Hi);
      discriminate.
  - intros Hbusy text. apply toggle_while_locked.
    apply stop_free_busy_is_locked; assumption.
Qed.

Lemma pause_is_unreachable_without_stop_witness :
  isPlayingAudio (App.run [Toggle (Some "a"); Settle 0 (Fulfilled (Some "UklGRg=="));
                           Settle 0 (Fulfilled None)] initialPlayback) = true
  ∧ App.handleAudioToggle None
      (App.run [Toggle (Some "a"); Settle 0 (Fulfilled (Some "UklGRg=="));
                Settle 0 (Fulfilled None)] initialPlayback)
    = App.run [Toggle (Some "a"); Settle 0 (Fulfilled (Some "UklGRg=="));
               Settle 0 (Fulfilled None)] initialPlayback.
Proof.
  split; [reflexivity|].
  refine (proj2 (proj2 (proj2 (pause_is_unreachable_without_stop _ _))) _ None).
  - apply reached_run; [apply reached_initial|].
    repeat constructor; discriminate.
  - right. reflexivity.
Defined.

(** X3. The first [stopAudio] always silences the controller: in a state
    reached without [stopAudio], calling it leaves no source playing and the
    controller idle. *)
Theorem first_stop_silences :
  ∀ p, reached_without_stop p →
    active_sources (App.stopAudio p) = 0%nat ∧ is_idle (App.stopAudio p) = true.
Proof.
  intros p Hr. apply stop_free_invariant_reached in Hr.
  rewrite App_stopAudio_eq. split; [|reflexivity].
  unfold active_sources. simpl. apply count_none. intros k st Hk.
  pose proof (halt_active_spec p) as (_ & Hhalt & Hother).
  destruct (activeAudioSourceRef p) as [a|] eqn:Href.
  - destruct (decide (k = a)) as [->|Hne].
    + specialize (Hhalt a eq_refl). destruct st; try reflexivity. contradiction.
    + rewrite Hother in Hk by congruence.
      destruct (inv_sources p Hr k st Hk) as [-> | [-> Hk']]; [reflexivity|].
      congruence.
  - rewrite Hother in Hk by discriminate.
    destruct (inv_sources p Hr k st Hk) as [-> | [-> Hk']]; [reflexivity|].
    congruence.
Qed.

Lemma first_stop_silences_witness :
  active_sources (App.run [Toggle (Some "a"); Settle 0 (Fulfilled (Some "UklGRg=="));
                           Settle 0 (Fulfilled None)] initialPlayback) = 1%nat
  ∧ active_sources
      (App.stopAudio
         (App.run [Toggle (Some "a"); Settle 0 (Fulfilled (Some "UklGRg=="));
                   Settle 0 (Fulfilled None)] initialPlayback)) = 0%nat.
Proof.
  split; [reflexivity|].
  refine (proj1 (first_stop_silences _ _)).
  apply reached_run; [apply reached_initial|].
  repeat constructor; discriminate.
Defined.

Lemma flags_are_truthful_without_stop_witness :
  isAudioLoading (App.run [Toggle (Some "a")] initialPlayback) = true
  ∧ in_flight (App.run [Toggle (Some "a")] initialPlayback) = 1%nat.
Proof.
  split; [reflexivity|].
  refine (proj1 (proj1 (flags_are_truthful_without_stop
                          (App.run [Toggle (Some "a")] initialPlayback) _)) _).
  - apply reached_run; [apply reached_initial|].
    repeat constructor; discriminate.
  - reflexivity.
Defined.

(** ** Playback controller: a stop while the request is in flight *)

Lemma snoc_lookup {A} (l : list A) x : (l ++ [x]) !! length l = Some x.
Proof. apply list_lookup_middle. reflexivity. Qed.

Lemma snoc_insert {A} (l : list A) x y : <[length l := y]> (l ++ [x]) = l ++ [y].
Proof. rewrite insert_app_r_alt by lia. rewrite Nat.sub_diag. reflexivity. Qed.

Lemma App_spoken_audio c src lock pl pa lo srcs ts lg text audio :
  audio ≠ "" → c ≠ Some suspended →
  App.settle (length ts) (Fulfilled (Some audio))
    (mkPlayback c src lock pl pa lo srcs (ts ++ [AwaitSpeak text]) lg)
  = mkPlayback (Some running) src lock pl pa lo srcs (ts ++ [AwaitDecode audio]) lg.
Proof.
  intros Haudio Hc. unfold App.settle. simpl. rewrite snoc_lookup.
  unfold App.startAudioPlayback_spoken, truthy_string.
  rewrite decide_False by exact Haudio.
  destruct c as [[]|]; [| contradiction |]; simpl;
    unfold App.startAudioPlayback_decode, park; simpl; rewrite snoc_insert;
    reflexivity.
Qed.

Lemma App_decoded c src lock pl pa lo srcs ts lg audio v :
  App.settle (length ts) (Fulfilled v)
    (mkPlayback c src lock pl pa lo srcs (ts ++ [AwaitDecode audio]) lg)
  = if lock
    then mkPlayback c (Some (length srcs)) true true false false
           (srcs ++ [playing]) (ts ++ [Done]) lg
    else mkPlayback c src false pl pa lo srcs (ts ++ [Done]) lg.
Proof.
  unfold App.settle. simpl. rewrite snoc_lookup.
  unfold App.startAudioPlayback_decoded, park. simpl. rewrite snoc_insert.
  destruct lock; simpl; [rewrite snoc_insert|]; reflexivity.
Qed.

Lemma Scout_spoken_audio c src lock pl pa lo srcs ts lg text audio :
  audio ≠ "" → c ≠ Some suspended →
  Scout.settle (length ts) (Fulfilled (Some audio))
    (mkPlayback c src lock pl pa lo srcs (ts ++ [AwaitSpeak text]) lg)
  = mkPlayback (Some running) src lock pl pa lo srcs (ts ++ [AwaitDecode audio]) lg.
Proof.
  intros Haudio Hc. unfold Scout.settle. simpl. rewrite snoc_lookup.
  unfold Scout.startAudioPlayback_spoken, truthy_string.
  rewrite decide_False by exact Haudio.
  destruct c as [[]|]; [| contradiction |]; simpl;
    unfold park; simpl; rewrite snoc_insert; reflexivity.
Qed.

Lemma Scout_decoded c src lock pl pa lo srcs ts lg audio v :
  Scout.settle (length ts) (Fulfilled v)
    (mkPlayback c src lock pl pa lo srcs (ts ++ [AwaitDecode audio]) lg)
  = mkPlayback c (Some (length srcs)) lock true pa false
      (srcs ++ [playing]) (ts ++ [Done]) lg.
Proof.
  unfold Scout.settle. simpl. rewrite snoc_lookup.
  unfold Scout.startAudioPlayback_decoded, park. simpl. rewrite !snoc_insert.
  reflexivity.
Qed.

Lemma App_run_cons e es p : App.run (e :: es) p = App.run es (App.step p e).
Proof. reflexivity. Qed.

Lemma Scout_run_cons e es p : Scout.run (e :: es) p = Scout.run es (Scout.step p e).
Proof. reflexivity. Qed.

(** X4. App.tsx: [stopAudio] while [speakText] is awaited cancels the start.
    When the audio arrives and is decoded afterwards, the check of the lock
    (line 240) drops it: no source node is created, nothing is logged, and
    the controller is idle, whatever its state was before the start. *)
Theorem stop_while_loading_cancels_start :
  ∀ (p : Playback) (text audio : string),
    audio ≠ "" →
    let i := length (tasks p) in
    let p' := App.run [Stop; Settle i (Fulfilled (Some audio)); Settle i (Fulfilled None)]
                (App.startAudioPlayback text p) in
    is_idle p' = true
    ∧ sources p' = sources (App.stopAudio p)
    ∧ tasks p' = tasks p ++ [Done]
    ∧ log p' = log p.
Proof.
  intros p text audio Haudio i p'. subst i p'.
  rewrite !App_run_cons.
  change (App.run [] ?q) with q.
  unfold App.step. cbv beta iota.
  rewrite !App_stopAudio_eq.
  destruct p as [ctx src lock pl pa lo srcs ts lg].
  change (halt_active (App.startAudioPlayback text ?q)) with (halt_active q).
  change (audioContextRef (App.startAudioPlayback text ?q)) with (audioContextRef q).
  change (tasks (App.startAudioPlayback text ?q)) with (tasks q ++ [AwaitSpeak text]).
  change (log (App.startAudioPlayback text ?q)) with (log q).
  cbn [tasks log audioContextRef].
  rewrite App_spoken_audio
    by first [assumption | destruct ctx as [[]|]; discriminate].
  rewrite App_decoded.
  split_and!; reflexivity.
Qed.

Lemma stop_while_loading_cancels_start_witness :
  sources (App.run [Toggle (Some "a"); Stop; Settle 0 (Fulfilled (Some "UklGRg=="));
                    Settle 0 (Fulfilled None)] initialPlayback) = []
  ∧ is_idle (App.run [Stop; Settle 0 (Fulfilled (Some "UklGRg=="));
                      Settle 0 (Fulfilled None)]
               (App.startAudioPlayback "a" initialPlayback)) = true.
Proof.
  split; [reflexivity|].
  refine (proj1 (stop_while_loading_cancels_start initialPlayback "a" "UklGRg==" _)).
  discriminate.
Defined.

(** X5. part_001: [stopAudio] while [speakText] is awaited does not cancel
    the start. The lock is not looked at after the decode, so when the audio
    arrives a source node is created and started although the controller
    was stopped: it plays with the lock free. *)
Theorem Scout_stop_while_loading_still_plays :
  ∀ (p : Playback) (text audio : string),
    audio ≠ "" → audioContextRef p ≠ Some suspended →
    let i := length (tasks p) in
    let p' := Scout.run [Stop; Settle i (Fulfilled (Some audio));
                         Settle i (Fulfilled None)]
                (Scout.startAudioPlayback text p) in
    sources p' = sources (Scout.stopAudio p) ++ [playing]
    ∧ activeAudioSourceRef p' = Some (length (sources p))
    ∧ isPlayingAudio p' = true
    ∧ isAudioLockedRef p' = false
    ∧ (1 ≤ active_sources p')%nat.
Proof.
  intros p text audio Haudio Hctx i p'. subst i p'.
  rewrite !Scout_run_cons.
  change (Scout.run [] ?q) with q.
  unfold Scout.step. cbv beta iota.
  rewrite !Scout_stopAudio_eq.
  pose proof (halt_active_spec p) as (Hlen & _ & _).
  destruct p as [ctx src lock pl pa lo srcs ts lg].
  change (halt_active (Scout.startAudioPlayback text ?q)) with (halt_active q).
  change (audioContextRef (Scout.startAudioPlayback text ?q)) with (audioContextRef q).
  change (tasks (Scout.startAudioPlayback text ?q)) with (tasks q ++ [AwaitSpeak text]).
  change (log (Scout.startAudioPlayback text ?q)) with (log q).
  cbn [tasks log audioContextRef sources] in *.
  rewrite Scout_spoken_audio by assumption.
  rewrite Scout_decoded.
  cbn [sources activeAudioSourceRef isPlayingAudio isAudioLockedRef].
  rewrite Hlen.
  split_and!; try reflexivity.
  unfold active_sources. cbn [sources]. rewrite count_app. simpl. lia.
Qed.

Lemma Scout_stop_while_loading_still_plays_witness :
  sources (Scout.run [Toggle (Some "a"); Stop; Settle 0 (Fulfilled (Some "UklGRg=="));
                      Settle 0 (Fulfilled None)] initialPlayback) = [playing]
  ∧ isAudioLockedRef
      (Scout.run [Stop; Settle 0 (Fulfilled (Some "UklGRg=="));
                  Settle 0 (Fulfilled None)]
         (Scout.startAudioPlayback "a" initialPlayback)) = false.
Proof.
  split; [reflexivity|].
  refine (proj1 (proj2 (proj2 (proj2
            (Scout_stop_while_loading_still_plays initialPlayback "a" "UklGRg==" _ _))))).
  - discriminate.
  - discriminate.
Defined.

(** X6. part_001: an answer without audio leaves the controller locked.
    [startAudioPlayback] has no branch for it, so the lock and the loading
    flag stay set although no request is in flight any more; every later
    toggle is ignored, and only [stopAudio] brings the controller back to
    idle. *)
Theorem Scout_no_audio_locks_controller :
  ∀ (p : Playback) (text : string) (v : option string),
    truthy_string v = None →
    let i := length (tasks p) in
    let p' := Scout.settle i (Fulfilled v) (Scout.startAudioPlayback text p) in
    isAudioLockedRef p' = true ∧ isAudioLoading p' = true
    ∧ tasks p' = tasks p ++ [Done]
    ∧ in_flight p' = in_flight p
    ∧ (∀ text', Scout.handleAudioToggle text' p' = p')
    ∧ is_idle (Scout.stopAudio p') = true.
Proof.
  intros p text v Hv i p'. subst i p'.
  destruct p as [ctx src lock pl pa lo srcs ts lg].
  unfold Scout.startAudioPlayback, spawn, Scout.settle. simpl.
  rewrite snoc_lookup. unfold Scout.startAudioPlayback_spoken. rewrite Hv.
  unfold park. simpl. rewrite snoc_insert.
  split_and!; try reflexivity.
  - unfold in_flight. simpl. rewrite count_app. simpl. lia.
  - rewrite Scout_stopAudio_eq. reflexivity.
Qed.

Lemma Scout_no_audio_locks_controller_witness :
  truthy_string (Some "") = None
  ∧ isAudioLockedRef
      (Scout.settle 0 (Fulfilled (Some "")) (Scout.startAudioPlayback "a" initialPlayback))
    = true.
Proof.
  split; [reflexivity|].
  exact (proj1 (Scout_no_audio_locks_controller initialPlayback "a" (Some "") eq_refl)).
Defined.

(** X7. App.tsx, the whole cycle Idle, Loading, Playing, Idle: a start on an
    idle controller whose audio arrives and decodes creates exactly one
    source node, plays it under the lock with the loading flag cleared, and
    the ended event of that node returns the controller to idle with the
    node ended. *)
Theorem playback_life_cycle :
  ∀ (p : Playback) (text audio : string),
    is_idle p = true → audio ≠ "" →
    let i := length (tasks p) in
    let n := length (sources p) in
    let playing_state :=
      App.settle i (Fulfilled None)
        (awaiting_decode i audio p (App.startAudioPlayback text p)) in
    let ended_state := App.dispatch_ended n playing_state in
    (sources playing_state = sources p ++ [playing]
     ∧ activeAudioSourceRef playing_state = Some n
     ∧ isPlayingAudio playing_state = true ∧ isAudioLoading playing_state = false
     ∧ isAudioPaused playing_state = false ∧ isAudioLockedRef playing_state = true)
    ∧ (is_idle ended_state = true
       ∧ sources ended_state = sources p ++ [ended]
       ∧ log ended_state = log p).
Proof.
  intros p text audio Hidle Haudio i n playing_state ended_state.
  destruct (awaiting_decode_spec p text audio Haudio)
    as (Hd & D3 & D4 & D5 & D6 & D7 & D8 & D9).
  fold i in Hd, D3, D4, D5, D6, D7, D8, D9.
  set (pd := awaiting_decode i audio p (App.startAudioPlayback text p)) in *.
  assert (Hplay : playing_state
    = mkPlayback (audioContextRef pd) (Some n) true true false false
        (sources p ++ [playing]) (<[i := Done]> (tasks pd)) (log p)).
  { subst playing_state. unfold App.settle. rewrite Hd.
    unfold App.startAudioPlayback_decoded, park. simpl. rewrite D8. simpl.
    unfold with_sources, setIsAudioPaused, setIsPlayingAudio, setIsAudioLoading,
      with_source, with_tasks. simpl.
    rewrite !D6, D7, D8. subst n. rewrite snoc_insert. reflexivity. }
  assert (Hend : ended_state
    = mkPlayback (audioContextRef pd) None false false false false
        (sources p ++ [ended]) (<[i := Done]> (tasks pd)) (log p)).
  { subst ended_state. rewrite Hplay. unfold App.dispatch_ended. simpl.
    subst n. rewrite snoc_lookup, snoc_insert. reflexivity. }
  rewrite Hplay, Hend. simpl. split_and!; reflexivity.
Qed.

Lemma playback_life_cycle_witness :
  is_idle initialPlayback = true
  ∧ is_idle (App.run [Toggle (Some "a"); Settle 0 (Fulfilled (Some "UklGRg=="));
                      Settle 0 (Fulfilled None); Ended 0] initialPlayback) = true
  ∧ sources (App.dispatch_ended 0
               (App.settle 0 (Fulfilled None)
                  (awaiting_decode 0 "UklGRg==" initialPlayback
                     (App.startAudioPlayback "a" initialPlayback)))) = [ended].
Proof.
  split; [reflexivity|]. split; [reflexivity|].
  refine (proj1 (proj2 (proj2 (playback_life_cycle initialPlayback "a" "UklGRg==" _ _)))).
  - reflexivity.
  - discriminate.
Defined.

(** ** Favorites: toggling *)

Section FavoritesMore.
Context `{Platform}.

Lemma isFavorited_iff l title :
  isFavorited l title = true ↔
  ∃ f, f ∈ favorites l ∧ toLowerCase (BookResult.title f) = toLowerCase title.
Proof.
  unfold isFavorited. rewrite bool_decide_eq_true, Exists_exists. reflexivity.
Qed.

Lemma filter_all {A} (P : A → Prop) `{∀ x, Decision (P x)} (l : list A) :
  (∀ x, x ∈ l → P x) → filter P l = l.
Proof.
  induction l as [|x l IH]; intros Hall; [reflexivity|].
  rewrite filter_cons_True by (apply Hall; left).
  rewrite IH; [reflexivity|]. intros y Hy. apply Hall. right. exact Hy.
Qed.

Lemma isFavorited_after_add book l :
  isFavorited l (BookResult.title book) = false →
  isFavorited (toggleFavorite book l) (BookResult.title book) = true.
Proof.
  intros Hfav. rewrite (toggleFavorite_absent _ _ Hfav). simpl.
  apply bool_decide_eq_true. apply Exists_cons_hd. reflexivity.
Qed.

(** X8. [toggleFavorite] flips whether its book is a favorite, compared in
    lower case, and changes this for no title that differs in lower case. *)
Theorem toggleFavorite_flips :
  ∀ (book : BookResult.t) (l : Library),
    isFavorited (toggleFavorite book l) (BookResult.title book)
    = negb (isFavorited l (BookResult.title book))
    ∧ ∀ title, toLowerCase title ≠ toLowerCase (BookResult.title book) →
               isFavorited (toggleFavorite book l) title = isFavorited l title.
Proof.
  intros book l.
  destruct (isFavorited l (BookResult.title book)) eqn:Hfav.
  - rewrite (toggleFavorite_present _ _ Hfav). split.
    + simpl. apply bool_decide_eq_false. rewrite Exists_exists.
      intros (f & Hf & Hsame). simpl in Hf. apply list_elem_of_filter in Hf. tauto.
    + intros title Hne. unfold isFavorited. simpl.
      apply bool_decide_ext. rewrite !Exists_exists. split.
      * intros (f & Hf & Hsame). apply list_elem_of_filter in Hf. exists f. tauto.
      * intros (f & Hf & Hsame). exists f. split; [|exact Hsame].
        apply list_elem_of_filter. split; [congruence | exact Hf].
  - split; [apply isFavorited_after_add; exact Hfav|].
    rewrite (toggleFavorite_absent _ _ Hfav).
    intros title Hne. unfold isFavorited. simpl.
      apply bool_decide_ext. rewrite Exists_cons. split; [|tauto].
      intros [Hsame|Hex]; [congruence | exact Hex].
Qed.

(** X9. The favorites stay unique by lower-case title: if no two favorites
    agree in lower case, the same holds after any [toggleFavorite]. *)
Theorem favorites_stay_unique :
  ∀ (book : BookResult.t) (l : Library),
    NoDup ((toLowerCase ∘ BookResult.title) <$> favorites l) →
    NoDup ((toLowerCase ∘ BookResult.title) <$> favorites (toggleFavorite book l)).
Proof.
  intros book l Hnd.
  destruct (isFavorited l (BookResult.title book)) eqn:Hfav.
  - rewrite (toggleFavorite_present _ _ Hfav). simpl.
    eapply sublist_NoDup; [exact Hnd|].
    apply fmap_sublist. apply sublist_filter.
  - rewrite (toggleFavorite_absent _ _ Hfav). simpl.
    apply NoDup_cons. split; [|exact Hnd].
    intros Hin. apply list_elem_of_fmap in Hin. destruct Hin as (f & Hsame & Hf).
    assert (isFavorited l (BookResult.title book) = true) as Hyes.
    { apply isFavorited_iff. exists f. split; [exact Hf|]. simpl in Hsame. congruence. }
    congruence.
Qed.

(** X10. Adding a book and removing it again restores the favorites and the
    history, but not always the journals: the removal takes the title, in
    any capitalisation, out of every journal, also where it was filed before
    the book was a favorite. Where no journal held such a title the whole
    library is as before. *)
Theorem toggleFavorite_twice :
  ∀ (book : BookResult.t) (l : Library),
    isFavorited l (BookResult.title book) = false →
    let l'' := toggleFavorite book (toggleFavorite book l) in
    favorites l'' = favorites l
    ∧ history l'' = history l
    ∧ Journal.bookTitles <$> journals l''
      = (λ j, filter (λ t, toLowerCase t ≠ toLowerCase (BookResult.title book))
                (Journal.bookTitles j)) <$> journals l
    ∧ ((∀ j t, j ∈ journals l → t ∈ Journal.bookTitles j →
               toLowerCase t ≠ toLowerCase (BookResult.title book)) →
       l'' = l).
Proof.
  intros book l Hnot l''. subst l''.
  assert (Hyes : isFavorited (toggleFavorite book l) (BookResult.title book) = true).
  { apply isFavorited_after_add. exact Hnot. }
  rewrite (toggleFavorite_present _ _ Hyes).
  rewrite (toggleFavorite_absent _ _ Hnot). simpl.
  assert (Hfavs : filter (λ f, toLowerCase (BookResult.title f)
                                 ≠ toLowerCase (BookResult.title book))
                    (book :: favorites l) = favorites l).
  { rewrite filter_cons_False by (intros Hne; apply Hne; reflexivity).
    apply filter_all. intros f Hf Hsame.
    assert (isFavorited l (BookResult.title book) = true) as Hy.
    { apply isFavorited_iff. exists f. auto. }
    congruence. }
  split_and!.
  - exact Hfavs.
  - reflexivity.
  - rewrite <- list_fmap_compose. reflexivity.
  - intros Hclean. rewrite Hfavs. destruct l as [favs js hist]. simpl in *.
    f_equal. rewrite <- (list_fmap_id js) at 2. apply list_fmap_ext.
    intros i j Hj. destruct j as [jid jname titles created]. simpl. f_equal.
    apply filter_all. intros t Ht. eapply (Hclean _ t).
    + eapply list_elem_of_lookup_2. exact Hj.
    + exact Ht.
Qed.

End FavoritesMore.

Lemma favorites_stay_unique_witness :
  NoDup ((@toLowerCase asciiPlatform ∘ BookResult.title) <$> favorites sampleLibrary)
  ∧ NoDup ((@toLowerCase asciiPlatform ∘ BookResult.title)
             <$> favorites (@toggleFavorite asciiPlatform (sampleBook "Emma")
                              sampleLibrary)).
Proof.
  assert (Hnd : NoDup ((@toLowerCase asciiPlatform ∘ BookResult.title)
                         <$> favorites sampleLibrary)).
  { apply (bool_decide_unpack _). vm_compute. exact I. }
  split; [exact Hnd|].
  exact (@favorites_stay_unique asciiPlatform (sampleBook "Emma") sampleLibrary Hnd).
Defined.

Lemma toggleFavorite_twice_witness :
  @isFavorited asciiPlatform sampleLibrary "Emma" = false
  ∧ favorites (@toggleFavorite asciiPlatform (sampleBook "Emma")
                 (@toggleFavorite asciiPlatform (sampleBook "Emma") sampleLibrary))
    = favorites sampleLibrary.
Proof.
  assert (Hnot : @isFavorited asciiPlatform sampleLibrary
                   (BookResult.title (sampleBook "Emma")) = false).
  { vm_compute. reflexivity. }
  split; [exact Hnot|].
  exact (proj1 (@toggleFavorite_twice asciiPlatform (sampleBook "Emma")
                  sampleLibrary Hnot)).
Defined.

(** ** The favorites tab *)

Lemma find_journal_cons (a : string) (j : Journal.t) (js : list Journal.t) :
  snd <$> list_find (λ j, Journal.id j = a) (j :: js)
  = if decide (Journal.id j = a) then Some j
    else snd <$> list_find (λ j, Journal.id j = a) js.
Proof.
  simpl. destruct (decide (Journal.id j = a)); [reflexivity|].
  destruct (list_find _ js) as [[i x]|]; reflexivity.
Qed.

Lemma find_journal_elem (a : string) (js : list Journal.t) (j : Journal.t) :
  snd <$> list_find (λ j, Journal.id j = a) js = Some j → j ∈ js ∧ Journal.id j = a.
Proof.
  destruct (list_find _ js) as [[i x]|] eqn:Hfind; [|discriminate].
  simpl. intros [= ->]. apply list_find_Some in Hfind.
  destruct Hfind as (Hi & Hid & _). split; [|exact Hid].
  eapply list_elem_of_lookup_2. exact Hi.
Qed.

Lemma find_journal_none (a : string) (js : list Journal.t) :
  snd <$> list_find (λ j, Journal.id j = a) js = None ↔ a ∉ Journal.id <$> js.
Proof.
  induction js as [|j js IH].
  - simpl. split; [intros _; apply not_elem_of_nil | reflexivity].
  - rewrite find_journal_cons, fmap_cons, not_elem_of_cons.
    destruct (decide (Journal.id j = a)) as [Heq|Hne].
    + split; [discriminate|]. intros [Hna _]. congruence.
    + rewrite IH. split; [intros Hn; split; [congruence | exact Hn] | tauto].
Qed.

Lemma find_journal_filter (a id : string) (js : list Journal.t) :
  a ≠ id →
  snd <$> list_find (λ j, Journal.id j = a) (filter (λ j, Journal.id j ≠ id) js)
  = snd <$> list_find (λ j, Journal.id j = a) js.
Proof.
  intros Hne. induction js as [|j js IH]; [reflexivity|].
  rewrite find_journal_cons.
  destruct (decide (Journal.id j ≠ id)) as [Hkeep|Hdrop].
  - rewrite filter_cons_True by exact Hkeep. rewrite find_journal_cons, IH. reflexivity.
  - rewrite filter_cons_False by exact Hdrop. rewrite IH.
    destruct (decide (Journal.id j = a)) as [Heq|]; [|reflexivity].
    exfalso. apply Hdrop. congruence.
Qed.

Lemma find_journal_assign (a t : string) (target : option string) (js : list Journal.t) :
  snd <$> list_find (λ j, Journal.id j = a) (assignBook t target <$> js)
  = assignBook t target <$> (snd <$> list_find (λ j, Journal.id j = a) js).
Proof.
  induction js as [|j js IH]; [reflexivity|].
  rewrite fmap_cons, !find_journal_cons, assignBook_id.
  destruct (decide (Journal.id j = a)); [reflexivity | exact IH].
Qed.

Lemma find_journal_snoc (a : string) (js : list Journal.t) (j : Journal.t) :
  snd <$> list_find (λ j, Journal.id j = a) (js ++ [j])
  = match snd <$> list_find (λ j, Journal.id j = a) js with
    | Some found => Some found
    | None => if decide (Journal.id j = a) then Some j else None
    end.
Proof.
  induction js as [|x js IH].
  - simpl. destruct (decide (Journal.id j = a)); reflexivity.
  - rewrite <- app_comm_cons, !find_journal_cons.
    destruct (decide (Journal.id x = a)); [reflexivity | exact IH].
Qed.

Lemma shown_in_uncategorized (js : list Journal.t) (b : BookResult.t) :
  shown_in "uncategorized" js b = true
  ↔ ∀ j, j ∈ js → BookResult.title b ∉ Journal.bookTitles j.
Proof.
  unfold shown_in. simpl. rewrite negb_true_iff, bool_decide_eq_false, Exists_exists.
  split.
  - intros Hno j Hj Hin. apply Hno. exists j. auto.
  - intros Hall (j & Hj & Hin). exact (Hall j Hj Hin).
Qed.

Lemma shown_in_journal (a : string) (js : list Journal.t) (b : BookResult.t) :
  a ≠ "all" → a ≠ "uncategorized" →
  shown_in a js b = true
  ↔ ∃ j, snd <$> list_find (λ j, Journal.id j = a) js = Some j
         ∧ BookResult.title b ∈ Journal.bookTitles j.
Proof.
  intros Hall Hunc. unfold shown_in.
  apply String.eqb_neq in Hall. apply String.eqb_neq in Hunc. rewrite Hall, Hunc.
  destruct (list_find _ js) as [[i j]|]; simpl.
  - rewrite bool_decide_eq_true. split.
    + intros Hin. exists j. auto.
    + intros (j' & [= <-] & Hin). exact Hin.
  - split; [discriminate|]. intros (j' & Hj' & _). discriminate.
Qed.

Lemma filteredFavorites_elem (a : string) (l : Library) (b : BookResult.t) :
  b ∈ filteredFavorites a l ↔ b ∈ favorites l ∧ shown_in a (journals l) b = true.
Proof.
  unfold filteredFavorites. rewrite !list_elem_of_In. apply filter_In.
Qed.

Lemma filteredFavorites_ext (a a' : string) (l l' : Library) :
  favorites l' = favorites l →
  (∀ b, shown_in a' (journals l') b = shown_in a (journals l) b) →
  filteredFavorites a' l' = filteredFavorites a l.
Proof.
  intros Hfav Hshown. unfold filteredFavorites. rewrite Hfav.
  apply List.filter_ext. exact Hshown.
Qed.

Lemma bool_eq_iff (x y : bool) : (x = true ↔ y = true) → x = y.
Proof. destruct x, y; intuition congruence. Qed.

Lemma assignBook_other_title (t t' : string) (target : option string) (j : Journal.t) :
  t' ≠ t → (t' ∈ Journal.bookTitles (assignBook t target j) ↔ t' ∈ Journal.bookTitles j).
Proof.
  intros Hne. unfold assignBook.
  destruct (decide (Some (Journal.id j) = target)); simpl.
  - rewrite elem_of_app, list_elem_of_filter, list_elem_of_singleton. tauto.
  - rewrite list_elem_of_filter. tauto.
Qed.

Lemma assignBook_own_title (t : string) (target : option string) (j : Journal.t) :
  t ∈ Journal.bookTitles (assignBook t target j) ↔ Some (Journal.id j) = target.
Proof.
  unfold assignBook.
  destruct (decide (Some (Journal.id j) = target)); simpl.
  - rewrite elem_of_app, list_elem_of_singleton. tauto.
  - rewrite list_elem_of_filter. tauto.
Qed.

(** X11. Filing a favorite in a folder makes the favorites tab show it under
    that folder and under no other, nor under "uncategorized"; filing it
    under no folder shows it under "uncategorized" only. The books with
    another title are shown where they were. *)
Theorem assigned_book_is_shown_in_one_view :
  ∀ (bookTitle : string) (journalId : option string) (s : AppState) (b : BookResult.t),
    b ∈ favorites (library s) →
    BookResult.title b = bookTitle →
    match journalId with
    | Some target => target ∈ Journal.id <$> journals (library s)
                     ∧ target ≠ "all" ∧ target ≠ "uncategorized"
    | None => True
    end →
    let l' := library (assignBookToJournal bookTitle journalId s) in
    b ∈ filteredFavorites (default "uncategorized" journalId) l'
    ∧ (∀ a, a ≠ "all" → a ≠ default "uncategorized" journalId →
            b ∉ filteredFavorites a l')
    ∧ (∀ a b', BookResult.title b' ≠ bookTitle →
               (b' ∈ filteredFavorites a l' ↔ b' ∈ filteredFavorites a (library s))).
Proof.
  intros bookTitle journalId s b Hb Htitle Htarget l'. subst l'.
  rewrite (proj1 (assignBookToJournal_library bookTitle journalId s)).
  set (l' := assignBookToJournal_journals bookTitle journalId (library s)).
  assert (Hfav : favorites l' = favorites (library s)) by reflexivity.
  assert (Hjs : journals l' = assignBook bookTitle journalId <$> journals (library s))
    by reflexivity.
  assert (Hholds : ∀ j', j' ∈ journals l' →
            (bookTitle ∈ Journal.bookTitles j' ↔ Some (Journal.id j') = journalId)).
  { intros j' Hj'. rewrite Hjs in Hj'. apply list_elem_of_fmap in Hj'.
    destruct Hj' as (j & -> & _). rewrite assignBook_id. apply assignBook_own_title. }
  split_and!.
  - apply filteredFavorites_elem. rewrite Hfav. split; [exact Hb|].
    destruct journalId as [target|]; simpl.
    + destruct Htarget as (Hin & Hall & Hunc).
      apply shown_in_journal; [exact Hall | exact Hunc |].
      destruct (snd <$> list_find (λ j, Journal.id j = target) (journals l'))
        as [j'|] eqn:Hfind.
      * exists j'. split; [exact Hfind|]. rewrite Htitle.
        apply find_journal_elem in Hfind. destruct Hfind as [Hj' Hid].
        apply Hholds; [exact Hj' | congruence].
      * exfalso. apply find_journal_none in Hfind. apply Hfind.
        rewrite Hjs, <- list_fmap_compose.
        erewrite list_fmap_ext; [exact Hin|].
        intros i j _. simpl. apply assignBook_id.
    + apply shown_in_uncategorized. intros j' Hj' Hin. rewrite Htitle in Hin.
      apply Hholds in Hin; [discriminate | exact Hj'].
  - intros a Hall Hother Hshown. apply filteredFavorites_elem in Hshown.
    destruct Hshown as [_ Hshown].
    destruct (decide (a = "uncategorized")) as [->|Hunc].
    + destruct journalId as [target|]; simpl in Hother; [|congruence].
      destruct Htarget as (Hin & _ & _).
      apply list_elem_of_fmap in Hin. destruct Hin as (j & -> & Hj).
      rewrite shown_in_uncategorized in Hshown.
      apply (Hshown (assignBook bookTitle (Some (Journal.id j)) j)).
      * rewrite Hjs. apply list_elem_of_fmap. exists j. auto.
      * rewrite Htitle. apply assignBook_own_title. reflexivity.
    + apply shown_in_journal in Hshown; [|exact Hall | exact Hunc].
      destruct Hshown as (j' & Hfind & Hin). apply find_journal_elem in Hfind.
      destruct Hfind as [Hj' Hid]. rewrite Htitle in Hin.
      apply Hholds in Hin; [|exact Hj']. subst journalId. simpl in Hother. congruence.
  - intros a b' Hne. rewrite !filteredFavorites_elem, Hfav.
    enough (shown_in a (journals l') b' = shown_in a (journals (library s)) b') as ->
      by reflexivity.
    apply bool_eq_iff.
    destruct (decide (a = "all")) as [->|Hall]; [reflexivity|].
    destruct (decide (a = "uncategorized")) as [->|Hunc].
    + rewrite !shown_in_uncategorized, Hjs. split.
      * intros Hno j Hj Hin.
        apply (Hno (assignBook bookTitle journalId j)).
        -- apply list_elem_of_fmap. exists j. auto.
        -- apply assignBook_other_title; assumption.
      * intros Hno j' Hj' Hin. apply list_elem_of_fmap in Hj'.
        destruct Hj' as (j & -> & Hj). apply assignBook_other_title in Hin; [|exact Hne].
        exact (Hno j Hj Hin).
    + rewrite !shown_in_journal by assumption. rewrite Hjs, find_journal_assign.
      destruct (snd <$> list_find _ (journals (library s))) as [j|]; simpl.
      * split.
        -- intros (j' & [= <-] & Hin). exists j. split; [reflexivity|].
           apply assignBook_other_title in Hin; assumption.
        -- intros (j' & [= <-] & Hin). eexists. split; [reflexivity|].
           apply assignBook_other_title; assumption.
      * split; intros (j' & Hj' & _); discriminate.
Qed.

Lemma assigned_book_is_shown_in_one_view_witness :
  sampleBook "Dune"
    ∈ filteredFavorites "1700000000002"
        (library (assignBookToJournal "Dune" (Some "1700000000002") initialApp))
  ∧ sampleBook "Dune"
    ∉ filteredFavorites "1700000000001"
        (library (assignBookToJournal "Dune" (Some "1700000000002") initialApp)).
Proof.
  assert (Hview := assigned_book_is_shown_in_one_view "Dune" (Some "1700000000002")
                     initialApp (sampleBook "Dune")).
  simpl in Hview.
  destruct Hview as (Hshown & Hhidden & _).
  - left.
  - reflexivity.
  - split_and!; [right; left | discriminate | discriminate].
  - split; [exact Hshown|]. apply Hhidden; discriminate.
Defined.

(** X12. Deleting a folder never leaves the tab on the deleted folder: when
    it was selected the tab falls back to "all" and shows every favorite.
    The view of every other folder is as before, and a favorite that was
    filed only in folders of the deleted id is shown under "uncategorized"
    afterwards. *)
Theorem deleted_folder_books_become_uncategorized :
  ∀ (id : string) (s : AppState),
    id ≠ "all" →
    let s' := deleteJournal true id s in
    activeJournalId s' ≠ id
    ∧ (activeJournalId s = id →
       filteredFavorites (activeJournalId s') (library s') = favorites (library s))
    ∧ (∀ a, a ≠ id → a ≠ "uncategorized" →
            filteredFavorites a (library s') = filteredFavorites a (library s))
    ∧ (∀ b, b ∈ favorites (library s) →
            (∀ j, j ∈ journals (library s) →
                  BookResult.title b ∈ Journal.bookTitles j → Journal.id j = id) →
            b ∈ filteredFavorites "uncategorized" (library s')).
Proof.
  intros id s Hall s'.
  assert (Hlib : library s' = removeJournal id (library s))
    by apply (deleteJournal_library true).
  assert (Hactive : activeJournalId s'
                    = if String.eqb (activeJournalId s) id then "all"
                      else activeJournalId s).
  { subst s'. unfold deleteJournal. simpl.
    destruct (String.eqb (activeJournalId s) id); reflexivity. }
  rewrite Hlib, Hactive. split_and!.
  - destruct (String.eqb (activeJournalId s) id) eqn:Heq; [congruence|].
    apply String.eqb_neq. exact Heq.
  - intros ->. rewrite String.eqb_refl. unfold filteredFavorites. simpl.
    apply forallb_filter_id. apply forallb_forall. reflexivity.
  - intros a Hne Hunc. apply filteredFavorites_ext; [reflexivity|].
    intros b. apply bool_eq_iff.
    destruct (decide (a = "all")) as [->|Hnall]; [reflexivity|].
    rewrite !shown_in_journal by assumption.
    rewrite removeJournal_journals, find_journal_filter by exact Hne. reflexivity.
  - intros b Hb Honly. apply filteredFavorites_elem. split; [exact Hb|].
    apply shown_in_uncategorized. intros j Hj Hin.
    rewrite removeJournal_journals in Hj. apply list_elem_of_filter in Hj.
    destruct Hj as [Hkeep Hj]. apply Hkeep. exact (Honly j Hj Hin).
Qed.

Lemma deleted_folder_books_become_uncategorized_witness :
  activeJournalId (deleteJournal true "1700000000002"
                     (setActiveJournalId "1700000000002" initialApp)) = "all"
  ∧ sampleBook "Moby Dick"
    ∈ filteredFavorites "uncategorized"
        (library (deleteJournal true "1700000000002"
                    (setActiveJournalId "1700000000002" initialApp))).
Proof.
  split; [reflexivity|].
  assert (Hview := deleted_folder_books_become_uncategorized "1700000000002"
                     (setActiveJournalId "1700000000002" initialApp)).
  simpl in Hview. destruct Hview as (_ & _ & _ & Hunc); [discriminate|].
  apply Hunc.
  - right. left.
  - intros j Hj Hin. apply list_elem_of_In in Hj. simpl in Hj.
    destruct Hj as [<-|[<-|[]]]; [|reflexivity].
    apply list_elem_of_In in Hin. simpl in Hin. intuition discriminate.
Defined.

Lemma shown_in_snoc_empty (a : string) (js : list Journal.t) (j : Journal.t)
    (b : BookResult.t) :
  Journal.bookTitles j = [] → shown_in a (js ++ [j]) b = shown_in a js b.
Proof.
  intros Hempty. apply bool_eq_iff.
  destruct (decide (a = "all")) as [->|Hall]; [reflexivity|].
  destruct (decide (a = "uncategorized")) as [->|Hunc].
  - rewrite !shown_in_uncategorized. split.
    + intros Hno x Hx. apply Hno. apply elem_of_app. left. exact Hx.
    + intros Hno x Hx. apply elem_of_app in Hx. destruct Hx as [Hx|Hx]; [auto|].
      apply list_elem_of_singleton in Hx. subst x. rewrite Hempty. apply not_elem_of_nil.
  - rewrite !shown_in_journal by assumption. rewrite find_journal_snoc.
    destruct (snd <$> list_find _ js) as [found|]; [reflexivity|].
    split; [|intros (x & Hx & _); discriminate].
    intros (x & Hx & Hin). destruct (decide (Journal.id j = a)); [|discriminate].
    injection Hx as <-. rewrite Hempty in Hin. apply elem_of_nil in Hin. destruct Hin.
Qed.

Section JournalsMore.
Context `{Platform}.

(** X13. [createJournal] does nothing for a name that is blank after
    trimming. Otherwise it adds one folder at the end, empty and under the
    name as typed (not trimmed), and resets the dialog. In both cases the
    favorites and the history are untouched and every view of the favorites
    tab shows what it showed before. *)
Theorem createJournal_keeps_every_view :
  ∀ (now_id now_created : N) (d : JournalDialog) (l : Library),
    let d' := fst (createJournal now_id now_created d l) in
    let l' := snd (createJournal now_id now_created d l) in
    favorites l' = favorites l
    ∧ history l' = history l
    ∧ (∀ a, filteredFavorites a l' = filteredFavorites a l)
    ∧ (trim (newJournalName d) = "" → d' = d ∧ l' = l)
    ∧ (trim (newJournalName d) ≠ "" →
       d' = {| newJournalName := ""; isCreatingJournal := false |}
       ∧ journals l'
         = journals l ++ [ {| Journal.id := Date_toString now_id;
                              Journal.name := newJournalName d;
                              Journal.bookTitles := [];
                              Journal.createdAt := now_created |} ]).
Proof.
  intros now_id now_created d l d' l'. subst d' l'. unfold createJournal.
  destruct (String.eqb (trim (newJournalName d)) "") eqn:Hblank; simpl.
  - apply String.eqb_eq in Hblank. split_and!; try reflexivity; [auto | congruence].
  - apply String.eqb_neq in Hblank. split_and!; try reflexivity; [|congruence|auto].
    intros a. apply filteredFavorites_ext; [reflexivity|].
    intros b. simpl. apply shown_in_snoc_empty. reflexivity.
Qed.

End JournalsMore.

Lemma createJournal_keeps_every_view_witness :
  @trim asciiPlatform " Dunes " ≠ ""
  ∧ Journal.name <$> journals (snd (@createJournal asciiPlatform 1700000000003
                                      1700000000004 (mkDialog " Dunes " true)
                                      sampleLibrary))
    = ["Space"; "Classics"; " Dunes "].
Proof.
  assert (Hname : @trim asciiPlatform (newJournalName (mkDialog " Dunes " true)) ≠ "").
  { vm_compute. discriminate. }
  split; [exact Hname|].
  destruct (@createJournal_keeps_every_view asciiPlatform 1700000000003 1700000000004
              (mkDialog " Dunes " true) sampleLibrary) as (_ & _ & _ & _ & Hadd).
  destruct (Hadd Hname) as [_ ->]. reflexivity.
Defined.

(** ** The search history *)

Lemma applyHistoryOp_bound (l : Library) (op : HistoryOp) :
  (length (history l) ≤ 50)%nat → (length (history (applyHistoryOp l op)) ≤ 50)%nat.
Proof.
  intros Hlen. destruct op as [entry|id|[]]; simpl.
  - exact (pushHistory_length entry (history l)).
  - etransitivity; [apply length_filter | exact Hlen].
  - lia.
  - exact Hlen.
Qed.

Lemma applyHistoryOp_elem (l : Library) (op : HistoryOp) (e : HistoryEntry.t) :
  e ∈ history (applyHistoryOp l op) → e ∈ history l ∨ e ∈ pushed [op].
Proof.
  destruct op as [entry|id|[]]; simpl.
  - intros He. eapply elem_of_sublist in He; [|apply sublist_take].
    apply elem_of_cons in He. destruct He as [->|He]; [right; left | left; exact He].
  - intros He. apply list_elem_of_filter in He. tauto.
  - intros He. apply elem_of_nil in He. destruct He.
  - auto.
Qed.

(** X14. Whatever is done to the search history (a recorded search, the
    delete button of an entry, the clear button with either answer), it
    never holds more than 50 entries once it holds at most 50, each of its
    entries was there before or was recorded by one of the searches, and the
    favorites and journals are not touched. *)
Theorem history_ops_keep_the_cap :
  ∀ (ops : list HistoryOp) (l : Library),
    (length (history l) ≤ 50)%nat →
    let l' := fold_left applyHistoryOp ops l in
    (length (history l') ≤ 50)%nat
    ∧ (∀ e, e ∈ history l' → e ∈ history l ∨ e ∈ pushed ops)
    ∧ favorites l' = favorites l
    ∧ journals l' = journals l.
Proof.
  induction ops as [|op ops IH]; intros l Hlen; simpl.
  - split_and!; auto.
  - destruct (IH (applyHistoryOp l op) (applyHistoryOp_bound l op Hlen))
      as (Hcap & Helem & Hfav & Hjs).
    split_and!.
    + exact Hcap.
    + intros e He. apply Helem in He. destruct He as [He|He].
      * apply applyHistoryOp_elem in He. destruct He as [He|He]; [left; exact He|].
        right. destruct op; simpl in *; try (apply elem_of_nil in He; destruct He).
        apply list_elem_of_singleton in He. subst e. left.
      * right. destruct op; simpl; [right|..]; exact He.
    + rewrite Hfav. destruct op as [entry|id|[]]; reflexivity.
    + rewrite Hjs. destruct op as [entry|id|[]]; reflexivity.
Qed.

Lemma history_ops_keep_the_cap_witness :
  (length (history sampleLibrary) ≤ 50)%nat
  ∧ (length (history (fold_left applyHistoryOp
                        ((Push ∘ sampleEntry <$> seq 0 60) ++ [Delete "1700000000059"])
                        sampleLibrary)) ≤ 50)%nat.
Proof.
  assert (Hlen : (length (history sampleLibrary) ≤ 50)%nat) by (simpl; lia).
  split; [exact Hlen|].
  exact (proj1 (history_ops_keep_the_cap
                  ((Push ∘ sampleEntry <$> seq 0 60) ++ [Delete "1700000000059"])
                  sampleLibrary Hlen)).
Defined.

(** ** Searches *)

Section SearchMore.
Context `{Platform}.

Lemma str_or_Some (q fallback : string) : q ≠ "" → str_or (Some q) fallback = q.
Proof. intros Hq. destruct q; [congruence | reflexivity]. Qed.

Lemma handleSearch_started (q : string) (s : AppState) :
  q ≠ "" → trim q ≠ "" →
  handleSearch (Some q) s
  = issue (AwaitSearch q)
      (with_view {| mode := SEARCH; searchQuery := searchQuery (view s);
                    isSearching := true; searchResult := None; detailedSummary := None;
                    isSummaryExpanded := false; isAccessExpanded := false |}
         (with_audio (App.stopAudio (audio s)) s)).
Proof.
  intros Hq Htrim. unfold handleSearch. rewrite (str_or_Some q _ Hq).
  apply String.eqb_neq in Htrim. rewrite Htrim. reflexivity.
Qed.

Lemma searched_ok (i : nat) (q : string) (m sr ir : option Response) (n t : N)
    (s : AppState) (r : BookResult.t) :
  calls s !! i = Some (AwaitSearch q) →
  GeminiService.searchBookDetails q m sr ir = Some r →
  searched i m sr ir n t s = handleSearch_settled i q (Some r) n t s.
Proof. intros Hi Hr. unfold searched. rewrite Hi, Hr. reflexivity. Qed.

(** X15. A search that fails (one of the three requests is rejected, or the
    answers cannot be turned into a result) leaves the application without
    a result: the result of the previous search was cleared when the search
    started and is not restored. The history and the other collections are
    as before, the spinner is off, the playback was stopped, and the user
    is alerted once. *)
Theorem failed_search_clears_the_previous_result :
  ∀ (q : string) (mapsResponse searchResponse infoResponse : option Response)
    (now_id now_ts : N) (s : AppState),
    q ≠ "" → trim q ≠ "" →
    GeminiService.searchBookDetails q mapsResponse searchResponse infoResponse = None →
    let s' := searched (length (calls s)) mapsResponse searchResponse infoResponse
                now_id now_ts (handleSearch (Some q) s) in
    searchResult (view s') = None
    ∧ isSearching (view s') = false
    ∧ mode (view s') = SEARCH
    ∧ library s' = library s
    ∧ audio s' = App.stopAudio (audio s)
    ∧ pending_searches s' = pending_searches s
    ∧ filter is_alert (effects s')
      = filter is_alert (effects s) ++ [Alert "Failed to find book details."].
Proof.
  intros q m sr ir now_id now_ts s Hq Htrim Hfail s'. subst s'.
  rewrite (handleSearch_started q s Hq Htrim).
  unfold searched, issue. simpl. rewrite snoc_lookup, Hfail. simpl.
  split_and!; try reflexivity.
  - unfold pending_searches. simpl. rewrite snoc_insert, omap_app. simpl.
    apply app_nil_r.
  - rewrite filter_app. reflexivity.
Qed.

(** X16. Two searches may overlap, since the search form stays enabled while
    a search runs. When the later search settles first, the spinner goes off
    although the earlier search is still pending; when the earlier search
    settles after it, its result replaces the one of the later search on the
    screen and its entry is the newest of the history. *)
Theorem overlapping_searches_show_the_last_settled :
  ∀ (q1 q2 : string) (r1 r2 : BookResult.t)
    (m1 sr1 ir1 m2 sr2 ir2 : option Response) (n1 t1 n2 t2 : N) (s : AppState),
    q1 ≠ "" → trim q1 ≠ "" → q2 ≠ "" → trim q2 ≠ "" →
    GeminiService.searchBookDetails q1 m1 sr1 ir1 = Some r1 →
    GeminiService.searchBookDetails q2 m2 sr2 ir2 = Some r2 →
    let i1 := length (calls s) in
    let started := handleSearch (Some q2) (handleSearch (Some q1) s) in
    let later_done := searched (S i1) m2 sr2 ir2 n2 t2 started in
    let both_done := searched i1 m1 sr1 ir1 n1 t1 later_done in
    pending_searches started = pending_searches s ++ [q1; q2]
    ∧ isSearching (view later_done) = false
    ∧ pending_searches later_done = pending_searches s ++ [q1]
    ∧ searchResult (view later_done) = Some r2
    ∧ searchResult (view both_done) = Some r1
    ∧ history (library both_done)
      = pushHistory (historyEntry n1 t1 q1 r1)
          (pushHistory (historyEntry n2 t2 q2 r2) (history (library s))).
Proof.
  intros q1 q2 r1 r2 m1 sr1 ir1 m2 sr2 ir2 n1 t1 n2 t2 s Hq1 Ht1 Hq2 Ht2 Hr1 Hr2
    i1 started later_done both_done.
  subst both_done later_done started i1.
  rewrite (handleSearch_started q1 s Hq1 Ht1).
  rewrite (handleSearch_started q2 _ Hq2 Ht2).
  destruct s as [v c l a mv au cs ef].
  unfold issue, with_view, with_audio, with_calls. simpl.
  assert (Hlen : S (length cs) = length (cs ++ [AwaitSearch q1]))
    by (rewrite length_app; simpl; lia).
  erewrite (searched_ok (S (length cs)) q2);
    [| simpl; rewrite Hlen; apply snoc_lookup | exact Hr2].
  unfold handleSearch_settled, finish, setIsSearching, setSearchResult, with_library,
    with_view, with_calls. simpl.
  rewrite Hlen, snoc_insert.
  erewrite (searched_ok (length cs) q1);
    [| simpl; rewrite <- app_assoc; apply list_lookup_middle; reflexivity | exact Hr1].
  unfold handleSearch_settled, finish, setIsSearching, setSearchResult, with_library,
    with_view, with_calls, pending_searches. simpl.
  rewrite !omap_app. simpl. rewrite <- app_assoc, app_nil_r.
  split_and!; reflexivity.
Qed.

End SearchMore.

Lemma failed_search_clears_the_previous_result_witness :
  searchResult (view (setSearchResult (Some (sampleBook "Emma")) initialApp))
  = Some (sampleBook "Emma")
  ∧ searchResult (view (@searched asciiPlatform 0 None None None 1 1
                          (@handleSearch asciiPlatform (Some "Dune")
                             (setSearchResult (Some (sampleBook "Emma")) initialApp))))
    = None.
Proof.
  split; [reflexivity|].
  refine (proj1 (@failed_search_clears_the_previous_result asciiPlatform "Dune"
                   None None None 1 1
                   (setSearchResult (Some (sampleBook "Emma")) initialApp) _ _ _)).
  - discriminate.
  - vm_compute. discriminate.
  - reflexivity.
Defined.

Lemma overlapping_searches_show_the_last_settled_witness :
  ∃ r1,
    searchResult (view
      (@searched asciiPlatform 0
         (Some (mkResponse None None None)) (Some (mkResponse None None None))
         (Some (mkResponse None (Some sampleInfoText) None)) 3 3
         (@searched asciiPlatform 1
            (Some (mkResponse None None None)) (Some (mkResponse None None None))
            (Some (mkResponse None (Some sampleInfoText) None)) 2 2
            (@handleSearch asciiPlatform (Some "Emma")
               (@handleSearch asciiPlatform (Some "Dune") initialApp)))))
    = Some r1
    ∧ BookResult.title r1 = "Dune".
Proof.
  set (ok := Some (mkResponse None None None)).
  set (info := Some (mkResponse None (Some sampleInfoText) None)).
  destruct (@GeminiService.searchBookDetails asciiPlatform "Dune" ok ok info)
    as [r1|] eqn:Hr1; [|vm_compute in Hr1; discriminate].
  destruct (@GeminiService.searchBookDetails asciiPlatform "Emma" ok ok info)
    as [r2|] eqn:Hr2; [|vm_compute in Hr2; discriminate].
  exists r1. split.
  - refine (proj1 (proj2 (proj2 (proj2 (proj2
              (@overlapping_searches_show_the_last_settled asciiPlatform "Dune" "Emma"
                 r1 r2 ok ok info ok ok info 3 3 2 2 initialApp _ _ _ _ Hr1 Hr2))))));
      try discriminate; vm_compute; discriminate.
  - vm_compute in Hr1. injection Hr1 as <-. reflexivity.
Defined.

(** ** The client: incomplete answers *)

Section ServiceMore.
Context `{Platform}.

Lemma parse_empty_object : JSON.parse "{}" = JSON.Parsed (JSON.Obj []) "".
Proof. vm_compute. reflexivity. Qed.

Lemma parse_empty_array : JSON.parse "[]" = JSON.Parsed (JSON.Arr []) "".
Proof. vm_compute. reflexivity. Qed.

Lemma str_or_fallback (o : option string) (fallback : string) :
  truthy_string o = None → str_or o fallback = fallback.
Proof. unfold str_or. intros ->. reflexivity. Qed.

Lemma or_else_truthy (v : JSON.value) (fallback : string) :
  fallback ≠ "" → truthy (or_else v fallback) = true.
Proof.
  intros Hne. unfold or_else. destruct (truthy v) eqn:Hv; [exact Hv|].
  simpl. apply negb_true_iff. apply String.eqb_neq. exact Hne.
Qed.

(** X17. An answer without metadata text (absent or empty) is not an error
    and does not get the placeholder fields of the [catch] branch: the text
    defaults to an empty object, so the first revision returns a result
    whose author and summary are [undefined], and the second revision
    substitutes its own defaults. Both use the placeholder cover for the
    encoded query. *)
Theorem answer_without_metadata :
  ∀ (query encoded : string) (mapsResponse searchResponse infoResponse : Response),
    truthy_string (text infoResponse) = None →
    encodeURIComponent query = Some encoded →
    (∀ r, GeminiService.searchBookDetails query (Some mapsResponse) (Some searchResponse)
            (Some infoResponse) = Some r →
          BookResult.author r = JSON.Undefined
          ∧ BookResult.summary r = JSON.Undefined
          ∧ BookResult.coverImageUrl r
            = (placeholder_prefix ++ encoded ++ "&bgColor=%23f3f4f6&textColor=%239ca3af")%string)
    ∧ ∃ r, GeminiService2.searchBookDetails query (Some mapsResponse) (Some searchResponse)
             (Some infoResponse) = Some r
           ∧ BookResult.author r = JSON.Str "Unknown"
           ∧ BookResult.summary r = JSON.Str "No summary available."
           ∧ BookResult.authorBio r = JSON.Undefined
           ∧ BookResult.awards r = JSON.Undefined
           ∧ BookResult.coverImageUrl r
             = (placeholder_prefix ++ encoded ++ "&bgColor=%231e293b&textColor=%23fbbf24")%string.
Proof.
  intros query encoded m sr ir Htext Henc. split.
  - intros r. unfold GeminiService.searchBookDetails. simpl.
    destruct (GeminiService.locations_of _) as [locs|]; simpl; [|discriminate].
    unfold GeminiService.bookInfo_of.
    rewrite (str_or_fallback _ _ Htext), parse_empty_object. simpl.
    rewrite Henc. simpl. intros [= <-]. split_and!; reflexivity.
  - unfold GeminiService2.searchBookDetails. simpl.
    unfold GeminiService2.bookInfo_of.
    rewrite (str_or_fallback _ _ Htext), parse_empty_object. simpl.
    rewrite Henc. simpl. eexists. split_and!; reflexivity.
Qed.

(** X18. The second revision tolerates incomplete answers where the first
    does not. Whatever it returns has a truthy author and summary; whether
    it returns at all does not depend on the grounding chunks of the two
    grounded answers. The first revision fails as soon as one map chunk has
    no [uri]. *)
Theorem revision2_tolerates_incomplete_answers :
  (∀ query mapsResponse searchResponse infoResponse r,
      GeminiService2.searchBookDetails query mapsResponse searchResponse infoResponse
      = Some r →
      truthy (BookResult.author r) = true ∧ truthy (BookResult.summary r) = true)
  ∧ (∀ query m m' sr sr' infoResponse,
      is_Some (GeminiService2.searchBookDetails query (Some m) (Some sr) infoResponse)
      ↔ is_Some (GeminiService2.searchBookDetails query (Some m') (Some sr') infoResponse))
  ∧ (∀ query m searchResponse infoResponse chunk place,
      chunk ∈ default [] (groundingChunks m) →
      maps chunk = Some place →
      place_uri place = None →
      GeminiService.searchBookDetails query (Some m) searchResponse infoResponse = None).
Proof.
  split_and!.
  - intros query m sr ir r. unfold GeminiService2.searchBookDetails.
    destruct m as [m|]; simpl; [|discriminate].
    destruct sr as [sr|]; simpl; [|discriminate].
    destruct ir as [ir|]; simpl; [|discriminate].
    destruct (destructure _) as [[[[[author summary] isbn] authorBio] awards]|];
      simpl; [|discriminate].
    destruct (GeminiService2.usable_isbn isbn) as [usable|]; simpl; [|discriminate].
    destruct (if usable then _ else _) as [cover|]; simpl; [|discriminate].
    intros [= <-]. simpl. split; apply or_else_truthy; discriminate.
  - intros query m m' sr sr' ir. unfold GeminiService2.searchBookDetails. simpl.
    destruct ir as [ir|]; simpl; [|reflexivity].
    destruct (destructure _) as [[[[[author summary] isbn] authorBio] awards]|];
      simpl; [|reflexivity].
    destruct (GeminiService2.usable_isbn isbn) as [usable|]; simpl; [|reflexivity].
    destruct (if usable then _ else _) as [cover|]; simpl; [|reflexivity].
    split; intros _; eexists; reflexivity.
  - intros query m sr ir chunk place Hin Hmaps Huri.
    assert (Hloc : GeminiService.locations_of (default [] (groundingChunks m)) = None).
    { unfold GeminiService.locations_of.
      destruct (mapM GeminiService.location_of _) as [locs|] eqn:HmapM; [|reflexivity].
      exfalso. apply mapM_Some in HmapM.
      apply list_elem_of_lookup in Hin. destruct Hin as [i Hi].
      destruct (Forall2_lookup_l _ _ _ _ _ HmapM Hi) as (loc & _ & Hloc).
      unfold GeminiService.location_of in Hloc. rewrite Hmaps, Huri in Hloc.
      discriminate. }
    unfold GeminiService.searchBookDetails. simpl. rewrite Hloc. reflexivity.
Qed.

(** X19. Once its request is answered, [getBookRecommendations] returns a
    value and never throws: the empty array when the answer has no text, an
    empty text, or a text that is not JSON; otherwise the parsed text as it
    is, whether or not it is an array of recommendations. *)
Theorem getBookRecommendations_never_throws :
  ∀ (response : Response),
    ∃ recs, ContentService.getBookRecommendations (Some response) = Some recs
      ∧ (truthy_string (text response) = None → recs = JSON.Arr [])
      ∧ (∀ t, text response = Some t → JSON.parse t = JSON.SyntaxError →
              recs = JSON.Arr [])
      ∧ (∀ t v rest, text response = Some t → t ≠ "" →
                     JSON.parse t = JSON.Parsed v rest → recs = v).
Proof.
  intros response. eexists. split; [reflexivity|]. split_and!.
  - intros Htext. rewrite (str_or_fallback _ _ Htext), parse_empty_array. reflexivity.
  - intros t Ht Hparse. rewrite Ht.
    destruct (decide (t = "")) as [->|Hne].
    + simpl. reflexivity.
    + rewrite (str_or_Some t _ Hne), Hparse. reflexivity.
  - intros t v rest Ht Hne Hparse. rewrite Ht, (str_or_Some t _ Hne), Hparse. reflexivity.
Qed.

End ServiceMore.

Lemma answer_without_metadata_witness :
  ∃ r, @GeminiService2.searchBookDetails asciiPlatform "Dune"
         (Some (mkResponse None None None)) (Some (mkResponse None None None))
         (Some (mkResponse None (Some "") None)) = Some r
       ∧ BookResult.author r = JSON.Str "Unknown".
Proof.
  destruct (@answer_without_metadata asciiPlatform "Dune" "Dune"
              (mkResponse None None None) (mkResponse None None None)
              (mkResponse None (Some "") None)) as (_ & r & Hr & Hauthor & _).
  - reflexivity.
  - vm_compute. reflexivity.
  - exists r. split; [exact Hr | exact Hauthor].
Defined.

Lemma revision2_tolerates_incomplete_answers_witness :
  @GeminiService.searchBookDetails asciiPlatform "Dune"
    (Some (mkResponse (Some [mkChunk (Some (mkPlace (Some "City Library") None)) None])
             None None))
    (Some (mkResponse None None None))
    (Some (mkResponse None (Some sampleInfoText) None))
  = None
  ∧ is_Some (@GeminiService2.searchBookDetails asciiPlatform "Dune"
      (Some (mkResponse (Some [mkChunk (Some (mkPlace (Some "City Library") None)) None])
               None None))
      (Some (mkResponse None None None))
      (Some (mkResponse None (Some sampleInfoText) None))).
Proof.
  split.
  - refine (proj2 (proj2 (@revision2_tolerates_incomplete_answers asciiPlatform))
              "Dune" _ _ _ (mkChunk (Some (mkPlace (Some "City Library") None)) None)
              (mkPlace (Some "City Library") None) _ _ _).
    + left.
    + reflexivity.
    + reflexivity.
  - vm_compute. eexists. reflexivity.
Defined.

Lemma getBookRecommendations_never_throws_witness :
  ContentService.getBookRecommendations (Some (mkResponse None (Some "not json") None))
  = Some (JSON.Arr []).
Proof.
  destruct (getBookRecommendations_never_throws (mkResponse None (Some "not json") None))
    as (recs & -> & _ & Hbad & _).
  rewrite (Hbad "not json"); [reflexivity | reflexivity | vm_compute; reflexivity].
Defined.

(** ** The detail panel *)

Lemma str_or_nonempty (o : option string) (fallback : string) :
  fallback ≠ "" → truthy_string (Some (str_or o fallback)) = Some (str_or o fallback).
Proof.
  intros Hne. unfold str_or.
  destruct (truthy_string o) as [s|] eqn:Ho.
  - apply truthy_string_Some in Ho. destruct Ho as [_ Hs].
    simpl. destruct (decide (s = "")); [contradiction | reflexivity].
  - simpl. destruct (decide (fallback = "")); [contradiction | reflexivity].
Qed.

Lemma toggle_with_summary (x : Session) (d : string) :
  truthy_string (detailedSummary (view (app x))) = Some d →
  toggleSummaryExpansion x
  = with_app (setIsSummaryExpanded (negb (isSummaryExpanded (view (app x)))) (app x)) x.
Proof.
  intros Hd. unfold toggleSummaryExpansion. rewrite Hd.
  destruct (isSummaryExpanded (view (app x))); reflexivity.
Qed.

Lemma toggles_with_summary (n : nat) (x : Session) (d : string) :
  truthy_string (detailedSummary (view (app x))) = Some d →
  summaryCalls (Nat.iter n toggleSummaryExpansion x) = summaryCalls x
  ∧ isExpanding (Nat.iter n toggleSummaryExpansion x) = isExpanding x
  ∧ detailedSummary (view (app (Nat.iter n toggleSummaryExpansion x)))
    = detailedSummary (view (app x))
  ∧ searchResult (view (app (Nat.iter n toggleSummaryExpansion x)))
    = searchResult (view (app x))
  ∧ isSummaryExpanded (view (app (Nat.iter n toggleSummaryExpansion x)))
    = xorb (Nat.odd n) (isSummaryExpanded (view (app x))).
Proof.
  intros Hd. induction n as [|n IH].
  - simpl. split_and!; reflexivity.
  - destruct IH as (Hcalls & Hexp & Hsum & Hres & Hopen).
    change (Nat.iter (S n) toggleSummaryExpansion x)
      with (toggleSummaryExpansion (Nat.iter n toggleSummaryExpansion x)).
    rewrite (toggle_with_summary _ d) by (rewrite Hsum; exact Hd).
    simpl. rewrite Hopen, Nat.odd_succ, <- Nat.negb_odd.
    split_and!; try assumption.
    destruct (Nat.odd n), (isSummaryExpanded (view (app x))); reflexivity.
Qed.

(** X20. The detailed summary of a result is fetched at most once. When the
    request is answered the panel is expanded and the stored summary is never
    empty (an answer without text stores the fallback sentence), so that
    collapsing and expanding the panel any number of times issues no further
    request and only flips the panel. *)
Theorem detailed_summary_is_fetched_once :
  ∀ (i : nat) (title : string) (response : Response) (x : Session),
    summaryCalls x !! i = Some (Some title) →
    let x' := toggleSummaryExpansion_settled i (Some response) x in
    let stored := str_or (text response) "Detailed summary unavailable." in
    detailedSummary (view (app x')) = Some stored
    ∧ stored ≠ ""
    ∧ isSummaryExpanded (view (app x')) = true
    ∧ isExpanding x' = false
    ∧ ∀ n, let x'' := Nat.iter n toggleSummaryExpansion x' in
           summaryCalls x'' = summaryCalls x'
           ∧ isExpanding x'' = false
           ∧ detailedSummary (view (app x'')) = Some stored
           ∧ isSummaryExpanded (view (app x'')) = Nat.even n.
Proof.
  intros i title response x Hi x' stored.
  assert (Hstored : truthy_string (Some stored) = Some stored)
    by (apply str_or_nonempty; discriminate).
  assert (Hx' : detailedSummary (view (app x')) = Some stored
                ∧ isSummaryExpanded (view (app x')) = true ∧ isExpanding x' = false).
  { subst x'. unfold toggleSummaryExpansion_settled. rewrite Hi. simpl.
    split_and!; reflexivity. }
  destruct Hx' as (Hsum & Hopen & Hexp).
  split_and!; try assumption.
  - intros ->. discriminate.
  - intros n x''. subst x''.
    destruct (toggles_with_summary n x' stored) as (H1 & H2 & H3 & _ & H5).
    { rewrite Hsum. exact Hstored. }
    rewrite H1, H2, H3, H5, Hopen, Hexp, Hsum, <- Nat.negb_odd.
    split_and!; reflexivity.
Qed.

Lemma detailed_summary_is_fetched_once_witness :
  detailedSummary (view (app
    (Nat.iter 4 toggleSummaryExpansion
       (toggleSummaryExpansion_settled 0 (Some (mkResponse None None None))
          (toggleSummaryExpansion
             (with_app (openResult (sampleBook "Dune") initialApp) initialSession))))))
  = Some "Detailed summary unavailable.".
Proof.
  destruct (detailed_summary_is_fetched_once 0 "Dune" (mkResponse None None None)
              (toggleSummaryExpansion
                 (with_app (openResult (sampleBook "Dune") initialApp) initialSession)))
    as (_ & _ & _ & _ & Hlater); [reflexivity|].
  exact (proj1 (proj2 (proj2 (Hlater 4%nat)))).
Defined.

Section PanelMore.
Context `{Platform}.

(** X21. The detailed summary is not tied to the result it was fetched for.
    A summary requested for one book and answered after another search has
    completed is stored and shown, expanded, under the new result; and
    opening another book from the favorites or the history keeps the summary
    and the expansion of the previous book, after which no toggle fetches a
    summary for the book on the screen. *)
Theorem detailed_summary_outlives_its_book :
  (∀ (x : Session) (result newResult : BookResult.t) (q : string)
     (m sr ir : option Response) (n t : N) (response : Response),
     searchResult (view (app x)) = Some result →
     truthy_string (detailedSummary (view (app x))) = None →
     isSummaryExpanded (view (app x)) = false →
     q ≠ "" → trim q ≠ "" →
     GeminiService.searchBookDetails q m sr ir = Some newResult →
     let asked := session_step x ToggleSummary in
     let x' := session_run [ Search (Some q);
                             Searched (length (calls (app x))) m sr ir n t;
                             SummarySettled (length (summaryCalls x)) (Some response) ]
                 asked in
     summaryCalls asked = summaryCalls x ++ [Some (BookResult.title result)]
     ∧ searchResult (view (app x')) = Some newResult
     ∧ detailedSummary (view (app x'))
       = Some (str_or (text response) "Detailed summary unavailable.")
     ∧ isSummaryExpanded (view (app x')) = true)
  ∧ (∀ (x : Session) (other : BookResult.t) (d : string),
       truthy_string (detailedSummary (view (app x))) = Some d →
       let x' := session_step x (OpenResult other) in
       searchResult (view (app x')) = Some other
       ∧ detailedSummary (view (app x')) = detailedSummary (view (app x))
       ∧ isSummaryExpanded (view (app x')) = isSummaryExpanded (view (app x))
       ∧ ∀ k, summaryCalls (Nat.iter k toggleSummaryExpansion x') = summaryCalls x).
Proof.
  split.
  - intros x result newResult q m sr ir n t response Hres Hsum Hclosed Hq Htrim Hfound
      asked x'.
    assert (Hasked : asked
                     = {| app := app x; isExpanding := true;
                          summaryCalls := summaryCalls x ++ [Some (BookResult.title result)];
                          micRequests := micRequests x |}).
    { subst asked. simpl. unfold toggleSummaryExpansion.
      rewrite Hclosed, Hsum, Hres. reflexivity. }
    subst x'. rewrite Hasked. unfold session_run. simpl.
    rewrite (handleSearch_started q (app x) Hq Htrim).
    erewrite (searched_ok (length (calls (app x))) q);
      [| unfold issue; simpl; apply snoc_lookup | exact Hfound].
    unfold toggleSummaryExpansion_settled. simpl. rewrite snoc_lookup. simpl.
    split_and!; reflexivity.
  - intros x other d Hd x'. subst x'. simpl. split_and!; try reflexivity.
    intros k.
    destruct (toggles_with_summary k (with_app (openResult other (app x)) x) d)
      as (Hcalls & _); [exact Hd | exact Hcalls].
Qed.

End PanelMore.

Lemma detailed_summary_outlives_its_book_witness :
  ∃ shown,
    searchResult (view (app
      (@session_run asciiPlatform
         [ ToggleSummary;
           Search (Some "Emma");
           Searched 0 (Some (mkResponse None None None)) (Some (mkResponse None None None))
             (Some (mkResponse None (Some sampleInfoText) None)) 5 5;
           SummarySettled 0 (Some (mkResponse None (Some "Arrakis, in depth.") None)) ]
         (with_app (openResult (sampleBook "Dune") initialApp) initialSession))))
    = Some shown
    ∧ BookResult.title shown = "Emma"
    ∧ detailedSummary (view (app
        (@session_run asciiPlatform
           [ ToggleSummary;
             Search (Some "Emma");
             Searched 0 (Some (mkResponse None None None)) (Some (mkResponse None None None))
               (Some (mkResponse None (Some sampleInfoText) None)) 5 5;
             SummarySettled 0 (Some (mkResponse None (Some "Arrakis, in depth.") None)) ]
           (with_app (openResult (sampleBook "Dune") initialApp) initialSession))))
      = Some "Arrakis, in depth.".
Proof.
  set (ok := Some (mkResponse None None None)).
  set (info := Some (mkResponse None (Some sampleInfoText) None)).
  destruct (@GeminiService.searchBookDetails asciiPlatform "Emma" ok ok info)
    as [found|] eqn:Hfound; [|vm_compute in Hfound; discriminate].
  destruct (proj1 (@detailed_summary_outlives_its_book asciiPlatform)
              (with_app (openResult (sampleBook "Dune") initialApp) initialSession)
              (sampleBook "Dune") found "Emma" ok ok info 5%N 5%N
              (mkResponse None (Some "Arrakis, in depth.") None))
    as (_ & Hshown & Hsummary & _);
    [reflexivity | reflexivity | reflexivity | discriminate | vm_compute; discriminate
    | exact Hfound |].
  exists found. split; [exact Hshown|]. split; [|exact Hsummary].
  vm_compute in Hfound. injection Hfound as <-. reflexivity.
Defined.

(** ** The librarian chat *)

Lemma elem_of_insert_inv {A} (l : list A) (i : nat) (x y : A) :
  x ∈ <[i := y]> l → x = y ∨ x ∈ l.
Proof.
  revert i. induction l as [|a l IH]; intros i Hx.
  - apply elem_of_nil in Hx. destruct Hx.
  - destruct i as [|i]; simpl in Hx; apply elem_of_cons in Hx.
    + destruct Hx as [->|Hx]; [left; reflexivity | right; right; exact Hx].
    + destruct Hx as [->|Hx]; [right; left|].
      destruct (IH i Hx) as [->|Hin]; [left; reflexivity | right; right; exact Hin].
Qed.

Lemma slice_last_spec {A} (n : nat) (l : list A) :
  (length (slice_last n l) ≤ n)%nat
  ∧ (l ≠ [] → (0 < n)%nat → slice_last n l ≠ [])
  ∧ (∀ x, x ∈ slice_last n l → x ∈ l).
Proof.
  unfold slice_last. split_and!.
  - rewrite length_drop. lia.
  - intros Hne Hn Hnil. apply (f_equal length) in Hnil.
    rewrite length_drop in Hnil. simpl in Hnil.
    destruct l; [congruence | simpl in Hnil; lia].
  - intros x Hx. eapply elem_of_sublist; [exact Hx | apply sublist_drop].
Qed.

Section ChatMore.
Context `{Platform}.

Lemma chat_invariant_initial : chat_invariant initialChat.
Proof.
  split_and!; simpl.
  - discriminate.
  - intros m Hm. apply elem_of_nil in Hm. destruct Hm.
  - intros message useThinking Hin. apply elem_of_nil in Hin. destruct Hin.
  - intros context Hin. apply elem_of_nil in Hin. destruct Hin.
Qed.

Lemma chat_invariant_step (c : Chat) (e : ChatEvent) :
  chat_invariant c → chat_invariant (chat_step c e).
Proof.
  intros (Hhead & Hblank & Hasked & Hrecs).
  destruct e as [text|checked| |i response| |i response| ]; simpl.
  - split_and!; assumption.
  - split_and!; assumption.
  - unfold handleChat.
    destruct (String.eqb (trim (chatInput c)) "") eqn:Htrim; [split_and!; assumption|].
    apply String.eqb_neq in Htrim. split_and!; simpl.
    + intros m. rewrite head_snoc.
      destruct (head (chatMessages c)) as [first|] eqn:Hfirst.
      * intros [= <-]. apply Hhead. reflexivity.
      * intros [= <-]. reflexivity.
    + intros m Hm Huser. apply elem_of_app in Hm. destruct Hm as [Hm|Hm]; [auto|].
      apply list_elem_of_singleton in Hm. subst m. exact Htrim.
    + intros message useThinking _ Hnil. apply app_eq_nil in Hnil.
      destruct Hnil as [_ Hnil]. discriminate.
    + intros context Hin. apply elem_of_app in Hin. destruct Hin as [Hin|Hin]; [auto|].
      apply list_elem_of_singleton in Hin. discriminate.
  - unfold handleChat_settled.
    destruct (chatCalls c !! i) as [[message useThinking|context|]|] eqn:Hi;
      try (split_and!; assumption).
    assert (Hne : chatMessages c ≠ []).
    { apply (Hasked message useThinking). eapply list_elem_of_lookup_2. exact Hi. }
    split_and!; simpl.
    + intros m. destruct (ContentService.chatWithLibrarian response); [|apply Hhead].
      rewrite head_snoc.
      destruct (head (chatMessages c)) as [first|] eqn:Hfirst.
      * intros [= <-]. apply Hhead. reflexivity.
      * exfalso. apply Hne. destruct (chatMessages c); [reflexivity | discriminate].
    + intros m Hm Huser.
      destruct (ContentService.chatWithLibrarian response); [|auto].
      apply elem_of_app in Hm. destruct Hm as [Hm|Hm]; [auto|].
      apply list_elem_of_singleton in Hm. subst m. discriminate.
    + intros message' useThinking' _.
      destruct (ContentService.chatWithLibrarian response); [|exact Hne].
      intros Hnil. apply app_eq_nil in Hnil. destruct Hnil as [_ Hnil]. discriminate.
    + intros context Hin. apply elem_of_insert_inv in Hin.
      destruct Hin as [Hin|Hin]; [discriminate | auto].
  - unfold fetchLibrarianRecs.
    destruct (length (chatMessages c) =? 0)%nat eqn:Hlen; [split_and!; assumption|].
    apply Nat.eqb_neq in Hlen. split_and!; simpl; try assumption.
    + intros message useThinking Hin. apply elem_of_app in Hin.
      destruct Hin as [Hin|Hin]; [eauto|].
      apply list_elem_of_singleton in Hin. discriminate.
    + intros context Hin. apply elem_of_app in Hin. destruct Hin as [Hin|Hin]; [auto|].
      apply list_elem_of_singleton in Hin. injection Hin as ->.
      destruct (slice_last_spec 5
                  (ChatMessage.content <$> List.filter is_user (chatMessages c)))
        as (Hle & Hnonempty & Hsub).
      split_and!.
      * apply Hnonempty; [|lia].
        destruct (chatMessages c) as [|first rest] eqn:Hmsgs; [simpl in Hlen; lia|].
        simpl. rewrite (Hhead first eq_refl). discriminate.
      * exact Hle.
      * apply Forall_forall. intros t Ht. apply Hsub in Ht.
        apply list_elem_of_fmap in Ht. destruct Ht as (m & -> & Hm).
        apply list_elem_of_In, filter_In in Hm. destruct Hm as [Hm Huser].
        apply Hblank; [apply list_elem_of_In; exact Hm | exact Huser].
  - unfold fetchLibrarianRecs_settled.
    destruct (chatCalls c !! i) as [[message useThinking|context|]|] eqn:Hi;
      try (split_and!; assumption).
    split_and!; simpl; try assumption.
    + intros message useThinking Hin. apply elem_of_insert_inv in Hin.
      destruct Hin as [Hin|Hin]; [discriminate | eauto].
    + intros context' Hin. apply elem_of_insert_inv in Hin.
      destruct Hin as [Hin|Hin]; [discriminate | auto].
  - split_and!; assumption.
Qed.

Lemma chat_step_grows (c : Chat) (e : ChatEvent) :
  chatMessages c `prefix_of` chatMessages (chat_step c e).
Proof.
  destruct e as [text|checked| |i response| |i response| ]; simpl; try reflexivity.
  - unfold handleChat. destruct (String.eqb _ _); [reflexivity|].
    simpl. apply prefix_app_r. reflexivity.
  - unfold handleChat_settled.
    destruct (chatCalls c !! i) as [[message useThinking|context|]|]; try reflexivity.
    simpl. destruct (ContentService.chatWithLibrarian response); [|reflexivity].
    apply prefix_app_r. reflexivity.
  - unfold fetchLibrarianRecs. destruct (_ =? _)%nat; reflexivity.
  - unfold fetchLibrarianRecs_settled.
    destruct (chatCalls c !! i) as [[message useThinking|context|]|]; reflexivity.
Qed.

(** X22. However the chat tab is used, starting from the empty chat: every
    request for recommendations that was issued carries a context of at
    least one and at most five texts, none of them blank; the chat starts
    with a message of the user; and the conversation only grows: what was
    said stays, in place, under every later event. *)
Theorem recommendation_requests_have_context :
  ∀ (es : list ChatEvent),
    let c := chat_run es initialChat in
    (∀ context, AwaitRecs context ∈ chatCalls c →
       context ≠ [] ∧ (length context ≤ 5)%nat ∧ Forall (λ t, trim t ≠ "") context)
    ∧ (∀ m, head (chatMessages c) = Some m → ChatMessage.role m = ChatMessage.user)
    ∧ (∀ es', chatMessages c `prefix_of` chatMessages (chat_run es' c)).
Proof.
  intros es c.
  assert (Hinv : chat_invariant c).
  { subst c. unfold chat_run. generalize initialChat, chat_invariant_initial.
    induction es as [|e es IH]; intros c0 Hc0; simpl; [exact Hc0|].
    apply IH. apply chat_invariant_step. exact Hc0. }
  destruct Hinv as (Hhead & _ & _ & Hrecs). split_and!.
  - exact Hrecs.
  - intros m Hm. apply Hhead in Hm. unfold is_user in Hm.
    destruct (ChatMessage.role m); [reflexivity | discriminate].
  - intros es'. unfold chat_run. generalize c.
    induction es' as [|e es' IH]; intros c0; simpl; [reflexivity|].
    etransitivity; [apply (chat_step_grows c0 e) | apply IH].
Qed.

End ChatMore.

Lemma recommendation_requests_have_context_witness :
  AwaitRecs ["space opera"]
    ∈ chatCalls (@chat_run asciiPlatform [TypeMessage "space opera"; SubmitChat; FetchRecs]
                   initialChat)
  ∧ (length ["space opera"] ≤ 5)%nat.
Proof.
  assert (Hin : AwaitRecs ["space opera"]
                  ∈ chatCalls (@chat_run asciiPlatform
                                 [TypeMessage "space opera"; SubmitChat; FetchRecs]
                                 initialChat)).
  { vm_compute. right. left. }
  split; [exact Hin|].
  exact (proj1 (proj2 (proj1 (@recommendation_requests_have_context asciiPlatform
                                [TypeMessage "space opera"; SubmitChat; FetchRecs])
                         ["space opera"] Hin))).
Defined.

(** ** The recorder *)

Lemma split_free (c : ascii) (s : string) :
  free_of c s = true → String_split c s = [s].
Proof.
  induction s as [|a r IH]; [reflexivity|].
  simpl. intros Hfree. apply andb_true_iff in Hfree. destruct Hfree as [Ha Hr].
  apply negb_true_iff in Ha. rewrite Ha, (IH Hr). reflexivity.
Qed.

Lemma split_at_first (c : ascii) (p r : string) :
  free_of c p = true →
  String_split c (p ++ String c r) = p :: String_split c r.
Proof.
  induction p as [|a p IH]; simpl.
  - intros _. rewrite Ascii.eqb_refl. reflexivity.
  - intros Hfree. apply andb_true_iff in Hfree. destruct Hfree as [Ha Hp].
    apply negb_true_iff in Ha. rewrite Ha, (IH Hp). reflexivity.
Qed.

Lemma base64_digit_not_comma (n : N) : Ascii.eqb (base64_digit n) "," = false.
Proof.
  assert (Hcode : ∀ k, (k < 256)%N → k ≠ 44%N → Ascii.eqb (ascii_of_N k) "," = false).
  { intros k Hk Hne. apply Ascii.eqb_neq. intros Heq.
    apply (f_equal N_of_ascii) in Heq. rewrite N_ascii_embedding in Heq by exact Hk.
    apply Hne. exact Heq. }
  unfold base64_digit.
  destruct (n <? 26)%N eqn:H1; [apply N.ltb_lt in H1; apply Hcode; lia|].
  destruct (n <? 52)%N eqn:H2; [apply N.ltb_lt in H2; apply Hcode; lia|].
  destruct (n <? 62)%N eqn:H3; [apply N.ltb_lt in H3; apply Hcode; lia|].
  destruct (n =? 62)%N; reflexivity.
Qed.

Lemma base64_free_bounded (n : nat) :
  ∀ s, (String.length s ≤ n)%nat → free_of "," (base64 s) = true.
Proof.
  induction n as [|n IH]; intros s Hlen.
  - destruct s; [reflexivity | simpl in Hlen; lia].
  - destruct s as [|a [|b [|c r]]]; cbn [base64 free_of];
      rewrite ?base64_digit_not_comma; try reflexivity.
    cbn [negb andb]. apply IH. simpl in Hlen. lia.
Qed.

Lemma base64_free (s : string) : free_of "," (base64 s) = true.
Proof. apply (base64_free_bounded (String.length s)). lia. Qed.

Lemma data_url_payload (body : string) :
  free_of "," body = true →
  String_split "," ("data:audio/webm;base64," ++ body) !! 1%nat = Some body.
Proof.
  intros Hfree.
  change ("data:audio/webm;base64," ++ body)%string
    with ("data:audio/webm;base64" ++ String "," body)%string.
  rewrite split_at_first by reflexivity. rewrite (split_free _ _ Hfree). reflexivity.
Qed.

Lemma empty_chunk (data : Blob) : (0 <? blob_size data)%nat = false → blob_data data = "".
Proof.
  unfold blob_size. intros Hsize. apply Nat.ltb_ge in Hsize.
  destruct (blob_data data); [reflexivity | simpl in Hsize; lia].
Qed.

Lemma clip_data_filter (chunks : list Blob) :
  clip_data (List.filter (λ d, (0 <? blob_size d)%nat) chunks) = clip_data chunks.
Proof.
  unfold clip_data, new_Blob. simpl.
  induction chunks as [|d chunks IH]; [reflexivity|].
  simpl. destruct (0 <? blob_size d)%nat eqn:Hsize; simpl.
  - rewrite IH. reflexivity.
  - rewrite (empty_chunk d Hsize), IH. reflexivity.
Qed.

Lemma deliver_spec (chunks : list Blob) (s : AppState) :
  deliver chunks s
  = with_capture
      (mkCapture (isRecording (capture s)) (isTranscribing (capture s))
         (mediaRecorderRef (capture s))
         (audioChunksRef (capture s)
          ++ List.filter (λ d, (0 <? blob_size d)%nat) chunks)) s.
Proof.
  revert s. induction chunks as [|d chunks IH]; intros s.
  - simpl. rewrite app_nil_r. destruct s as [v [r t m a] l j mv au cs ef]. reflexivity.
  - unfold deliver in *. simpl. rewrite IH. unfold ondataavailable.
    destruct (0 <? blob_size d)%nat; simpl.
    + rewrite <- app_assoc. reflexivity.
    + reflexivity.
Qed.

Section RecorderMore.
Context `{Platform}.

(** X23. What is sent for transcription is the whole clip: after the
    recorder has delivered its chunks and stopped, [transcribeAudio] is
    awaited with the base64 text of the data of all chunks in the order
    they arrived, provided the clip is not empty. The chunks of size zero
    that [ondataavailable] drops would have added nothing. The recording
    indicator is still on. *)
Theorem recorded_clip_is_sent_whole :
  ∀ (chunks : list Blob) (s : AppState),
    clip_data chunks ≠ "" →
    let i := length (calls s) in
    let recorded := deliver chunks (startRecording true s) in
    let s' := onloadend i (onstop recorded) in
    audioChunksRef (capture recorded) = List.filter (λ d, (0 <? blob_size d)%nat) chunks
    ∧ clip_data (audioChunksRef (capture recorded)) = clip_data chunks
    ∧ calls s' !! i = Some (AwaitTranscribe (Some (base64 (clip_data chunks))))
    ∧ isTranscribing (capture s') = true
    ∧ isRecording (capture s') = true.
Proof.
  intros chunks s Hdata i recorded s'.
  assert (Hrec : recorded
                 = with_capture
                     (mkCapture true (isTranscribing (capture s)) (Some true)
                        (List.filter (λ d, (0 <? blob_size d)%nat) chunks)) s).
  { subst recorded. rewrite deliver_spec. reflexivity. }
  assert (Hstop : calls (onstop recorded) !! i
                  = Some (ReadingBlob (new_Blob (audioChunksRef (capture recorded))
                                         "audio/webm"))).
  { rewrite Hrec. unfold onstop, issue. simpl. apply snoc_lookup. }
  assert (Hurl : readAsDataURL (new_Blob (audioChunksRef (capture recorded)) "audio/webm")
                 = ("data:audio/webm;base64," ++ base64 (clip_data chunks))%string).
  { unfold readAsDataURL.
    assert (Hsize : (blob_size (new_Blob (audioChunksRef (capture recorded)) "audio/webm")
                     =? 0)%nat = false).
    { apply Nat.eqb_neq. unfold blob_size.
      change (blob_data (new_Blob (audioChunksRef (capture recorded)) "audio/webm"))
        with (clip_data (audioChunksRef (capture recorded))).
      rewrite Hrec. simpl. rewrite clip_data_filter.
      destruct (clip_data chunks); [congruence | simpl; lia]. }
    rewrite Hsize, andb_false_r.
    change (blob_data (new_Blob (audioChunksRef (capture recorded)) "audio/webm"))
      with (clip_data (audioChunksRef (capture recorded))).
    rewrite Hrec. simpl. rewrite clip_data_filter. reflexivity. }
  split_and!.
  - rewrite Hrec. reflexivity.
  - rewrite Hrec. simpl. apply clip_data_filter.
  - subst s'. unfold onloadend. rewrite Hstop, Hurl.
    rewrite (data_url_payload _ (base64_free _)).
    unfold setIsTranscribing. simpl.
    apply list_lookup_insert_eq. eapply lookup_lt_Some. exact Hstop.
  - subst s'. unfold onloadend. rewrite Hstop. reflexivity.
  - subst s'. unfold onloadend. rewrite Hstop, Hrec. reflexivity.
Qed.

Lemma capture_after_search (overrideQuery : option string) (s : AppState) :
  capture (handleSearch overrideQuery s) = capture s.
Proof. unfold handleSearch. destruct (String.eqb _ _); reflexivity. Qed.

Lemma recorder_after_step (x : Session) (e : SessionEvent) :
  e ≠ MicButton → (∀ granted, e ≠ MicSettled granted) →
  isRecording (capture (app (session_step x e))) = isRecording (capture (app x))
  ∧ mediaRecorderRef (capture (app (session_step x e)))
    = (if e is RecorderStopped then const false <$> mediaRecorderRef (capture (app x))
       else mediaRecorderRef (capture (app x)))
  ∧ micRequests (session_step x e) = micRequests x.
Proof.
  intros Hbutton Hsettled.
  destruct e as [ |granted|data| |i|i response|q|overrideQuery|i m sr ir n t|result
                | |i response|book|bookTitle journalId|confirmed id|id]; simpl.
  - congruence.
  - exfalso. exact (Hsettled granted eq_refl).
  - unfold ondataavailable. destruct (0 <? blob_size data)%nat; split_and!; reflexivity.
  - destruct (mediaRecorderRef (capture (app x))) eqn:Href; simpl.
    + rewrite Href. split_and!; reflexivity.
    + rewrite Href. split_and!; reflexivity.
  - unfold onloadend. destruct (calls (app x) !! i) as [[ | | | ]|]; split_and!; reflexivity.
  - unfold transcribed. destruct (calls (app x) !! i) as [[ | | | ]|];
      try (split_and!; reflexivity).
    destruct (GeminiService.transcribeAudio response) as [transcription|]; simpl.
    + destruct (String.eqb transcription ""); simpl; rewrite ?capture_after_search;
        split_and!; reflexivity.
    + split_and!; reflexivity.
  - split_and!; reflexivity.
  - rewrite capture_after_search. split_and!; reflexivity.
  - unfold searched. destruct (calls (app x) !! i) as [[ | | | ]|];
      try (split_and!; reflexivity).
    unfold handleSearch_settled. destruct (GeminiService.searchBookDetails _ _ _ _);
      split_and!; reflexivity.
  - split_and!; reflexivity.
  - unfold toggleSummaryExpansion.
    destruct (isSummaryExpanded _); [split_and!; reflexivity|].
    destruct (truthy_string (detailedSummary (view (app x)))),
      (searchResult (view (app x))); split_and!; reflexivity.
  - unfold toggleSummaryExpansion_settled.
    destruct (summaryCalls x !! i) as [[title|]|]; try (split_and!; reflexivity).
    destruct (ContentService.getDetailedSummary response); split_and!; reflexivity.
  - split_and!; reflexivity.
  - split_and!; reflexivity.
  - unfold deleteJournal. destruct confirmed; [|split_and!; reflexivity].
    simpl. destruct (String.eqb _ _); split_and!; reflexivity.
  - split_and!; reflexivity.
Qed.

Lemma recording_stays_on (x : Session) (e : SessionEvent) :
  isRecording (capture (app x)) = true →
  isRecording (capture (app (session_step x e))) = true.
Proof.
  intros Hrec. pose proof (recorder_after_step x e) as Hstep.
  destruct e as [ |granted| | | | | | | | | | | | | | ];
    try (rewrite (proj1 (Hstep ltac:(discriminate) ltac:(discriminate)));
         exact Hrec).
  - simpl. unfold micButton. rewrite Hrec.
    destruct (mediaRecorderRef (capture (app x))) as [[]|]; simpl;
      first [reflexivity | exact Hrec].
  - simpl. unfold getUserMedia_settled. destruct (micRequests x); [exact Hrec|].
    simpl. destruct granted; [reflexivity | exact Hrec].
Qed.

Lemma spent_recorder_step (x : Session) (e : SessionEvent) :
  isRecording (capture (app x)) = true →
  mediaRecorderRef (capture (app x)) = Some false →
  micRequests x = 0%nat →
  mediaRecorderRef (capture (app (session_step x e))) = Some false
  ∧ micRequests (session_step x e) = 0%nat.
Proof.
  intros Hrec Href Hreq. pose proof (recorder_after_step x e) as Hstep.
  destruct e as [ |granted| | | | | | | | | | | | | | ];
    try (destruct (Hstep ltac:(discriminate) ltac:(discriminate)) as (_ & -> & ->);
         rewrite ?Href; auto).
  - simpl. unfold micButton. rewrite Hrec, Href. auto.
  - simpl. unfold getUserMedia_settled. rewrite Hreq. auto.
Qed.

(** X24. The recording indicator is never switched off: once [isRecording]
    is true it stays true under every event. So after the first recording
    has been stopped, and with no permission request waiting, the
    microphone button stops an already stopped recorder for ever: no event
    makes the recorder active again, and the button changes nothing. *)
Theorem microphone_records_only_once :
  ∀ (es : list SessionEvent) (x : Session),
    isRecording (capture (app x)) = true →
    let x' := session_run es x in
    isRecording (capture (app x')) = true
    ∧ (mediaRecorderRef (capture (app x)) = Some false →
       micRequests x = 0%nat →
       mediaRecorderRef (capture (app x')) = Some false
       ∧ micRequests x' = 0%nat
       ∧ session_step x' MicButton = x').
Proof.
  induction es as [|e es IH]; intros x Hrec; simpl.
  - split; [exact Hrec|]. intros Href Hreq. split_and!; try assumption.
    unfold micButton. rewrite Hrec, Href. reflexivity.
  - destruct (IH (session_step x e) (recording_stays_on x e Hrec)) as [Hon Hspent].
    split; [exact Hon|]. intros Href Hreq.
    destruct (spent_recorder_step x e Hrec Href Hreq) as [Href' Hreq'].
    exact (Hspent Href' Hreq').
Qed.

End RecorderMore.

Lemma recorded_clip_is_sent_whole_witness :
  clip_data [mkBlob "abc" "audio/webm"; mkBlob "" "audio/webm"; mkBlob "de" "audio/webm"]
  ≠ ""
  ∧ calls (@onloadend asciiPlatform 0
             (onstop (deliver [mkBlob "abc" "audio/webm"; mkBlob "" "audio/webm";
                               mkBlob "de" "audio/webm"]
                        (startRecording true initialApp)))) !! 0%nat
    = Some (AwaitTranscribe (Some "YWJjZGU=")).
Proof.
  assert (Hdata : clip_data [mkBlob "abc" "audio/webm"; mkBlob "" "audio/webm";
                             mkBlob "de" "audio/webm"] ≠ "") by discriminate.
  split; [exact Hdata|].
  exact (proj1 (proj2 (proj2 (@recorded_clip_is_sent_whole asciiPlatform
                                [mkBlob "abc" "audio/webm"; mkBlob "" "audio/webm";
                                 mkBlob "de" "audio/webm"] initialApp Hdata)))).
Defined.

Lemma microphone_records_only_once_witness :
  mediaRecorderRef (capture (app
    (@session_run asciiPlatform [MicButton; MicSettled true; MicButton] initialSession)))
  = Some false
  ∧ mediaRecorderRef (capture (app
      (@session_run asciiPlatform
         [RecorderStopped; LoadEnd 0; MicButton; MicSettled true; MicButton]
         (@session_run asciiPlatform [MicButton; MicSettled true; MicButton]
            initialSession))))
    = Some false.
Proof.
  split; [reflexivity|].
  refine (proj1 (proj2 (@microphone_records_only_once asciiPlatform
                          [RecorderStopped; LoadEnd 0; MicButton; MicSettled true;
                           MicButton]
                          (@session_run asciiPlatform
                             [MicButton; MicSettled true; MicButton] initialSession)
                          _) _ _)); reflexivity.
Defined.

(** ** Saving the settings *)

(** X25. The theme and the language survive a reload: what the save effects
    write is what the initialisers read back, whatever the storage held and
    whatever the system colour scheme is. An empty language would come back
    as English. Saving the settings does not touch what is loaded for
    another key. *)
Theorem settings_round_trip :
  ∀ (localStorage : gmap string string),
    (∀ isDarkMode prefersDark,
        Storage.load_isDarkMode prefersDark (save_theme isDarkMode localStorage)
        = isDarkMode)
    ∧ (∀ language, language ≠ "" →
        Storage.load_language (save_language language localStorage) = language)
    ∧ Storage.load_language (save_language "" localStorage) = "English"
    ∧ (∀ isDarkMode language key,
        key ≠ "lumina-theme" → key ≠ "lumina-lang" →
        Storage.load_collection key
          (save_language language (save_theme isDarkMode localStorage))
        = Storage.load_collection key localStorage).
Proof.
  intros localStorage. split_and!.
  - intros isDarkMode prefersDark.
    unfold Storage.load_isDarkMode, Storage.getItem, save_theme.
    rewrite lookup_insert_eq. destruct isDarkMode; reflexivity.
  - intros language Hne.
    unfold Storage.load_language, Storage.getItem, save_language.
    rewrite lookup_insert_eq. apply str_or_Some. exact Hne.
  - unfold Storage.load_language, Storage.getItem, save_language.
    rewrite lookup_insert_eq. reflexivity.
  - intros isDarkMode language key Htheme Hlang.
    unfold Storage.load_collection, Storage.getItem, save_language, save_theme.
    rewrite !lookup_insert_ne by congruence. reflexivity.
Qed.

Lemma settings_round_trip_witness :
  Storage.load_language (save_language "Tamil" (<["lumina-lang" := "Hindi"]> ∅)) = "Tamil".
Proof.
  refine (proj1 (proj2 (settings_round_trip (<["lumina-lang" := "Hindi"]> ∅))) "Tamil" _).
  discriminate.
Defined.

Lemma toggleFavorite_flips_witness :
  @toLowerCase asciiPlatform "Moby Dick" ≠ @toLowerCase asciiPlatform "Dune"
  ∧ @isFavorited asciiPlatform
      (@toggleFavorite asciiPlatform (sampleBook "Dune") sampleLibrary) "Moby Dick"
    = @isFavorited asciiPlatform sampleLibrary "Moby Dick".
Proof.
  assert (Hne : @toLowerCase asciiPlatform "Moby Dick"
                ≠ @toLowerCase asciiPlatform (BookResult.title (sampleBook "Dune"))).
  { vm_compute. discriminate. }
  split; [exact Hne|].
  exact (proj2 (@toggleFavorite_flips asciiPlatform (sampleBook "Dune") sampleLibrary)
           "Moby Dick" Hne).
Defined.
